(** * RC-Lex-Cpp: a shallow embedding of [lex.cpp]

    The Rosetta Code lexical analyzer of the repository, written as Rocq
    functions that follow the C++ member functions one by one, and the
    properties of the specification proved (or refuted) on them.

    Conventions of the embedding.
    - The source buffer is the [std::string] handed to [Lexer]; its
      [data()] is the characters followed by one terminating NUL.  A
      [const char*] into it is a [nat] offset from [data()].
    - Reading outside [data()[0 .. size()]] has no defined result: every
      dereference is checked and an out-of-range one ends the run with
      the fault [OutOfBounds].
    - [int] is 32 bits with its wrap-around written out; [long] and
      [std::size_t] are 64 bits and plain [char] is signed, as on the
      x86-64 g++ the makefile names.
    - The member functions of [Lexer] mutate the two scanners [s] and
      [pre_state]; they are functions in a state monad over [Lexer]
      whose results also record faults.  Loops carry a fuel argument. *)

From Stdlib Require Import ZArith List String Ascii Bool Arith Lia DecimalString.
From Stdlib Require DecimalZ.
Import ListNotations.

Local Open Scope string_scope.
Local Open Scope nat_scope.

(* ===================================================================== *)
(** * Platform: integer widths and character classes *)
(* ===================================================================== *)

(** Two's complement wrap-around of a 32-bit [int]. *)
Definition wrap_int (z : Z) : Z := ((z + 2 ^ 31) mod 2 ^ 32 - 2 ^ 31)%Z.

(** [LONG_MAX] where [long] has 64 bits. *)
Definition LONG_MAX : Z := (2 ^ 63 - 1)%Z.

(** [std::size_t] arithmetic is modulo [2 ^ 64]. *)
Definition SIZE_MOD : Z := (2 ^ 64)%Z.

(** [std::string::max_size()] of libstdc++ under [-std=c++20], which
    the makefile sets: [(size_t(-1) - 1) / 2]. *)
Definition string_max_size : Z := (2 ^ 63 - 1)%Z.

Definition NUL : ascii := "000"%char.
Definition LF : ascii := "010"%char.
Definition BACKSLASH : ascii := "\"%char.
Definition QUOTE : ascii := "'"%char.
Definition DQUOTE : ascii := "034"%char.

(** [<cctype>] in the "C" locale, on [static_cast<unsigned char>(c)]. *)
Definition isspace (c : ascii) : bool :=
  let n := nat_of_ascii c in ((9 <=? n) && (n <=? 13)) || (n =? 32).

Definition isdigit (c : ascii) : bool :=
  let n := nat_of_ascii c in (48 <=? n) && (n <=? 57).

Definition isalpha (c : ascii) : bool :=
  let n := nat_of_ascii c in
  ((65 <=? n) && (n <=? 90)) || ((97 <=? n) && (n <=? 122)).

Definition isalnum (c : ascii) : bool := isalpha c || isdigit c.

(** The value of a plain (signed) [char] converted to [int]. *)
Definition int_of_char (c : ascii) : Z :=
  let n := Z.of_nat (nat_of_ascii c) in
  if (n <? 128)%Z then n else (n - 256)%Z.

(** [std::to_string(int)] and [ostream << int]. *)
Definition string_of_Z (z : Z) : string := NilZero.string_of_int (Z.to_int z).

(** A string of one character, [string(1, c)]. *)
Definition string1 (c : ascii) : string := String c EmptyString.

(** [text += c]. *)
Definition push_back (text : string) (c : ascii) : string := text ++ string1 c.

(* ===================================================================== *)
(** * Machinery *)
(* ===================================================================== *)

(** [s.replace(pos, n, r)]: the [n] characters from [pos] give way to [r]. *)
Definition string_replace (s : string) (pos n : nat) (r : string) : string :=
  substring 0 pos s ++ r
  ++ substring (pos + n) (String.length s - (pos + n)) s.

(** The [for] loop of [sanitize], from index [i].  The index is an
    [int]: the test [i < s.size()] and the subscript [s[i]] convert it
    to [size_t], and [i++] and [++i] wrap as every [int] of this file
    does.  A newline or a backslash at [s[i]] is replaced by its
    two-character escape, and the [i++] in the call together with the
    loop's [++i] steps over both. *)
Fixpoint sanitize_loop (fuel : nat) (i : Z) (s : string) : string :=
  match fuel with
  | O => s
  | S fuel' =>
      let u := (i mod SIZE_MOD)%Z in
      if (u <? Z.of_nat (String.length s))%Z then
        match String.get (Z.to_nat u) s with
        | Some c =>
            if Ascii.eqb c LF
            then sanitize_loop fuel' (wrap_int (wrap_int (i + 1) + 1))
                   (string_replace s (Z.to_nat u) 1
                      (String BACKSLASH (String "n" EmptyString)))
            else if Ascii.eqb c BACKSLASH
            then sanitize_loop fuel' (wrap_int (wrap_int (i + 1) + 1))
                   (string_replace s (Z.to_nat u) 1
                      (String BACKSLASH (String BACKSLASH EmptyString)))
            else sanitize_loop fuel' (wrap_int (i + 1)) s
        | None => s
        end
      else s
  end.

(** [string sanitize (string s)]; the loop takes at most one turn per
    character of the argument: an index that has wrapped is negative,
    so the next test ends the loop. *)
Definition sanitize (s : string) : string :=
  sanitize_loop (S (String.length s)) 0 s.

(** The escaped form of a text, character by character: what
    [sanitize] computes while its index does not wrap. *)
Fixpoint escape (str : string) : string :=
  match str with
  | EmptyString => EmptyString
  | String c rest =>
      if Ascii.eqb c LF then String BACKSLASH (String "n" (escape rest))
      else if Ascii.eqb c BACKSLASH then String BACKSLASH (String BACKSLASH (escape rest))
      else String c (escape rest)
  end.

(** ** Scanner *)
Module Scanner.

Record t : Type := mk { pos : nat; line : Z; col : Z }.

(** [Scanner (const char* source)]: [line = 1], [col = 1]. *)
Definition init : t := {| pos := 0; line := 1; col := 1 |}.

Section Methods.
(** The characters of the buffer before its terminating NUL. *)
Variable src : string.

(** [*p] for the pointer [data() + p]; [None] outside the buffer. *)
Definition deref (p : nat) : option ascii :=
  match String.get p src with
  | Some c => Some c
  | None => if p =? String.length src then Some NUL else None
  end.

(** [char peek () { return *pos; }] *)
Definition peek (sc : t) : option ascii := deref (pos sc).

(** [void advance ()]: reads [*pos] for the newline test, then [++pos]. *)
Definition advance (sc : t) : option t :=
  match deref (pos sc) with
  | Some c =>
      Some (if Ascii.eqb c LF
            then {| pos := S (pos sc); line := wrap_int (line sc + 1); col := 1 |}
            else {| pos := S (pos sc); line := line sc; col := wrap_int (col sc + 1) |})
  | None => None
  end.

End Methods.

End Scanner.

(* ===================================================================== *)
(** * Tokens *)
(* ===================================================================== *)

Inductive TokenName : Type :=
  | OP_MULTIPLY | OP_DIVIDE | OP_MOD | OP_ADD | OP_SUBTRACT | OP_NEGATE
  | OP_LESS | OP_LESSEQUAL | OP_GREATER | OP_GREATEREQUAL | OP_EQUAL | OP_NOTEQUAL
  | OP_NOT | OP_ASSIGN | OP_AND | OP_OR
  | LEFTPAREN | RIGHTPAREN | LEFTBRACE | RIGHTBRACE | SEMICOLON | COMMA
  | KEYWORD_IF | KEYWORD_ELSE | KEYWORD_WHILE | KEYWORD_PRINT | KEYWORD_PUTC
  | IDENTIFIER | INTEGER | STRING
  | END_OF_INPUT | ERROR.

(** [using TokenVal = variant<int, string>]. *)
Inductive TokenVal : Type :=
  | VInt (n : Z)
  | VString (text : string).

Module Token.
Record t : Type := mk { name : TokenName; value : TokenVal; line : Z; column : Z }.
End Token.

(** [to_cstring]: the table has 27 entries, one per name before
    [IDENTIFIER]; the later names index past it. *)
Definition to_cstring (name : TokenName) : option string :=
  match name with
  | OP_MULTIPLY => Some "Op_multiply" | OP_DIVIDE => Some "Op_divide"
  | OP_MOD => Some "Op_mod" | OP_ADD => Some "Op_add"
  | OP_SUBTRACT => Some "Op_subtract" | OP_NEGATE => Some "Op_negate"
  | OP_LESS => Some "Op_less" | OP_LESSEQUAL => Some "Op_lessequal"
  | OP_GREATER => Some "Op_greater" | OP_GREATEREQUAL => Some "Op_greaterequal"
  | OP_EQUAL => Some "Op_equal" | OP_NOTEQUAL => Some "Op_notequal"
  | OP_NOT => Some "Op_not" | OP_ASSIGN => Some "Op_assign"
  | OP_AND => Some "Op_and" | OP_OR => Some "Op_or"
  | LEFTPAREN => Some "LeftParen" | RIGHTPAREN => Some "RightParen"
  | LEFTBRACE => Some "LeftBrace" | RIGHTBRACE => Some "RightBrace"
  | SEMICOLON => Some "Semicolon" | COMMA => Some "Comma"
  | KEYWORD_IF => Some "Keyword_if" | KEYWORD_ELSE => Some "Keyword_else"
  | KEYWORD_WHILE => Some "Keyword_while" | KEYWORD_PRINT => Some "Keyword_print"
  | KEYWORD_PUTC => Some "Keyword_putc"
  | IDENTIFIER | INTEGER | STRING | END_OF_INPUT | ERROR => None
  end.

(** [string to_string (TokenVal v)]. *)
Definition TokenVal_to_string (v : TokenVal) : string :=
  match v with
  | VInt n => string_of_Z n
  | VString text => text
  end.

(** [out << setw(2) << n]: right-justified in a field of width 2. *)
Definition setw2 (n : Z) : string :=
  let d := string_of_Z n in
  if String.length d <? 2 then " " ++ d else d.

Definition NL : string := string1 LF.
Definition DQ : string := string1 DQUOTE.

(** [string to_string (Token t)].  The [default] branch is only reached
    by names of the [to_cstring] table. *)
Definition Token_to_string (t : Token.t) : string :=
  let out := setw2 (Token.line t) ++ "   " ++ setw2 (Token.column t) ++ "   " in
  match Token.name t with
  | STRING =>
      out ++ "String            " ++ DQ
          ++ sanitize (TokenVal_to_string (Token.value t)) ++ DQ ++ NL
  | INTEGER => out ++ "Integer           " ++ TokenVal_to_string (Token.value t) ++ NL
  | IDENTIFIER => out ++ "Identifier        " ++ TokenVal_to_string (Token.value t) ++ NL
  | ERROR => out ++ "Error             " ++ TokenVal_to_string (Token.value t) ++ NL
  | END_OF_INPUT => out ++ "End_of_input" ++ NL
  | other =>
      match to_cstring other with
      | Some label => out ++ label ++ NL
      | None => out ++ NL
      end
  end.

Definition table_header : string :=
  "Location  Token name        Value" ++ NL
  ++ "--------------------------------------" ++ NL.

(** [list_tokens]: [for (auto t : tokens) s += to_string(t);]. *)
Definition list_tokens (tokens : list Token.t) : string :=
  fold_left (fun acc t => acc ++ Token_to_string t) tokens table_header.

(* ===================================================================== *)
(** * Lexer *)
(* ===================================================================== *)

Module Lexer.
(** The two data members of [class Lexer]. *)
Record t : Type := mk { s : Scanner.t; pre_state : Scanner.t }.

(** [Lexer (string_view source) : s {source.data()}, pre_state {s} {}] *)
Definition init : t := {| s := Scanner.init; pre_state := Scanner.init |}.
End Lexer.

(** ** The monad of the member functions *)

(** What ends a run other than a normal return: a read outside the
    buffer, or the [std::length_error] that [std::string]'s constructor
    throws (nothing in the program catches it). *)
Inductive fault : Type := OutOfBounds | LengthError.

(** A call returns a value and the new state, stops at a fault (the
    state is the one in which it happened), or runs out of fuel. *)
Inductive result (A : Type) : Type :=
  | Ok (a : A) (L : Lexer.t)
  | Fault (f : fault) (L : Lexer.t)
  | OutOfFuel.

Arguments Ok {A} a L.
Arguments Fault {A} f L.
Arguments OutOfFuel {A}.

Definition M (A : Type) : Type := Lexer.t -> result A.

Definition ret {A : Type} (a : A) : M A := fun L => Ok a L.

Definition bind {A B : Type} (m : M A) (k : A -> M B) : M B :=
  fun L =>
    match m L with
    | Ok a L' => k a L'
    | Fault f L' => Fault f L'
    | OutOfFuel => OutOfFuel
    end.

Declare Scope lexer_scope.
Delimit Scope lexer_scope with lexer.
Notation "x <- m ;; k" := (bind m (fun x => k))
  (at level 61, m at next level, right associativity) : lexer_scope.
Notation "m ;; k" := (bind m (fun _ => k))
  (at level 61, right associativity) : lexer_scope.
Notation "c == d" := (Ascii.eqb c d) (at level 70, no associativity) : lexer_scope.
Local Open Scope lexer_scope.

(** How one turn of a loop body ends: next turn, loop condition false,
    or a [return] from inside the loop. *)
Inductive flow (A R : Type) : Type :=
  | Continue (a : A)
  | Break (a : A)
  | Return (r : R).

Arguments Continue {A R} a.
Arguments Break {A R} a.
Arguments Return {A R} r.

(** A [while] loop whose local variables are [a]; the result tells a
    normal exit ([inl]) from a [return] inside the body ([inr]). *)
Fixpoint while {A R : Type} (fuel : nat) (body : A -> M (flow A R)) (a : A)
  : M (A + R) :=
  match fuel with
  | O => fun _ => OutOfFuel
  | S fuel' =>
      f <- body a ;;
      match f with
      | Continue a' => while fuel' body a'
      | Break a' => ret (inl a')
      | Return r => ret (inr r)
      end
  end.

(** [stol] on a run of decimal digits (the only argument it is given:
    no blanks, no sign, nothing after the digits). *)
Inductive stol_result : Type :=
  | stol_value (v : Z)
  | stol_out_of_range
  | stol_invalid_argument.

Definition digit_value (c : ascii) : Z := Z.of_nat (nat_of_ascii c - 48).

Fixpoint decimal_value (acc : Z) (text : string) : Z :=
  match text with
  | EmptyString => acc
  | String c rest =>
      if isdigit c then decimal_value (10 * acc + digit_value c)%Z rest else acc
  end.

Definition stol (text : string) : stol_result :=
  match text with
  | EmptyString => stol_invalid_argument
  | String c _ =>
      if isdigit c then
        let v := decimal_value 0 text in
        if (LONG_MAX <? v)%Z then stol_out_of_range else stol_value v
      else stol_invalid_argument
  end.

(** [const map<string, TokenName> Lexer::keywords] and its [find]. *)
Definition keywords : list (string * TokenName) :=
  [ ("else", KEYWORD_ELSE); ("if", KEYWORD_IF); ("print", KEYWORD_PRINT);
    ("putc", KEYWORD_PUTC); ("while", KEYWORD_WHILE) ].

Definition keywords_find (text : string) : option TokenName :=
  match find (fun kv => String.eqb (fst kv) text) keywords with
  | Some kv => Some (snd kv)
  | None => None
  end.

Definition is_id_start (c : ascii) : bool := isalpha c || (c == "_"%char).
Definition is_id_end (c : ascii) : bool := isalnum c || (c == "_"%char).
Definition is_digit (c : ascii) : bool := isdigit c.

Definition spaces28 : string := "                            ".

Section Lexer_methods.

(** The program text the lexer was constructed on. *)
Variable src : string.

(** The bytes of the buffer, terminator included. *)
Definition buffer : string := src ++ string1 NUL.

(** [s.peek()], [s.advance()] and [s.next()] on the live scanner. *)
Definition s_peek : M ascii :=
  fun L =>
    match Scanner.peek src (Lexer.s L) with
    | Some c => Ok c L
    | None => Fault OutOfBounds L
    end.

Definition s_advance : M unit :=
  fun L =>
    match Scanner.advance src (Lexer.s L) with
    | Some sc => Ok tt {| Lexer.s := sc; Lexer.pre_state := Lexer.pre_state L |}
    | None => Fault OutOfBounds L
    end.

Definition s_next : M ascii := s_advance ;; s_peek.

(** Reading the members. *)
Definition get_s : M Scanner.t := fun L => Ok (Lexer.s L) L.
Definition get_pre_state : M Scanner.t := fun L => Ok (Lexer.pre_state L) L.

(** [pre_state = s;] *)
Definition save_pre_state : M unit :=
  fun L => Ok tt {| Lexer.s := Lexer.s L; Lexer.pre_state := Lexer.s L |}.

(** [bool has_more () { return s.peek() != '\0'; }] *)
Definition has_more : M bool :=
  c <- s_peek ;; ret (negb (c == NUL)).

(** [string code {pre_state.pos, (string::size_type) s.col - pre_state.col}]:
    the count is computed in [size_t]; the constructor throws
    [length_error] above [max_size()] and otherwise copies [count]
    bytes starting at [pre_state.pos]. *)
Definition excerpt : M string :=
  sc <- get_s ;;
  pre <- get_pre_state ;;
  let count :=
    ((Scanner.col sc mod SIZE_MOD - Scanner.col pre mod SIZE_MOD) mod SIZE_MOD)%Z in
  if (string_max_size <? count)%Z then fun L => Fault LengthError L
  else if (Z.of_nat (String.length buffer) <? Z.of_nat (Scanner.pos pre) + count)%Z
       then fun L => Fault OutOfBounds L
  else ret (substring (Scanner.pos pre) (Z.to_nat count) buffer).

(** [Token error (Args&&... ostream_args)]; [msg] is what the
    arguments print. *)
Definition error (msg : string) : M Token.t :=
  code <- excerpt ;;
  sc <- get_s ;;
  let text :=
    msg ++ NL ++ spaces28 ++ "(" ++ string_of_Z (Scanner.line sc) ++ ", "
        ++ string_of_Z (Scanner.col sc) ++ "): " ++ code in
  c <- s_peek ;;
  (if negb (c == NUL) then s_advance else ret tt) ;;
  pre <- get_pre_state ;;
  ret (Token.mk ERROR (VString text) (Scanner.line pre) (Scanner.col pre)).

(** [error("Unrecognized character '", s.peek(), "'")] *)
Definition error_unrecognized : M Token.t :=
  c <- s_peek ;;
  error ("Unrecognized character '" ++ string1 c ++ "'").

(** [error("Unknown escape sequence \\", s.peek())] *)
Definition error_unknown_escape : M Token.t :=
  c <- s_peek ;;
  error ("Unknown escape sequence \" ++ string1 c).

Definition skip_whitespace (fuel : nat) : M unit :=
  r <- while (R := unit) fuel
         (fun _ =>
            c <- s_peek ;;
            if isspace c then s_advance ;; ret (Continue tt)
            else ret (Break tt))
         tt ;;
  ret tt.

Definition simple_token (name : TokenName) : M Token.t :=
  pre <- get_pre_state ;;
  ret (Token.mk name (VInt 0) (Scanner.line pre) (Scanner.col pre)).

Definition simply (name : TokenName) : M Token.t :=
  s_advance ;; simple_token name.

Definition expect (expected : ascii) (name : TokenName) : M Token.t :=
  c <- s_next ;;
  if c == expected then simply name else error_unrecognized.

Definition follow (expected : ascii) (ifyes ifno : TokenName) : M Token.t :=
  c <- s_next ;;
  if c == expected then simply ifyes else simple_token ifno.

(** [next_token] is the recursive call [return next_token();]. *)
Definition divide_or_comment (fuel : nat) (next_token : M Token.t) : M Token.t :=
  c <- s_next ;;
  if negb (c == "*"%char) then simple_token OP_DIVIDE
  else
    r <- while fuel
           (fun _ : unit =>
              c <- s_next ;;
              if negb (c == NUL) then
                p <- s_peek ;;
                if p == "*"%char then
                  q <- s_next ;;
                  if q == "/"%char then
                    s_advance ;;
                    t <- next_token ;;
                    ret (Return t)
                  else ret (Continue tt)
                else ret (Continue tt)
              else ret (Break tt))
           tt ;;
    match r with
    | inr t => ret t
    | inl _ => error "End-of-file in comment. Closing comment characters not found."
    end.

(** [finish] is the part of [char_lit] after the escape [switch]. *)
Definition char_lit : M Token.t :=
  let finish (n : Z) : M Token.t :=
    q <- s_next ;;
    if negb (q == QUOTE) then error "Multi-character constant"
    else
      s_advance ;;
      pre <- get_pre_state ;;
      ret (Token.mk INTEGER (VInt n) (Scanner.line pre) (Scanner.col pre)) in
  c <- s_next ;;
  if c == QUOTE then error "Empty character constant"
  else if c == BACKSLASH then
    e <- s_next ;;
    if e == "n"%char then finish (int_of_char LF)
    else if e == BACKSLASH then finish (int_of_char BACKSLASH)
    else error_unknown_escape
  else finish (int_of_char c).

Definition string_lit (fuel : nat) : M Token.t :=
  r <- while fuel
         (fun text : string =>
            c <- s_next ;;
            if negb (c == DQUOTE) then
              p <- s_peek ;;
              if p == BACKSLASH then
                e <- s_next ;;
                if e == "n"%char then ret (Continue (push_back text LF))
                else if e == BACKSLASH then ret (Continue (push_back text BACKSLASH))
                else t <- error_unknown_escape ;; ret (Return t)
              else if p == LF then
                t <- error ("End-of-line while scanning string literal."
                            ++ " Closing string character not found before end-of-line.") ;;
                ret (Return t)
              else if p == NUL then
                t <- error ("End-of-file while scanning string literal."
                            ++ " Closing string character not found.") ;;
                ret (Return t)
              else
                p' <- s_peek ;;
                ret (Continue (push_back text p'))
            else ret (Break text))
         EmptyString ;;
  match r with
  | inr t => ret t
  | inl text =>
      s_advance ;;
      pre <- get_pre_state ;;
      ret (Token.mk STRING (VString text) (Scanner.line pre) (Scanner.col pre))
  end.

Definition identifier (fuel : nat) : M Token.t :=
  c0 <- s_peek ;;
  r <- while (R := unit) fuel
         (fun text : string =>
            c <- s_next ;;
            if is_id_end c then
              p <- s_peek ;;
              ret (Continue (push_back text p))
            else ret (Break text))
         (string1 c0) ;;
  let text := match r with inl text => text | inr _ => EmptyString end in
  pre <- get_pre_state ;;
  match keywords_find text with
  | Some kw => ret (Token.mk kw (VInt 0) (Scanner.line pre) (Scanner.col pre))
  | None => ret (Token.mk IDENTIFIER (VString text) (Scanner.line pre) (Scanner.col pre))
  end.

Definition integer_lit (fuel : nat) : M Token.t :=
  c0 <- s_peek ;;
  r <- while (R := unit) fuel
         (fun text : string =>
            c <- s_next ;;
            if is_digit c then
              p <- s_peek ;;
              ret (Continue (push_back text p))
            else ret (Break text))
         (string1 c0) ;;
  let text := match r with inl text => text | inr _ => EmptyString end in
  c <- s_peek ;;
  if is_id_start c then
    error "Invalid number. Starts like a number, but ends in non-numeric characters."
  else
    match stol text with
    | stol_value v =>
        pre <- get_pre_state ;;
        ret (Token.mk INTEGER (VInt (wrap_int v)) (Scanner.line pre) (Scanner.col pre))
    | stol_out_of_range => error "Number exceeds maximum value"
    | stol_invalid_argument => error text
    end.

Fixpoint next_token (fuel : nat) : M Token.t :=
  match fuel with
  | O => fun _ => OutOfFuel
  | S fuel' =>
      skip_whitespace fuel ;;
      save_pre_state ;;
      c <- s_peek ;;
      if c == "*"%char then simply OP_MULTIPLY
      else if c == "%"%char then simply OP_MOD
      else if c == "+"%char then simply OP_ADD
      else if c == "-"%char then simply OP_SUBTRACT
      else if c == "{"%char then simply LEFTBRACE
      else if c == "}"%char then simply RIGHTBRACE
      else if c == "("%char then simply LEFTPAREN
      else if c == ")"%char then simply RIGHTPAREN
      else if c == ";"%char then simply SEMICOLON
      else if c == ","%char then simply COMMA
      else if c == "&"%char then expect "&"%char OP_AND
      else if c == "|"%char then expect "|"%char OP_OR
      else if c == "<"%char then follow "="%char OP_LESSEQUAL OP_LESS
      else if c == ">"%char then follow "="%char OP_GREATEREQUAL OP_GREATER
      else if c == "="%char then follow "="%char OP_EQUAL OP_ASSIGN
      else if c == "!"%char then follow "="%char OP_NOTEQUAL OP_NOT
      else if c == "/"%char then divide_or_comment fuel (next_token fuel')
      else if c == QUOTE then char_lit
      else if c == DQUOTE then string_lit fuel
      else if c == NUL then simple_token END_OF_INPUT
      else if is_id_start c then identifier fuel
      else if is_digit c then integer_lit fuel
      else error_unrecognized
  end.

(** The loop of [main]:
    [while (lexer.has_more()) tokens.push_back(lexer.next_token());] *)
Definition collect_tokens (fuel : nat) : M (list Token.t) :=
  r <- while (R := unit) fuel
         (fun tokens : list Token.t =>
            more <- has_more ;;
            if more then
              t <- next_token fuel ;;
              ret (Continue (tokens ++ [t])%list)
            else ret (Break tokens))
         [] ;;
  ret (match r with inl tokens => tokens | inr _ => [] end).

End Lexer_methods.

(** Fuel that no loop over [input] can use up: every turn moves the
    cursor and the cursor cannot pass the terminator by more than one. *)
Definition enough_fuel (input : string) : nat := S (S (String.length input)).

(** [Lexer lexer {input}; vector<Token> tokens; while ... ;] *)
Definition lex (input : string) : result (list Token.t) :=
  collect_tokens input (enough_fuel input) Lexer.init.

(** The lambda of [main]: the rendered table, when the run gets there. *)
Definition lex_and_list (input : string) : option string :=
  match lex input with
  | Ok tokens _ => Some (list_tokens tokens)
  | _ => None
  end.

(* ===================================================================== *)
(** * Vocabulary of the properties *)
(* ===================================================================== *)

Section Run_vocabulary.

Variable src : string.

Abbreviation len := (String.length src).
Abbreviation deref := (Scanner.deref src).

(** The offset of the live scanner. *)
Definition posL (L : Lexer.t) : nat := Scanner.pos (Lexer.s L).











End Run_vocabulary.


(** The source text of one single quote. *)
Definition lone_quote : string := string1 QUOTE.

(** [INT_MAX] of the 32-bit [int] stored in a token. *)
Definition INT_MAX : Z := (2 ^ 31 - 1)%Z.

(** The claim as the specification words it: an ERROR token, then an
    IDENTIFIER token with text x. *)
Definition error_then_identifier_x (r : result (list Token.t)) : Prop :=
  exists e i rest L,
    r = Ok (e :: i :: rest) L
    /\ Token.name e = ERROR
    /\ Token.name i = IDENTIFIER /\ Token.value i = VString "x".

(** The claim as the specification words it: the erroring call consumes
    the six characters and the run yields that one ERROR token. *)
Definition invalid_number_consumes_run (input : string) : Prop :=
  exists e L,
    next_token input (enough_fuel input) Lexer.init = Ok e L
    /\ Token.name e = ERROR
    /\ posL L = String.length input
    /\ exists L', lex input = Ok [e] L'.

(** The six characters quote, a, backslash, n, b, quote. *)
Definition quoted_a_nl_b : string :=
  String DQUOTE (String "a" (String BACKSLASH (String "n" (String "b" (String DQUOTE ""))))).

(** The three characters a, newline, b. *)
Definition a_newline_b : string := String "a" (String LF (String "b" "")).

Fixpoint dashes (n : nat) : string :=
  match n with
  | O => EmptyString
  | S n' => String "-" (dashes n')
  end.

(** The renderings of the tokens, one after the other. *)
Fixpoint render_all (tokens : list Token.t) : string :=
  match tokens with
  | [] => EmptyString
  | t :: rest => Token_to_string t ++ render_all rest
  end.

(** The table as the specification words it, with its separator line of
    40 dashes. *)
Definition spec_table (tokens : list Token.t) : string :=
  "Location  Token name        Value" ++ NL ++ dashes 40 ++ NL ++ render_all tokens.

(** The number of newlines in a text. *)
Fixpoint newlines (text : string) : nat :=
  match text with
  | EmptyString => 0
  | String c rest => (if Ascii.eqb c LF then 1 else 0) + newlines rest
  end.

(** The claim as worded: each token of the list is rendered as one
    line. *)
Definition one_line_per_token (tokens : list Token.t) : Prop :=
  Forall (fun t => newlines (Token_to_string t) = 1) tokens.

(** The claim as worded: the table ends with the line of the
    end-of-input token. *)
Definition ends_with_end_of_input_line (table : string) : Prop :=
  exists before : string, table = before ++ "End_of_input" ++ NL.

(** The text that [to_string (Token)] prints for the value of a token:
    the sanitized text of a STRING token, the value of an INTEGER,
    IDENTIFIER or ERROR token, nothing for the other names. *)
Definition printed_text (t : Token.t) : string :=
  match Token.name t with
  | STRING => sanitize (TokenVal_to_string (Token.value t))
  | INTEGER | IDENTIFIER | ERROR => TokenVal_to_string (Token.value t)
  | _ => EmptyString
  end.


(* ===================================================================== *)
(** * Vocabulary of the further properties *)
(* ===================================================================== *)

(** The state after [s.advance()] over the character [c] under the
    cursor. *)
Definition moved (L : Lexer.t) (c : ascii) : Lexer.t :=
  {| Lexer.s :=
       if Ascii.eqb c LF
       then {| Scanner.pos := S (Scanner.pos (Lexer.s L));
               Scanner.line := wrap_int (Scanner.line (Lexer.s L) + 1);
               Scanner.col := 1 |}
       else {| Scanner.pos := S (Scanner.pos (Lexer.s L));
               Scanner.line := Scanner.line (Lexer.s L);
               Scanner.col := wrap_int (Scanner.col (Lexer.s L) + 1) |};
     Lexer.pre_state := Lexer.pre_state L |}.

(** A run from [L] that returns, with a result and a state that
    satisfy [Q]: no fault, and fuel left. *)
Definition returns {A : Type} (m : M A) (L : Lexer.t)
           (Q : A -> Lexer.t -> Prop) : Prop :=
  match m L with
  | Ok a L' => Q a L'
  | Fault _ _ => False
  | OutOfFuel => False
  end.

(** Every character of [str] passes [test]. *)
Fixpoint all_chars (test : ascii -> bool) (str : string) : bool :=
  match str with
  | EmptyString => true
  | String c rest => test c && all_chars test rest
  end.

(** The token [identifier] returns for [text] at line 1, column 1. *)
Definition word_token (text : string) : Token.t :=
  match keywords_find text with
  | Some kw => Token.mk kw (VInt 0) 1 1
  | None => Token.mk IDENTIFIER (VString text) 1 1
  end.

(** The column after [k] characters of a line that starts at column 1:
    [++col] taken [k] times. *)
Definition col_after (k : nat) : Z := Nat.iter k (fun z => wrap_int (z + 1)) 1%Z.

(** The scanner after [k] characters of the first line. *)
Definition on_first_line (k : nat) : Scanner.t :=
  {| Scanner.pos := k; Scanner.line := 1; Scanner.col := col_after k |}.

(** The state in which the one token of a source of one line has been
    scanned from its first character to the terminator. *)
Definition at_terminator (src : string) : Lexer.t :=
  {| Lexer.s := on_first_line (String.length src); Lexer.pre_state := Scanner.init |}.

(** What [error] prints into the token it returns at the end of a
    source of one line whose token began at (1,1): the message, the
    position of the cursor and the whole source as the excerpt. *)
Definition diagnostic_at_terminator (msg src : string) : Token.t :=
  Token.mk ERROR
    (VString (msg ++ NL ++ spaces28 ++ "(" ++ string_of_Z 1 ++ ", "
                  ++ string_of_Z (Z.of_nat (String.length src) + 1) ++ "): " ++ src))
    1 1.

(** A character that a string literal can hold as it is or through an
    escape: any but the double quote and NUL. *)
Definition string_char (c : ascii) : bool :=
  negb (Ascii.eqb c DQUOTE) && negb (Ascii.eqb c NUL).

(** The string literal that denotes [s]: its sanitized text between
    double quotes. *)
Definition literal_of (s : string) : string := DQ ++ sanitize s ++ DQ.

(** The value a token carries fits its name: an [int] for INTEGER, a
    text for STRING, IDENTIFIER and ERROR, the [0] of [simple_token]
    for the names without a value; OP_NEGATE is no token at all. *)
Definition value_fits (name : TokenName) (value : TokenVal) : bool :=
  match name, value with
  | INTEGER, VInt n => ((- 2 ^ 31 <=? n) && (n <? 2 ^ 31))%Z
  | (STRING | IDENTIFIER | ERROR), VString _ => true
  | (INTEGER | STRING | IDENTIFIER | ERROR | OP_NEGATE), _ => false
  | _, VInt 0 => true
  | _, _ => false
  end.

(** The token is one the lexer builds: its value fits its name and its
    position is the one saved in [pre_state]. *)
Definition built_at (t : Token.t) (L : Lexer.t) : Prop :=
  value_fits (Token.name t) (Token.value t) = true
  /\ Token.line t = Scanner.line (Lexer.pre_state L)
  /\ Token.column t = Scanner.col (Lexer.pre_state L).

(** Whenever a run of [m] returns, the result and the state satisfy
    [Q]. *)
Definition ensures {A : Type} (m : M A) (Q : A -> Lexer.t -> Prop) : Prop :=
  forall L a L', m L = Ok a L' -> Q a L'.

(** No [/] of the source is followed by a [*]. *)
Fixpoint no_comment (str : string) : bool :=
  match str with
  | EmptyString => true
  | String a rest =>
      match rest with
      | EmptyString => true
      | String b _ =>
          negb (Ascii.eqb a "/"%char && Ascii.eqb b "*"%char) && no_comment rest
      end
  end.

Definition not_quote (c : ascii) : bool := negb (Ascii.eqb c QUOTE).

(** A character other than NUL, the terminator of the buffer. *)
Definition not_nul (c : ascii) : bool := negb (Ascii.eqb c NUL).

(** A character other than the newline. *)
Definition not_newline (c : ascii) : bool := negb (Ascii.eqb c LF).

(** The names that [to_string (Token)] hands to [to_cstring]: those of
    the [default] branch of its [switch]. *)
Definition printed_by_table (name : TokenName) : bool :=
  match name with
  | STRING | INTEGER | IDENTIFIER | ERROR | END_OF_INPUT => false
  | _ => true
  end.

(** The character literal that denotes [c]: the character, or its
    escape as [sanitize] writes it, between single quotes. *)
Definition char_literal_of (c : ascii) : string :=
  string1 QUOTE ++ sanitize (string1 c) ++ string1 QUOTE.

(** The [case] labels of the [switch] of [next_token]. *)
Definition case_labels : list ascii :=
  [ "*"; "%"; "+"; "-"; "{"; "}"; "("; ")"; ";"; ","; "&"; "|"; "<"; ">"; "="; "!";
    "/"; QUOTE; DQUOTE; NUL ]%char.

(** A character that reaches the last line of the [default] branch:
    no white space, no [case] label, no letter, underscore or digit. *)
Definition unrecognized (c : ascii) : bool :=
  negb (isspace c) && negb (existsb (Ascii.eqb c) case_labels)
  && negb (is_id_start c) && negb (is_digit c).

(** The state with the live scanner [k] characters into the first line
    and the scanner saved at the beginning of the source. *)
Definition first_line_state (k : nat) : Lexer.t :=
  {| Lexer.s := on_first_line k; Lexer.pre_state := Scanner.init |}.

(** The ERROR token that [error] returns for a token that began at
    (1,1) when the cursor is [String.length code] characters into the
    first line: the message, the position of the cursor, and the
    characters scanned so far as the excerpt. *)
Definition diagnostic (msg code : string) : Token.t :=
  Token.mk ERROR
    (VString (msg ++ NL ++ spaces28 ++ "(" ++ string_of_Z 1 ++ ", "
                  ++ string_of_Z (Z.of_nat (String.length code) + 1) ++ "): " ++ code))
    1 1.

(** The [case] labels that call [follow], with the names for the
    character followed by [=] and for the character alone. *)
Definition comparison_tokens : list (ascii * TokenName * TokenName) :=
  [ ("<"%char, OP_LESSEQUAL, OP_LESS); (">"%char, OP_GREATEREQUAL, OP_GREATER);
    ("="%char, OP_EQUAL, OP_ASSIGN); ("!"%char, OP_NOTEQUAL, OP_NOT) ].

(** The [case] labels that call [expect], with the name of the doubled
    character. *)
Definition doubled_tokens : list (ascii * TokenName) :=
  [ ("&"%char, OP_AND); ("|"%char, OP_OR) ].

(** The text goes on with the character [expected]. *)
Definition next_is (expected : ascii) (rest : string) : bool :=
  match rest with
  | String d _ => Ascii.eqb d expected
  | EmptyString => false
  end.

(** [advance()] called [n] times on a scanner of the buffer of
    [src]. *)
Fixpoint advance_n (src : string) (n : nat) (sc : Scanner.t) : option Scanner.t :=
  match n with
  | O => Some sc
  | S n' =>
      match Scanner.advance src sc with
      | Some sc' => advance_n src n' sc'
      | None => None
      end
  end.

(** The text is empty or ends with a newline: what follows it begins a
    line. *)
Definition ends_a_line (before : string) : Prop :=
  before = EmptyString \/ exists b : string, before = b ++ NL.

(** The text goes on with a character that passes [test]. *)
Definition begins_with (test : ascii -> bool) (rest : string) : bool :=
  match rest with
  | String c _ => test c
  | EmptyString => false
  end.

(** A character that the loop of [divide_or_comment] steps over
    without a second look: any but [*] and NUL. *)
Definition inside_comment (c : ascii) : bool :=
  negb (Ascii.eqb c "*"%char) && negb (Ascii.eqb c NUL).

(** The state with the live scanner [sc] and the saved scanner [pre]. *)
Definition state_at (sc pre : Scanner.t) : Lexer.t :=
  {| Lexer.s := sc; Lexer.pre_state := pre |}.

(** A character that [string_lit] appends as it is: any but the
    double quote, the backslash, the newline and NUL. *)
Definition plain_in_string (c : ascii) : bool :=
  negb (Ascii.eqb c DQUOTE) && negb (Ascii.eqb c BACKSLASH)
  && negb (Ascii.eqb c LF) && negb (Ascii.eqb c NUL).

(** The digit zero. *)
Definition is_zero (c : ascii) : bool := Ascii.eqb c "0"%char.

(** A numeral as [to_string] writes it: a run of digits that begins
    with zero only if it is the one digit zero. *)
Definition canonical_numeral (text : string) : bool :=
  match text with
  | EmptyString => false
  | String c rest =>
      is_digit c && all_chars is_digit rest
      && (negb (is_zero c) || (String.length rest =? 0))
  end.

Section Safety_vocabulary.

Variable src : string.

(** Between tokens: the cursor is in the buffer and its column is
    between 1 and its offset plus one. *)
Definition tracked (L : Lexer.t) : Prop :=
  posL L <= String.length src
  /\ (1 <= Scanner.col (Lexer.s L) <= Z.of_nat (posL L) + 1)%Z.

(** Within a token that stays on one line: moreover the column has
    moved from the saved one as far as the offset has. *)
Definition on_token_line (L : Lexer.t) : Prop :=
  tracked L
  /\ Scanner.pos (Lexer.pre_state L) <= posL L
  /\ (1 <= Scanner.col (Lexer.pre_state L))%Z
  /\ Scanner.col (Lexer.s L)
     = (Scanner.col (Lexer.pre_state L)
        + Z.of_nat (posL L - Scanner.pos (Lexer.pre_state L)))%Z.

End Safety_vocabulary.

(* ===================================================================== *)
(** * Reasoning about runs *)
(* ===================================================================== *)


Lemma get_none_iff (str : string) (n : nat) :
  String.get n str = None <-> String.length str <= n.
Proof.
  revert n; induction str as [|c rest IH]; intros [|n]; simpl;
    try (split; [intros; lia | reflexivity]).
  - split; [discriminate | lia].
  - rewrite IH; lia.
Qed.

Lemma string_length_app (a b : string) :
  String.length (a ++ b) = String.length a + String.length b.
Proof. induction a as [|c a IH]; simpl; [reflexivity | now rewrite IH]. Qed.

Lemma string_app_assoc (a b c : string) : (a ++ b) ++ c = a ++ (b ++ c).
Proof. induction a as [|x a IH]; simpl; [reflexivity | now rewrite IH]. Qed.

Lemma string_app_nil_r (a : string) : a ++ "" = a.
Proof. induction a as [|x a IH]; simpl; [reflexivity | now rewrite IH]. Qed.

(** ** [sanitize] *)

Lemma get_app_length (a : string) (c : ascii) (r : string) :
  String.get (String.length a) (a ++ String c r) = Some c.
Proof. induction a as [|x a IH]; simpl; [reflexivity | exact IH]. Qed.

Lemma substring_all (s : string) : substring 0 (String.length s) s = s.
Proof. induction s as [|x s IH]; simpl; [reflexivity | now rewrite IH]. Qed.

Lemma substring_app_prefix (a b : string) :
  substring 0 (String.length a) (a ++ b) = a.
Proof.
  induction a as [|x a IH]; simpl; [now destruct b | now rewrite IH].
Qed.

Lemma substring_app_suffix (a b : string) :
  substring (String.length a) (String.length b) (a ++ b) = b.
Proof. induction a as [|x a IH]; simpl; [apply substring_all | exact IH]. Qed.

Lemma string_replace_at (a : string) (c : ascii) (rest r : string) :
  string_replace (a ++ String c rest) (String.length a) 1 r = a ++ r ++ rest.
Proof.
  unfold string_replace. rewrite substring_app_prefix. f_equal. f_equal.
  rewrite string_length_app; simpl.
  replace (String.length a + S (String.length rest) - (String.length a + 1))
    with (String.length rest) by lia.
  replace (a ++ String c rest) with ((a ++ String c EmptyString) ++ rest)
    by (rewrite string_app_assoc; reflexivity).
  replace (String.length a + 1) with (String.length (a ++ String c EmptyString))
    by (rewrite string_length_app; reflexivity).
  apply substring_app_suffix.
Qed.

Lemma wrap_int_small (z : Z) : (- 2 ^ 31 <= z < 2 ^ 31)%Z -> wrap_int z = z.
Proof. intros H; unfold wrap_int. rewrite Z.mod_small by lia. lia. Qed.

(** With the first [length done] characters already escaped, the loop
    escapes the rest, as long as the index stays an [int]. *)
Lemma sanitize_loop_escape (rest done : string) (fuel : nat) :
  String.length rest < fuel ->
  (Z.of_nat (String.length (done ++ escape rest)) < 2 ^ 31)%Z ->
  sanitize_loop fuel (Z.of_nat (String.length done)) (done ++ rest) = done ++ escape rest.
Proof.
  revert done fuel; induction rest as [|c rest IH]; intros done [|fuel] Hfuel Hsize;
    try (simpl in Hfuel; lia).
  - cbn [sanitize_loop escape]. rewrite !string_app_nil_r.
    rewrite string_app_nil_r in Hsize.
    unfold SIZE_MOD. rewrite Z.mod_small by lia. rewrite Z.ltb_irrefl. reflexivity.
  - simpl in Hfuel. cbn [sanitize_loop]. rewrite string_length_app in Hsize.
    assert (Hlen : 1 <= String.length (escape (String c rest))).
    { cbn [escape]. destruct (Ascii.eqb c LF); [|destruct (Ascii.eqb c BACKSLASH)];
        cbn [String.length]; lia. }
    unfold SIZE_MOD. rewrite Z.mod_small by lia. rewrite Nat2Z.id.
    rewrite string_length_app; cbn [String.length].
    destruct (Z.ltb_spec (Z.of_nat (String.length done))
                (Z.of_nat (String.length done + S (String.length rest)))) as [_|Hge]; [|lia].
    rewrite get_app_length. cbn [escape] in Hsize |- *.
    destruct (Ascii.eqb c LF); [|destruct (Ascii.eqb c BACKSLASH)];
      cbn [String.length] in Hsize.
    + rewrite string_replace_at, <- string_app_assoc.
      rewrite (wrap_int_small (Z.of_nat (String.length done) + 1)) by lia.
      rewrite wrap_int_small by lia.
      replace (Z.of_nat (String.length done) + 1 + 1)%Z
        with (Z.of_nat (String.length (done ++ String BACKSLASH (String "n" EmptyString))))
        by (rewrite string_length_app; cbn [String.length]; lia).
      rewrite IH; [now rewrite string_app_assoc | lia |].
      rewrite !string_length_app; cbn [String.length]. lia.
    + rewrite string_replace_at, <- string_app_assoc.
      rewrite (wrap_int_small (Z.of_nat (String.length done) + 1)) by lia.
      rewrite wrap_int_small by lia.
      replace (Z.of_nat (String.length done) + 1 + 1)%Z
        with (Z.of_nat (String.length
                          (done ++ String BACKSLASH (String BACKSLASH EmptyString))))
        by (rewrite string_length_app; cbn [String.length]; lia).
      rewrite IH; [now rewrite string_app_assoc | lia |].
      rewrite !string_length_app; cbn [String.length]. lia.
    + replace (done ++ String c rest) with ((done ++ String c EmptyString) ++ rest)
        by (rewrite string_app_assoc; reflexivity).
      rewrite wrap_int_small by lia.
      replace (Z.of_nat (String.length done) + 1)%Z
        with (Z.of_nat (String.length (done ++ String c EmptyString)))
        by (rewrite string_length_app; cbn [String.length]; lia).
      rewrite IH; [now rewrite string_app_assoc | lia |].
      rewrite !string_length_app; cbn [String.length]. lia.
Qed.

(** While the escaped text is shorter than [2 ^ 31] characters the
    index of [sanitize] does not wrap, and the loop escapes every
    character of its argument. *)
Lemma sanitize_escape (s : string) :
  (Z.of_nat (String.length (escape s)) < 2 ^ 31)%Z -> sanitize s = escape s.
Proof.
  intros Hsize. unfold sanitize.
  apply (sanitize_loop_escape s EmptyString); [lia | exact Hsize].
Qed.

Section Runs.

Variable src : string.

Abbreviation len := (String.length src).
Abbreviation deref := (Scanner.deref src).

Lemma deref_some (p : nat) (c : ascii) : deref p = Some c -> p <= len.
Proof.
  unfold Scanner.deref; destruct (String.get p src) eqn:E.
  - intros _. destruct (Nat.le_gt_cases p len) as [H|H]; [exact H|].
    assert (String.get p src = None) by (apply get_none_iff; lia). congruence.
  - destruct (Nat.eqb_spec p len); [lia | discriminate].
Qed.

Lemma deref_none (p : nat) : deref p = None -> len < p.
Proof.
  unfold Scanner.deref; destruct (String.get p src) eqn:E; [discriminate|].
  apply get_none_iff in E. destruct (Nat.eqb_spec p len); [discriminate | lia].
Qed.

Lemma deref_at_len : deref len = Some NUL.
Proof.
  unfold Scanner.deref.
  assert (E : String.get len src = None) by (apply get_none_iff; lia).
  now rewrite E, Nat.eqb_refl.
Qed.

Lemma deref_not_nul (p : nat) (c : ascii) :
  deref p = Some c -> c <> NUL -> p < len.
Proof.
  intros E Hc. assert (Hle := deref_some _ _ E).
  destruct (Nat.eq_dec p len) as [->|]; [|lia].
  rewrite deref_at_len in E; congruence.
Qed.












(** ** The member functions *)
























(** ** The loop of [main] *)


End Runs.

(* ===================================================================== *)
(** * Properties of the specification *)
(* ===================================================================== *)



(** ** Reads past the terminator *)

(** C2. On the input made of a lone single quote, [char_lit] calls
    [s.next()] a second time with the cursor on the sentinel: the cursor
    moves to offset 2, one past the terminating NUL at offset 1, and the
    [peek] there is a read outside the buffer.  The property that no
    read goes past the sentinel fails on this input.  [string_lit] does
    stop at the sentinel: a lone double quote gives its end-of-file
    error with the cursor left on the NUL. *)
Theorem char_lit_reads_past_sentinel :
  String.length lone_quote = 1
  /\ lex lone_quote
     = Fault OutOfBounds
         {| Lexer.s := {| Scanner.pos := 2; Scanner.line := 1; Scanner.col := 3 |};
            Lexer.pre_state := Scanner.init |}
  /\ Scanner.peek lone_quote {| Scanner.pos := 2; Scanner.line := 1; Scanner.col := 3 |}
     = None
  /\ lex DQ
     = Ok [ Token.mk ERROR
              (VString ("End-of-file while scanning string literal."
                        ++ " Closing string character not found." ++ NL
                        ++ "                            (1, 2): " ++ DQ)) 1 1 ]
          {| Lexer.s := {| Scanner.pos := 1; Scanner.line := 1; Scanner.col := 2 |};
             Lexer.pre_state := Scanner.init |}.
Proof. repeat split; reflexivity. Qed.

(** ** Integer literals *)

(** C3. The digit run 2147483648 is one more than [INT_MAX], yet
    [integer_lit] returns an INTEGER token, not the "exceeds maximum
    value" error: [stol] accepts every value up to [LONG_MAX] and the
    assignment to [int n] wraps it, so the stored value is -2147483648
    and differs from the base-10 value of the digits.  The error is
    only produced from [LONG_MAX + 1] on. *)
Theorem integer_lit_wraps_beyond_int :
  decimal_value 0 "2147483648" = (INT_MAX + 1)%Z
  /\ lex "2147483648"
     = Ok [ Token.mk INTEGER (VInt (-2147483648)) 1 1 ]
          {| Lexer.s := {| Scanner.pos := 10; Scanner.line := 1; Scanner.col := 11 |};
             Lexer.pre_state := Scanner.init |}
  /\ decimal_value 0 "9223372036854775808" = (LONG_MAX + 1)%Z
  /\ lex "9223372036854775808"
     = Ok [ Token.mk ERROR
              (VString ("Number exceeds maximum value" ++ NL
                        ++ "                            (1, 20): 9223372036854775808")) 1 1 ]
          {| Lexer.s := {| Scanner.pos := 19; Scanner.line := 1; Scanner.col := 20 |};
             Lexer.pre_state := Scanner.init |}.
Proof. repeat split; reflexivity. Qed.

(** ** A single ampersand *)

(** On [&x] no IDENTIFIER token follows the ERROR token. *)
Lemma amp_x_no_identifier : ~ error_then_identifier_x (lex "&x").
Proof.
  intros (e & i & rest & L & E & _). vm_compute in E. discriminate E.
Qed.

(** C4 (amended). Lexing [&x] produces exactly one token, the ERROR
    token at (1,1) whose message names the [x] as the unrecognized
    character and quotes the [&]; the erroring call also consumes the
    [x] (the cursor ends at offset 2, the sentinel), so no IDENTIFIER
    follows. *)
Theorem amp_x_single_error :
  lex "&x"
  = Ok [ Token.mk ERROR
           (VString ("Unrecognized character 'x'" ++ NL
                     ++ "                            (1, 2): &")) 1 1 ]
       {| Lexer.s := {| Scanner.pos := 2; Scanner.line := 1; Scanner.col := 3 |};
          Lexer.pre_state := Scanner.init |}.
Proof. reflexivity. Qed.

(** ** Digits followed by letters *)

(** On [123abc] the erroring call stops at offset 4, not 6. *)
Lemma invalid_number_leaves_letters : ~ invalid_number_consumes_run "123abc".
Proof.
  intros (e & L & E & _ & Hpos & _). vm_compute in E.
  injection E as _ EL. subst L. vm_compute in Hpos. discriminate Hpos.
Qed.

(** C5 (amended). On [123abc] the first call of [next_token] returns
    the one ERROR token ("invalid number", quoting [123]) at (1,1) and
    leaves the cursor at offset 4: it has consumed the digits and one
    letter.  Scanning resumes at [b]; the run yields that ERROR token
    and then IDENTIFIER [bc] at (1,5). *)
Theorem invalid_number_consumes_one_letter :
  let e := Token.mk ERROR
             (VString ("Invalid number. Starts like a number, but ends in non-numeric characters."
                       ++ NL ++ "                            (1, 4): 123")) 1 1 in
  next_token "123abc" (enough_fuel "123abc") Lexer.init
  = Ok e {| Lexer.s := {| Scanner.pos := 4; Scanner.line := 1; Scanner.col := 5 |};
            Lexer.pre_state := Scanner.init |}
  /\ lex "123abc"
     = Ok [ e; Token.mk IDENTIFIER (VString "bc") 1 5 ]
          {| Lexer.s := {| Scanner.pos := 6; Scanner.line := 1; Scanner.col := 7 |};
             Lexer.pre_state := {| Scanner.pos := 4; Scanner.line := 1; Scanner.col := 5 |} |}.
Proof. split; reflexivity. Qed.

(** ** A small expression *)

(** C6. On [1 + 2;] the loop of [main] collects INTEGER 1 at (1,1),
    OP_ADD at (1,3), INTEGER 2 at (1,5) and SEMICOLON at (1,6) and stops
    there, because [has_more] is false once the cursor is on the
    sentinel: the END_OF_INPUT token at (1,7) is what one more call of
    [next_token] would return, but the loop never makes that call.
    With a newline after the semicolon the same loop does collect the
    end-of-input token, at (2,1). *)
Theorem one_plus_two_omits_end_of_input :
  let final :=
    {| Lexer.s := {| Scanner.pos := 6; Scanner.line := 1; Scanner.col := 7 |};
       Lexer.pre_state := {| Scanner.pos := 5; Scanner.line := 1; Scanner.col := 6 |} |} in
  lex "1 + 2;"
  = Ok [ Token.mk INTEGER (VInt 1) 1 1;
         Token.mk OP_ADD (VInt 0) 1 3;
         Token.mk INTEGER (VInt 2) 1 5;
         Token.mk SEMICOLON (VInt 0) 1 6 ] final
  /\ has_more "1 + 2;" final = Ok false final
  /\ next_token "1 + 2;" (enough_fuel "1 + 2;") final
     = Ok (Token.mk END_OF_INPUT (VInt 0) 1 7)
          {| Lexer.s := Lexer.s final; Lexer.pre_state := Lexer.s final |}
  /\ lex ("1 + 2;" ++ NL)
     = Ok [ Token.mk INTEGER (VInt 1) 1 1;
            Token.mk OP_ADD (VInt 0) 1 3;
            Token.mk INTEGER (VInt 2) 1 5;
            Token.mk SEMICOLON (VInt 0) 1 6;
            Token.mk END_OF_INPUT (VInt 0) 2 1 ]
          {| Lexer.s := {| Scanner.pos := 7; Scanner.line := 2; Scanner.col := 1 |};
             Lexer.pre_state := {| Scanner.pos := 7; Scanner.line := 2; Scanner.col := 1 |} |}.
Proof. repeat split; reflexivity. Qed.

(** ** Unterminated comments *)

(** C7. [/* unterminated] yields the one ERROR token that reports the
    end of file in a comment.  But when the last character before the
    end of input is a star, as in [/* *], the test [s.next() == '/']
    leaves the cursor on the sentinel and the loop condition's
    [s.next()] then steps over it: the run stops at a read outside the
    buffer instead of returning the error.  And when the comment starts
    at a column greater than the one the cursor ends in, the excerpt
    length is negative in [size_t] and [std::string] throws. *)
Theorem unterminated_comment_runs :
  lex "/* unterminated"
  = Ok [ Token.mk ERROR
           (VString ("End-of-file in comment. Closing comment characters not found."
                     ++ NL ++ "                            (1, 16): /* unterminated")) 1 1 ]
       {| Lexer.s := {| Scanner.pos := 15; Scanner.line := 1; Scanner.col := 16 |};
          Lexer.pre_state := Scanner.init |}
  /\ lex "/* *"
     = Fault OutOfBounds
         {| Lexer.s := {| Scanner.pos := 5; Scanner.line := 1; Scanner.col := 6 |};
            Lexer.pre_state := Scanner.init |}
  /\ lex (" /*" ++ NL)
     = Fault LengthError
         {| Lexer.s := {| Scanner.pos := 4; Scanner.line := 2; Scanner.col := 1 |};
            Lexer.pre_state := {| Scanner.pos := 1; Scanner.line := 1; Scanner.col := 2 |} |}.
Proof. repeat split; reflexivity. Qed.

(** ** String escapes *)

(** C8. The six-character source lexes to the single STRING token whose
    value is a, newline, b; [sanitize] turns that value back into the
    four characters a, backslash, n, b, and the rendered line shows them
    between the quotes. *)
Theorem string_escape_round_trip :
  String.length quoted_a_nl_b = 6
  /\ lex quoted_a_nl_b
     = Ok [ Token.mk STRING (VString a_newline_b) 1 1 ]
          {| Lexer.s := {| Scanner.pos := 6; Scanner.line := 1; Scanner.col := 7 |};
             Lexer.pre_state := Scanner.init |}
  /\ sanitize a_newline_b = String "a" (String BACKSLASH (String "n" (String "b" "")))
  /\ String DQUOTE (sanitize a_newline_b ++ DQ) = quoted_a_nl_b
  /\ Token_to_string (Token.mk STRING (VString a_newline_b) 1 1)
     = " 1    1   String            " ++ quoted_a_nl_b ++ NL
  /\ lex_and_list quoted_a_nl_b
     = Some (table_header ++ " 1    1   String            " ++ quoted_a_nl_b ++ NL).
Proof. repeat split; reflexivity. Qed.

(** ** The rendered table *)

Lemma fold_left_render (tokens : list Token.t) (acc : string) :
  fold_left (fun a t => a ++ Token_to_string t) tokens acc = acc ++ render_all tokens.
Proof.
  revert acc; induction tokens as [|t rest IH]; intros acc; simpl.
  - symmetry; apply string_app_nil_r.
  - rewrite IH; apply string_app_assoc.
Qed.

Lemma newlines_app (a b : string) : newlines (a ++ b) = newlines a + newlines b.
Proof.
  induction a as [|c a IH]; cbn [newlines append]; [reflexivity|]. rewrite IH. lia.
Qed.

Lemma newlines_escape (s : string) : newlines (escape s) = 0.
Proof.
  induction s as [|c s IH]; [reflexivity|]. cbn [escape].
  destruct (Ascii.eqb_spec c LF) as [->|Hlf]; [exact IH|].
  destruct (Ascii.eqb_spec c BACKSLASH) as [->|Hbs]; [exact IH|].
  cbn [newlines]. apply Ascii.eqb_neq in Hlf. rewrite Hlf, IH. reflexivity.
Qed.

Lemma newlines_string_of_uint (d : Decimal.uint) :
  newlines (NilEmpty.string_of_uint d) = 0.
Proof. induction d; cbn [NilEmpty.string_of_uint newlines]; auto. Qed.

(** A decimal numeral holds no newline. *)
Lemma newlines_string_of_Z (z : Z) : newlines (string_of_Z z) = 0.
Proof.
  unfold string_of_Z.
  destruct (Z.to_int z) as [d|d]; cbn [NilZero.string_of_int NilZero.string_of_uint];
    destruct d; try reflexivity; cbn [newlines];
    apply (newlines_string_of_uint (_ d)) || apply newlines_string_of_uint.
Qed.

Lemma newlines_setw2 (z : Z) : newlines (setw2 z) = 0.
Proof.
  unfold setw2. destruct (String.length (string_of_Z z) <? 2);
    [cbn [append newlines] |]; apply newlines_string_of_Z.
Qed.

(** What [to_string (Token)] puts before the label. *)
Lemma newlines_position (l c : Z) :
  newlines (setw2 l ++ "   " ++ setw2 c ++ "   ") = 0.
Proof. rewrite !newlines_app, !newlines_setw2. reflexivity. Qed.

Lemma suffix_of_app (before suffix : string) :
  substring (String.length (before ++ suffix) - String.length suffix)
    (String.length suffix) (before ++ suffix) = suffix.
Proof.
  rewrite string_length_app.
  replace (String.length before + String.length suffix - String.length suffix)
    with (String.length before) by lia.
  apply substring_app_suffix.
Qed.

(** Counts the newlines of the literals at hand. *)
Ltac count_literals :=
  repeat match goal with
    | |- context [newlines (String ?a ?r)] =>
        let v := eval vm_compute in (newlines (String a r)) in
        change (newlines (String a r)) with v
    end;
  change (newlines NL) with 1; change (newlines DQ) with 0;
  change (newlines EmptyString) with 0.

(** The table that the program prints differs from the worded one in
    each of the three parts.  For the empty source the separator is two
    dashes shorter than worded; the ERROR token of the source [#] takes
    two lines, not one; and the table of the source [x] ends with the
    line of its IDENTIFIER token, not with an end-of-input line. *)
Lemma table_is_not_as_specified :
  (exists L : Lexer.t, lex "" = Ok [] L /\ list_tokens [] <> spec_table [])
  /\ (exists (e : Token.t) (L : Lexer.t),
         lex "#" = Ok [e] L /\ Token.name e = ERROR
         /\ newlines (Token_to_string e) = 2 /\ ~ one_line_per_token [e])
  /\ (exists (t : Token.t) (L : Lexer.t),
         lex "x" = Ok [t] L /\ ~ ends_with_end_of_input_line (list_tokens [t])).
Proof.
  split; [|split].
  - eexists. split; [reflexivity|].
    intros E. apply (f_equal String.length) in E. vm_compute in E. discriminate E.
  - eexists. eexists. split; [vm_compute; reflexivity|].
    split; [reflexivity|]. split; [vm_compute; reflexivity|].
    intros H. inversion H as [|t l H1 H2]. vm_compute in H1. discriminate H1.
  - eexists. eexists. split; [vm_compute; reflexivity|].
    intros (before & E).
    pose proof (suffix_of_app before ("End_of_input" ++ NL)) as Hsuf.
    rewrite <- E in Hsuf. vm_compute in Hsuf. discriminate Hsuf.
Qed.

(** C9 (amended). For every token list the rendered table is the header
    line [Location  Token name        Value], a separator line of 38
    dashes, and then the rendering of each token in the order of the
    list.  Each rendering begins with the line and the column of the
    token and ends with a newline, and it holds one newline more than
    the text it prints for the value.  That text has no newline when
    the value is an [int], and none for a STRING token whose escaped
    text is shorter than [2 ^ 31] characters; so the table has two
    lines, one line per token, and one more line for every newline in
    a printed text.  Every ERROR token that [error] builds has such a
    newline: it takes at least two lines.  A list that ends with the
    end-of-input token ends with that token's line; [list_tokens] adds
    none of its own. *)
Theorem list_tokens_layout :
  (forall tokens : list Token.t,
     list_tokens tokens
     = "Location  Token name        Value" ++ NL ++ dashes 38 ++ NL ++ render_all tokens)
  /\ (forall t : Token.t,
        exists body : string,
          Token_to_string t
          = (setw2 (Token.line t) ++ "   " ++ setw2 (Token.column t) ++ "   ")
              ++ body ++ NL)
  /\ (forall t : Token.t,
        newlines (Token_to_string t) = 1 + newlines (printed_text t))
  /\ (forall (name : TokenName) (n l c : Z),
        name <> STRING ->
        newlines (printed_text (Token.mk name (VInt n) l c)) = 0)
  /\ (forall (text : string) (l c : Z),
        (Z.of_nat (String.length (escape text)) < 2 ^ 31)%Z ->
        newlines (printed_text (Token.mk STRING (VString text) l c)) = 0)
  /\ (forall tokens : list Token.t,
        newlines (list_tokens tokens)
        = 2 + List.length tokens
          + list_sum (map (fun t => newlines (printed_text t)) tokens))
  /\ (forall (src msg : string) (L L' : Lexer.t) (t : Token.t),
        error src msg L = Ok t L' ->
        Token.name t = ERROR /\ 2 <= newlines (Token_to_string t))
  /\ (forall (init : list Token.t) (v : TokenVal) (l c : Z),
        list_tokens (init ++ [Token.mk END_OF_INPUT v l c])
        = list_tokens init ++ setw2 l ++ "   " ++ setw2 c ++ "   " ++ "End_of_input" ++ NL).
Proof.
  assert (Hlayout : forall tokens : list Token.t,
             list_tokens tokens
             = "Location  Token name        Value" ++ NL ++ dashes 38 ++ NL
                 ++ render_all tokens).
  { intros tokens; unfold list_tokens. rewrite fold_left_render.
    unfold table_header; simpl dashes.
    now rewrite !string_app_assoc. }
  assert (Hlines : forall t : Token.t,
             newlines (Token_to_string t) = 1 + newlines (printed_text t)).
  { intros [name value l c]. unfold Token_to_string, printed_text.
    cbn [Token.name Token.line Token.column Token.value].
    cbv zeta. destruct name; cbn [to_cstring];
      rewrite newlines_app, newlines_position, ?newlines_app; count_literals; lia. }
  split; [exact Hlayout|]. split; [|split; [exact Hlines|]].
  - intros [name value l c]. unfold Token_to_string.
    cbn [Token.name Token.line Token.column Token.value].
    destruct name; cbn [to_cstring];
      lazymatch goal with
      | |- exists body, ?o ++ ?a ++ ?q ++ ?s ++ ?q' ++ NL = _ =>
          exists (a ++ q ++ s ++ q'); now rewrite !string_app_assoc
      | |- exists body, ?o ++ ?a ++ ?b ++ NL = _ =>
          exists (a ++ b); now rewrite !string_app_assoc
      | |- exists body, ?o ++ ?a ++ NL = _ => exists a; reflexivity
      end.
  - split; [|split; [|split; [|split]]].
    + intros name n l c Hname. unfold printed_text.
      cbn [Token.name Token.value TokenVal_to_string].
      destruct name; try reflexivity; try apply newlines_string_of_Z.
      congruence.
    + intros text l c Hsize. unfold printed_text.
      cbn [Token.name Token.value TokenVal_to_string].
      rewrite (sanitize_escape _ Hsize). apply newlines_escape.
    + intros tokens. rewrite Hlayout, !newlines_app.
      change (newlines "Location  Token name        Value") with 0.
      change (newlines NL) with 1. change (newlines (dashes 38)) with 0.
      unfold list_sum.
      induction tokens as [|t tokens IH]; [reflexivity|].
      cbn [render_all List.length map fold_right]. rewrite newlines_app, Hlines. lia.
    + intros src msg L L' t H. unfold error, bind in H.
      destruct (excerpt src L) as [code L1| |]; try discriminate H.
      unfold get_s in H.
      destruct (s_peek src L1) as [c L2| |]; try discriminate H.
      destruct ((if negb (c == NUL) then s_advance src else ret tt) L2) as [u L3| |];
        try discriminate H.
      unfold get_pre_state, ret in H. inversion H; subst t L'; clear H.
      split; [reflexivity|]. rewrite Hlines. unfold printed_text.
      cbn [Token.name Token.value TokenVal_to_string].
      rewrite newlines_app. cbn [newlines]. change (Ascii.eqb LF LF) with true.
      cbv iota. lia.
    + intros init v l c; unfold list_tokens. rewrite fold_left_app.
      cbn [fold_left]. unfold Token_to_string.
      cbn [Token.name Token.line Token.column].
      now rewrite !string_app_assoc.
Qed.

Lemma list_tokens_layout_witness :
  newlines (printed_text (Token.mk INTEGER (VInt 42) 1 1)) = 0
  /\ newlines (printed_text (Token.mk STRING (VString a_newline_b) 1 1)) = 0
  /\ exists (t : Token.t) (L' : Lexer.t),
       error "#" "Unrecognized character '#'" Lexer.init = Ok t L'
       /\ Token.name t = ERROR /\ 2 <= newlines (Token_to_string t).
Proof.
  destruct list_tokens_layout as (_ & _ & _ & Hint & Hstring & _ & Herror & _).
  split; [|split].
  - apply Hint. discriminate.
  - apply Hstring. vm_compute. reflexivity.
  - eexists. eexists. split; [vm_compute; reflexivity|].
    eapply (Herror "#" "Unrecognized character '#'" Lexer.init).
    vm_compute. reflexivity.
Defined.

(** ** When the end-of-input token is collected *)





(* ===================================================================== *)
(** * Further properties of the code *)
(* ===================================================================== *)

(** ** Runs that return *)

Section Returns.

Variable src : string.

Abbreviation len := (String.length src).
Abbreviation deref := (Scanner.deref src).

Lemma returns_ok {A} (m : M A) L (Q : A -> Lexer.t -> Prop) :
  returns m L Q -> exists a L', m L = Ok a L' /\ Q a L'.
Proof. unfold returns; destruct (m L) as [a L'| |]; [eauto | tauto | tauto]. Qed.

Lemma returns_ret {A} (a : A) L (Q : A -> Lexer.t -> Prop) :
  Q a L -> returns (ret a) L Q.
Proof. exact (fun H => H). Qed.

Lemma returns_bind {A B} (m : M A) (k : A -> M B) L (Q : B -> Lexer.t -> Prop) :
  returns m L (fun a L1 => returns (k a) L1 Q) -> returns (bind m k) L Q.
Proof. unfold returns, bind; destruct (m L); auto. Qed.

Lemma returns_weaken {A} (m : M A) L (Q Q' : A -> Lexer.t -> Prop) :
  returns m L Q -> (forall a L', Q a L' -> Q' a L') -> returns m L Q'.
Proof. unfold returns; destruct (m L); auto. Qed.

Lemma deref_total (p : nat) : p <= len -> exists c, deref p = Some c.
Proof.
  intros Hp. destruct (deref p) as [c|] eqn:E; [eauto|].
  apply deref_none in E; lia.
Qed.

Lemma returns_s_peek L (Q : ascii -> Lexer.t -> Prop) :
  posL L <= len ->
  (forall c, deref (posL L) = Some c -> Q c L) ->
  returns (s_peek src) L Q.
Proof.
  intros Hp HQ. destruct (deref_total _ Hp) as (c & Hc).
  unfold returns, s_peek, Scanner.peek. unfold posL in Hc. rewrite Hc.
  apply HQ; exact Hc.
Qed.

Lemma returns_s_advance L (Q : unit -> Lexer.t -> Prop) :
  posL L <= len ->
  (forall c, deref (posL L) = Some c -> Q tt (moved L c)) ->
  returns (s_advance src) L Q.
Proof.
  intros Hp HQ. destruct (deref_total _ Hp) as (c & Hc).
  unfold returns, s_advance, Scanner.advance. unfold posL in Hc. rewrite Hc.
  specialize (HQ c Hc). unfold moved in HQ. destruct (Ascii.eqb c LF); exact HQ.
Qed.

Lemma posL_moved L c : posL (moved L c) = S (posL L).
Proof. unfold moved, posL; simpl; now destruct (Ascii.eqb c LF). Qed.

Lemma pre_state_moved L c : Lexer.pre_state (moved L c) = Lexer.pre_state L.
Proof. reflexivity. Qed.

Lemma returns_s_next L (Q : ascii -> Lexer.t -> Prop) :
  posL L < len ->
  (forall c d, deref (posL L) = Some c -> deref (S (posL L)) = Some d ->
               Q d (moved L c)) ->
  returns (s_next src) L Q.
Proof.
  intros Hp HQ; unfold s_next. apply returns_bind, returns_s_advance; [lia|].
  intros c Hc. apply returns_s_peek; rewrite posL_moved; [lia|].
  intros d Hd. now apply HQ.
Qed.

Lemma returns_get_s L (Q : Scanner.t -> Lexer.t -> Prop) :
  Q (Lexer.s L) L -> returns get_s L Q.
Proof. exact (fun H => H). Qed.

Lemma returns_get_pre_state L (Q : Scanner.t -> Lexer.t -> Prop) :
  Q (Lexer.pre_state L) L -> returns get_pre_state L Q.
Proof. exact (fun H => H). Qed.

Lemma returns_save_pre_state L (Q : unit -> Lexer.t -> Prop) :
  Q tt {| Lexer.s := Lexer.s L; Lexer.pre_state := Lexer.s L |} ->
  returns save_pre_state L Q.
Proof. exact (fun H => H). Qed.

(** A loop returns when every continuing turn moves the cursor, stays
    in the buffer, and the fuel covers the distance to its end. *)
Lemma returns_while {A R} (I : A -> Lexer.t -> Prop) (Q : A + R -> Lexer.t -> Prop)
      (body : A -> M (flow A R)) :
  (forall a L, I a L -> posL L <= len + 1) ->
  (forall a L, I a L ->
     returns (body a) L
       (fun f L' =>
          match f with
          | Continue a' => I a' L' /\ posL L < posL L'
          | Break a' => Q (inl a') L'
          | Return r => Q (inr r) L'
          end)) ->
  forall fuel a L, I a L -> len + 2 <= fuel + posL L -> returns (while fuel body a) L Q.
Proof.
  intros Hbound Hbody; induction fuel as [|fuel IH]; intros a L HI Hfuel.
  - apply Hbound in HI; lia.
  - simpl. apply returns_bind. eapply returns_weaken; [apply (Hbody a L HI)|].
    intros [a'|a'|r] L'; simpl.
    + intros [HI' Hlt]. apply IH; [exact HI' | lia].
    + apply returns_ret.
    + apply returns_ret.
Qed.

End Returns.

Ltac rstep :=
  lazymatch goal with
  | |- returns (bind _ _) _ _ => apply returns_bind
  | |- returns (ret _) _ _ => apply returns_ret
  | |- returns (s_peek _) _ _ => apply returns_s_peek; [| intros ? ?]
  | |- returns (s_advance _) _ _ => apply returns_s_advance; [| intros ? ?]
  | |- returns (s_next _) _ _ => apply returns_s_next; [| intros ? ? ? ?]
  | |- returns get_s _ _ => apply returns_get_s
  | |- returns get_pre_state _ _ => apply returns_get_pre_state
  | |- returns save_pre_state _ _ => apply returns_save_pre_state
  | |- returns (if ?b then _ else _) _ _ => destruct b eqn:?
  end.

(** ** A source that is one token *)

Lemma deref_app_here (a : string) (c : ascii) (r : string) :
  Scanner.deref (a ++ String c r) (String.length a) = Some c.
Proof. unfold Scanner.deref. now rewrite get_app_length. Qed.

Lemma get_app_next (a : string) (c : ascii) (r : string) :
  String.get (S (String.length a)) (a ++ String c r) = String.get 0 r.
Proof. induction a as [|x a IH]; simpl; [now destruct r | exact IH]. Qed.

(** The character after a given one: the next of the source, or the
    terminator. *)
Lemma deref_app_next (a : string) (c : ascii) (r : string) :
  Scanner.deref (a ++ String c r) (S (String.length a))
  = Some (match r with EmptyString => NUL | String d _ => d end).
Proof.
  unfold Scanner.deref. rewrite get_app_next. destruct r as [|d r]; simpl; [|reflexivity].
  rewrite string_length_app; simpl.
  replace (String.length a + 1) with (S (String.length a)) by lia.
  now rewrite Nat.eqb_refl.
Qed.

(** When the first call of [next_token] on a non-empty source ends on
    the terminator, the loop of [main] collects that one token. *)
Lemma lex_single (src : string) (t : Token.t) (L' : Lexer.t) :
  (exists c, Scanner.deref src 0 = Some c /\ c <> NUL) ->
  next_token src (enough_fuel src) Lexer.init = Ok t L' ->
  posL L' = String.length src ->
  lex src = Ok [t] L'.
Proof.
  intros (c & Hc & Hnul) Hcall Hend.
  unfold lex, collect_tokens, enough_fuel in *.
  unfold bind at 1. cbn [while]. unfold bind at 1. unfold bind at 1.
  unfold has_more at 1, bind at 1, s_peek at 1, Scanner.peek.
  change (Scanner.pos (Lexer.s Lexer.init)) with 0. rewrite Hc.
  unfold ret at 1.
  assert (E : (c == NUL) = false) by (now apply Ascii.eqb_neq).
  rewrite E. cbn [negb]. unfold bind at 1. rewrite Hcall. unfold ret at 1.
  unfold bind at 1. unfold bind at 1.
  unfold has_more at 1, bind at 1, s_peek at 1, Scanner.peek.
  unfold posL in Hend. rewrite Hend, (deref_at_len src).
  reflexivity.
Qed.

(** ** Words and numbers *)

Lemma col_after_small (k : nat) :
  (Z.of_nat k + 1 < 2 ^ 31)%Z -> col_after k = (Z.of_nat k + 1)%Z.
Proof.
  induction k as [|k IH]; intros Hk; [reflexivity|].
  change (col_after (S k)) with (wrap_int (col_after k + 1)).
  rewrite IH by lia.
  unfold wrap_int. rewrite Z.mod_small by lia. lia.
Qed.

(** There is no white space under the cursor: [skip_whitespace] leaves
    the state as it is. *)
Lemma skip_whitespace_stays (src : string) (fuel : nat) (L : Lexer.t) (c : ascii) :
  Scanner.deref src (posL L) = Some c -> isspace c = false ->
  skip_whitespace src (S fuel) L = Ok tt L.
Proof.
  intros Hc Hsp. unfold skip_whitespace. cbn [while].
  unfold bind, s_peek, Scanner.peek. unfold posL in Hc. rewrite Hc, Hsp. reflexivity.
Qed.

(** The loop of [identifier] and of [integer_lit] on a source that is
    one run of accepted characters: it collects the whole source and
    stops on the terminator. *)
Lemma take_while_source (accept : ascii -> bool) (c0 : ascii) (rest : string)
      (fuel : nat) :
  accept NUL = false -> accept LF = false -> Ascii.eqb c0 LF = false ->
  all_chars accept rest = true ->
  String.length (String c0 rest) + 2 <= fuel ->
  returns
    (while (R := unit) fuel
       (fun acc : string =>
          c <- s_next (String c0 rest) ;;
          if accept c then p <- s_peek (String c0 rest) ;; ret (Continue (push_back acc p))
          else ret (Break acc))
       (string1 c0)) Lexer.init
    (fun r L' => r = inl (String c0 rest) /\ L' = at_terminator (String c0 rest)).
Proof.
  intros Hnul Hlf Hc0 Hrest Hfuel.
  eapply (returns_while (String c0 rest)) with
    (I := fun acc L1 =>
            exists done c r,
              String c0 rest = done ++ String c r /\ acc = done ++ string1 c
              /\ L1 = {| Lexer.s := on_first_line (String.length done);
                         Lexer.pre_state := Scanner.init |}
              /\ Ascii.eqb c LF = false
              /\ all_chars accept r = true).
  - intros acc L1 (done & c & r & Ht & _ & -> & _). rewrite Ht, string_length_app.
    unfold posL; simpl; lia.
  - intros acc L1 (done & c & r & Ht & Hacc & -> & Hc & Hr).
    assert (Hlen : String.length (String c0 rest)
                   = String.length done + S (String.length r))
      by (rewrite Ht, string_length_app; reflexivity).
    set (L1 := {| Lexer.s := on_first_line (String.length done);
                  Lexer.pre_state := Scanner.init |}) in *.
    assert (Hp : posL L1 = String.length done) by reflexivity.
    rstep. rstep; [lia|].
    rewrite Hp, Ht, deref_app_here in H. inversion H; subst c1; clear H.
    rewrite Hp, Ht, deref_app_next in H0. inversion H0; subst d; clear H0.
    assert (Hmoved : moved L1 c
                     = {| Lexer.s := on_first_line (S (String.length done));
                          Lexer.pre_state := Scanner.init |}).
    { unfold moved. rewrite Hc. reflexivity. }
    rewrite Hmoved.
    destruct r as [|d r].
    + rewrite Hnul. rstep. split.
      * rewrite Hacc, Ht. reflexivity.
      * unfold at_terminator. rewrite Hlen. simpl String.length.
        replace (String.length done + 1) with (S (String.length done)) by lia.
        reflexivity.
    + simpl in Hr. apply andb_true_iff in Hr as (Hd & Hr). rewrite Hd.
      rstep. rstep.
      { unfold posL; cbn [Lexer.s on_first_line Scanner.pos]. rewrite Hlen; simpl; lia. }
      unfold posL in H; cbn [Lexer.s on_first_line Scanner.pos] in H.
      rewrite Ht, deref_app_next in H. inversion H; subst c1; clear H.
      rstep. split; [| unfold posL; simpl; lia].
      exists (done ++ string1 c), d, r. repeat split.
      * rewrite Ht, string_app_assoc. reflexivity.
      * rewrite Hacc. reflexivity.
      * rewrite string_length_app. simpl String.length.
        replace (String.length done + 1) with (S (String.length done)) by lia.
        reflexivity.
      * destruct (Ascii.eqb_spec d LF) as [->|]; [congruence | reflexivity].
      * exact Hr.
  - exists EmptyString, c0, rest. repeat split; assumption.
  - unfold posL; simpl; simpl in Hfuel; lia.
Qed.

Lemma returns_eq {A} (m : M A) (L : Lexer.t) (a : A) (L' : Lexer.t) :
  returns m L (fun b L1 => b = a /\ L1 = L') -> m L = Ok a L'.
Proof.
  unfold returns; destruct (m L) as [b L1| |]; try tauto.
  intros (-> & ->); reflexivity.
Qed.

Lemma returns_of_eq {A} (m : M A) (L : Lexer.t) (a : A) (L' : Lexer.t)
      (Q : A -> Lexer.t -> Prop) :
  m L = Ok a L' -> Q a L' -> returns m L Q.
Proof. unfold returns; intros ->; auto. Qed.

(** What the character classes exclude. *)
Lemma id_start_class (c : ascii) :
  is_id_start c = true ->
  isspace c = false /\ is_digit c = false /\ is_id_end c = true
  /\ Ascii.eqb c LF = false /\ Ascii.eqb c NUL = false.
Proof.
  destruct c as [[] [] [] [] [] [] [] []]; vm_compute; intros H;
    try discriminate H; repeat split.
Qed.

Lemma digit_class (c : ascii) :
  is_digit c = true ->
  isspace c = false /\ is_id_start c = false
  /\ Ascii.eqb c LF = false /\ Ascii.eqb c NUL = false.
Proof.
  destruct c as [[] [] [] [] [] [] [] []]; vm_compute; intros H;
    try discriminate H; repeat split.
Qed.

(** Walks down the [switch] of [next_token] for a character that the
    class fact [H] tells from every [case] label. *)
Ltac skip_cases H :=
  repeat match goal with
    | |- returns (if Ascii.eqb ?c ?x then _ else _) _ _ =>
        destruct (Ascii.eqb_spec c x) as [E|_];
        [ exfalso; rewrite E in H; vm_compute in H; discriminate H | ]
    end.

Lemma next_token_word (c0 : ascii) (rest : string) :
  is_id_start c0 = true -> all_chars is_id_end rest = true ->
  next_token (String c0 rest) (enough_fuel (String c0 rest)) Lexer.init
  = Ok (word_token (String c0 rest)) (at_terminator (String c0 rest)).
Proof.
  intros Hstart Hrest. destruct (id_start_class c0 Hstart) as (Hsp & Hdig & _ & Hlf & Hnul).
  apply returns_eq. unfold enough_fuel. cbn [next_token].
  rstep. eapply returns_of_eq;
    [apply (skip_whitespace_stays _ _ _ c0); [reflexivity | exact Hsp] |].
  rstep. rstep. rstep. rstep; [unfold posL; simpl; lia|].
  change (Some c0 = Some c) in H. inversion H; subst c; clear H.
  skip_cases Hstart. rewrite Hstart.
  unfold identifier. rstep. rstep; [unfold posL; simpl; lia|].
  change (Some c0 = Some c) in H. inversion H; subst c; clear H.
  rstep. eapply returns_weaken.
  { apply (take_while_source is_id_end c0 rest); try reflexivity; try assumption.
    simpl; lia. }
  intros r L' (-> & ->). cbv beta iota. rstep. rstep.
  unfold word_token. destruct (keywords_find (String c0 rest)); rstep; split; reflexivity.
Qed.

Lemma error_at_terminator (src msg : string) :
  (Z.of_nat (String.length src) + 1 < 2 ^ 31)%Z ->
  error src msg (at_terminator src)
  = Ok (diagnostic_at_terminator msg src) (at_terminator src).
Proof.
  intros Hlen. unfold error, excerpt, bind, get_s, get_pre_state, ret.
  cbn [at_terminator Lexer.s Lexer.pre_state on_first_line Scanner.col Scanner.pos
       Scanner.line Scanner.init].
  rewrite (col_after_small _ Hlen).
  assert (Hcount : (((Z.of_nat (String.length src) + 1) mod SIZE_MOD - 1 mod SIZE_MOD)
                    mod SIZE_MOD)%Z = Z.of_nat (String.length src)).
  { unfold SIZE_MOD. rewrite (Z.mod_small (Z.of_nat (String.length src) + 1)) by lia.
    rewrite (Z.mod_small 1) by lia. rewrite Z.mod_small by lia. lia. }
  rewrite Hcount.
  destruct (Z.ltb_spec string_max_size (Z.of_nat (String.length src))) as [Hbig|_];
    [unfold string_max_size in Hbig; lia|].
  unfold buffer. rewrite string_length_app.
  destruct (Z.ltb_spec (Z.of_nat (String.length src + String.length (string1 NUL)))
              (Z.of_nat 0 + Z.of_nat (String.length src))) as [Hout|_]; [lia|].
  rewrite Nat2Z.id, substring_app_prefix.
  unfold s_peek, Scanner.peek.
  cbn [at_terminator Lexer.s Lexer.pre_state on_first_line Scanner.col Scanner.pos
       Scanner.line Scanner.init].
  rewrite deref_at_len. rewrite Ascii.eqb_refl. cbn [negb].
  rewrite ?(col_after_small _ Hlen). reflexivity.
Qed.

Lemma decimal_value_nonneg (text : string) (acc : Z) :
  (0 <= acc)%Z -> (0 <= decimal_value acc text)%Z.
Proof.
  revert acc; induction text as [|c text IH]; intros acc Hacc;
    cbn [decimal_value]; [exact Hacc|].
  destruct (isdigit c); [|exact Hacc]. apply IH. unfold digit_value. lia.
Qed.

Lemma next_token_digits (c0 : ascii) (rest : string) :
  is_digit c0 = true -> all_chars is_digit rest = true ->
  let text := String c0 rest in
  let v := decimal_value 0 text in
  ((v <= LONG_MAX)%Z ->
   next_token text (enough_fuel text) Lexer.init
   = Ok (Token.mk INTEGER (VInt (wrap_int v)) 1 1) (at_terminator text))
  /\ ((LONG_MAX < v)%Z -> (Z.of_nat (String.length text) + 1 < 2 ^ 31)%Z ->
      next_token text (enough_fuel text) Lexer.init
      = Ok (diagnostic_at_terminator "Number exceeds maximum value" text)
           (at_terminator text)).
Proof.
  intros Hdig Hrest; cbv zeta.
  set (text := String c0 rest) in *. set (v := decimal_value 0 text).
  destruct (digit_class c0 Hdig) as (Hsp & Hid & Hlf & Hnul).
  assert (Hrun : forall (Q : Token.t -> Lexer.t -> Prop),
            returns
              (match stol text with
               | stol_value v =>
                   pre <- get_pre_state ;;
                   ret (Token.mk INTEGER (VInt (wrap_int v))
                          (Scanner.line pre) (Scanner.col pre))
               | stol_out_of_range => error text "Number exceeds maximum value"
               | stol_invalid_argument => error text text
               end) (at_terminator text) Q ->
            returns (next_token text (enough_fuel text)) Lexer.init Q).
  { intros Q HQ. unfold enough_fuel. cbn [next_token].
    rstep. eapply returns_of_eq;
      [apply (skip_whitespace_stays _ _ _ c0); [reflexivity | exact Hsp] |].
    rstep. rstep. rstep. rstep; [unfold posL; simpl; lia|].
    change (Some c0 = Some c) in H. inversion H; subst c; clear H.
    skip_cases Hdig. rewrite Hid, Hdig.
    unfold integer_lit. rstep. rstep; [unfold posL; simpl; lia|].
    change (Some c0 = Some c) in H. inversion H; subst c; clear H.
    rstep. eapply returns_weaken.
    { apply (take_while_source is_digit c0 rest); try reflexivity; try assumption.
      simpl; lia. }
    intros r L' (-> & ->). cbv beta iota. rstep. rstep; [unfold posL; simpl; lia|].
    unfold posL in H. cbn [at_terminator Lexer.s on_first_line Scanner.pos] in H.
    change (Scanner.deref text (String.length text) = Some c) in H.
    rewrite (deref_at_len text) in H. inversion H; subst c; clear H.
    change (is_id_start NUL) with false. cbv iota. exact HQ. }
  assert (Hstol : stol text = if (LONG_MAX <? v)%Z then stol_out_of_range else stol_value v).
  { unfold stol, text. unfold is_digit in Hdig. rewrite Hdig. reflexivity. }
  split.
  - intros Hv. apply returns_eq, Hrun. rewrite Hstol.
    destruct (Z.ltb_spec LONG_MAX v) as [Hgt|_]; [lia|].
    rstep. rstep. rstep. split; reflexivity.
  - intros Hv Hlen. apply returns_eq, Hrun. rewrite Hstol.
    destruct (Z.ltb_spec LONG_MAX v) as [_|Hle]; [|lia].
    eapply returns_of_eq; [apply error_at_terminator; exact Hlen|].
    split; reflexivity.
Qed.

(** ** String literals *)

Lemma escape_app (a b : string) : escape (a ++ b) = escape a ++ escape b.
Proof.
  induction a as [|c a IH]; simpl; [reflexivity|].
  destruct (Ascii.eqb c LF); [|destruct (Ascii.eqb c BACKSLASH)];
    simpl; now rewrite IH.
Qed.

Lemma get_app_right (a b : string) (j : nat) :
  String.get (String.length a + j) (a ++ b) = String.get j b.
Proof. induction a as [|x a IH]; simpl; [reflexivity | exact IH]. Qed.

Lemma deref_app_right (a b : string) (j : nat) (c : ascii) :
  String.get j b = Some c -> Scanner.deref (a ++ b) (String.length a + j) = Some c.
Proof. intros H. unfold Scanner.deref. now rewrite get_app_right, H. Qed.

Ltac rnext c d Hc Hd := apply returns_s_next; [| intros c d Hc Hd].
Ltac rpeek c Hc := apply returns_s_peek; [| intros c Hc].
Ltac radvance c Hc := apply returns_s_advance; [| intros c Hc].
Ltac at_pos := unfold posL; cbn [Lexer.s on_first_line Scanner.pos moved].
Ltac at_pos_in H := unfold posL in H; cbn [Lexer.s on_first_line Scanner.pos] in H.
Ltac same_char H1 H2 c :=
  rewrite H1 in H2; inversion H2; subst c; clear H2.

(** Changing the tested character for an equal one. *)
Ltac decide_cases :=
  repeat match goal with
    | |- returns (if Ascii.eqb ?c ?x then _ else _) _ _ =>
        first [ change (Ascii.eqb c x) with false | change (Ascii.eqb c x) with true ];
        cbv iota
    | |- returns (if negb (Ascii.eqb ?c ?x) then _ else _) _ _ =>
        first [ change (Ascii.eqb c x) with false | change (Ascii.eqb c x) with true ];
        cbn [negb]; cbv iota
    end.

Lemma moved_first_line (c : ascii) (j : nat) (pre : Scanner.t) :
  Ascii.eqb c LF = false ->
  moved {| Lexer.s := on_first_line j; Lexer.pre_state := pre |} c
  = {| Lexer.s := on_first_line (S j); Lexer.pre_state := pre |}.
Proof. intros Hc. unfold moved. rewrite Hc. reflexivity. Qed.

(** The loop of [string_lit] with the cursor at offset [k] of the first
    line, when the source goes on with the escaped form of [rest] and a
    double quote: it appends [rest] to the text and stops on the
    quote. *)
Lemma string_lit_loop (src : string) (pre : Scanner.t) :
  forall (rest done A : string) (c : ascii) (k fuel : nat),
    src = A ++ escape rest ++ DQ ->
    String.length A = S k ->
    Scanner.deref src k = Some c -> Ascii.eqb c LF = false ->
    all_chars string_char rest = true ->
    String.length (escape rest) + 1 <= fuel ->
    returns
      (while fuel
         (fun text : string =>
            c <- s_next src ;;
            if negb (c == DQUOTE) then
              p <- s_peek src ;;
              if p == BACKSLASH then
                e <- s_next src ;;
                if e == "n"%char then ret (Continue (push_back text LF))
                else if e == BACKSLASH then ret (Continue (push_back text BACKSLASH))
                else t <- error_unknown_escape src ;; ret (Return t)
              else if p == LF then
                t <- error src ("End-of-line while scanning string literal."
                                ++ " Closing string character not found before end-of-line.") ;;
                ret (Return t)
              else if p == NUL then
                t <- error src ("End-of-file while scanning string literal."
                                ++ " Closing string character not found.") ;;
                ret (Return t)
              else
                p' <- s_peek src ;;
                ret (Continue (push_back text p'))
            else ret (Break text))
         done)
      {| Lexer.s := on_first_line k; Lexer.pre_state := pre |}
      (fun r L' =>
         r = inl (done ++ rest)
         /\ L' = {| Lexer.s := on_first_line (k + String.length (escape rest) + 1);
                    Lexer.pre_state := pre |}).
Proof.
  induction rest as [|x rest IH]; intros done A c k fuel Hsrc HA Hc Hlf Hrest Hfuel;
    (destruct fuel as [|fuel]; [simpl in Hfuel; lia|]).
  - (* the closing quote *)
    assert (Hq : Scanner.deref src (S k) = Some DQUOTE).
    { rewrite Hsrc. replace (S k) with (String.length A + 0) by lia.
      apply deref_app_right. reflexivity. }
    assert (Hlen : S k < String.length src).
    { rewrite Hsrc, string_length_app, HA. simpl; lia. }
    cbn [while]. rstep. rstep. rnext c1 d Hc1 Hd; [at_pos; lia|].
    at_pos_in Hc1. at_pos_in Hd. same_char Hq Hd d. same_char Hc Hc1 c1.
    rewrite (moved_first_line c k pre Hlf). decide_cases. rstep. rstep.
    split; [now rewrite string_app_nil_r|].
    simpl. replace (k + 0 + 1) with (S k) by lia. reflexivity.
  - cbn [all_chars] in Hrest. apply andb_true_iff in Hrest as (Hx & Hrest).
    unfold string_char in Hx. apply andb_true_iff in Hx as (Hxq & Hxn).
    apply negb_true_iff in Hxq, Hxn.
    assert (Hdone : forall y, (done ++ string1 y) ++ rest = done ++ String y rest)
      by (intros y; rewrite string_app_assoc; reflexivity).
    cbn [escape] in Hsrc, Hfuel |- *.
    destruct (Ascii.eqb x LF) eqn:Exl; [|destruct (Ascii.eqb x BACKSLASH) eqn:Exb].
    + (* an escaped newline *)
      apply Ascii.eqb_eq in Exl; subst x.
      assert (H0 : Scanner.deref src (S k) = Some BACKSLASH).
      { rewrite Hsrc. replace (S k) with (String.length A + 0) by lia.
        apply deref_app_right. reflexivity. }
      assert (H1 : Scanner.deref src (S (S k)) = Some "n"%char).
      { rewrite Hsrc. replace (S (S k)) with (String.length A + 1) by lia.
        apply deref_app_right. reflexivity. }
      assert (Hlen : S (S k) < String.length src).
      { rewrite Hsrc, string_length_app, HA. simpl. rewrite string_length_app. simpl; lia. }
      cbn [while]. rstep. rstep. rnext c1 d Hc1 Hd; [at_pos; lia|].
      at_pos_in Hc1. at_pos_in Hd. same_char H0 Hd d. same_char Hc Hc1 c1.
      rewrite (moved_first_line c k pre Hlf). decide_cases.
      rstep. rpeek p Hp; [at_pos; lia|]. at_pos_in Hp. same_char H0 Hp p.
      decide_cases. rstep. rnext c2 e Hc2 He; [at_pos; lia|].
      at_pos_in Hc2. at_pos_in He. same_char H1 He e. same_char H0 Hc2 c2.
      rewrite (moved_first_line BACKSLASH (S k) pre eq_refl). decide_cases.
      rstep. cbv beta iota.
      eapply returns_weaken.
      { apply (IH (push_back done LF) (A ++ String BACKSLASH (String "n" EmptyString))
                  "n"%char (S (S k)) fuel).
        - rewrite Hsrc, string_app_assoc. reflexivity.
        - rewrite string_length_app, HA. simpl; lia.
        - exact H1.
        - reflexivity.
        - exact Hrest.
        - simpl in Hfuel. lia. }
      intros r L' (-> & ->). split.
      * unfold push_back. now rewrite Hdone.
      * simpl. f_equal. f_equal. lia.
    + (* an escaped backslash *)
      apply Ascii.eqb_eq in Exb; subst x.
      assert (H0 : Scanner.deref src (S k) = Some BACKSLASH).
      { rewrite Hsrc. replace (S k) with (String.length A + 0) by lia.
        apply deref_app_right. reflexivity. }
      assert (H1 : Scanner.deref src (S (S k)) = Some BACKSLASH).
      { rewrite Hsrc. replace (S (S k)) with (String.length A + 1) by lia.
        apply deref_app_right. reflexivity. }
      assert (Hlen : S (S k) < String.length src).
      { rewrite Hsrc, string_length_app, HA. simpl. rewrite string_length_app. simpl; lia. }
      cbn [while]. rstep. rstep. rnext c1 d Hc1 Hd; [at_pos; lia|].
      at_pos_in Hc1. at_pos_in Hd. same_char H0 Hd d. same_char Hc Hc1 c1.
      rewrite (moved_first_line c k pre Hlf). decide_cases.
      rstep. rpeek p Hp; [at_pos; lia|]. at_pos_in Hp. same_char H0 Hp p.
      decide_cases. rstep. rnext c2 e Hc2 He; [at_pos; lia|].
      at_pos_in Hc2. at_pos_in He. same_char H1 He e. same_char H0 Hc2 c2.
      rewrite (moved_first_line BACKSLASH (S k) pre eq_refl). decide_cases.
      rstep. cbv beta iota.
      eapply returns_weaken.
      { apply (IH (push_back done BACKSLASH)
                  (A ++ String BACKSLASH (String BACKSLASH EmptyString))
                  BACKSLASH (S (S k)) fuel).
        - rewrite Hsrc, string_app_assoc. reflexivity.
        - rewrite string_length_app, HA. simpl; lia.
        - exact H1.
        - reflexivity.
        - exact Hrest.
        - simpl in Hfuel. lia. }
      intros r L' (-> & ->). split.
      * unfold push_back. now rewrite Hdone.
      * simpl. f_equal. f_equal. lia.
    + (* a character that stands for itself *)
      assert (H0 : Scanner.deref src (S k) = Some x).
      { rewrite Hsrc. replace (S k) with (String.length A + 0) by lia.
        apply deref_app_right. reflexivity. }
      assert (Hlen : S k < String.length src).
      { rewrite Hsrc, string_length_app, HA. simpl. rewrite string_length_app. simpl; lia. }
      cbn [while]. rstep. rstep. rnext c1 d Hc1 Hd; [at_pos; lia|].
      at_pos_in Hc1. at_pos_in Hd. same_char H0 Hd d. same_char Hc Hc1 c1.
      rewrite (moved_first_line c k pre Hlf). rewrite Hxq. cbn [negb].
      rstep. rpeek p Hp; [at_pos; lia|]. at_pos_in Hp. same_char H0 Hp p.
      rewrite Exb, Exl, Hxn.
      rstep. rpeek p Hp; [at_pos; lia|]. at_pos_in Hp. same_char H0 Hp p.
      rstep. cbv beta iota.
      eapply returns_weaken.
      { apply (IH (push_back done x) (A ++ string1 x) x (S k) fuel).
        - rewrite Hsrc, string_app_assoc. reflexivity.
        - rewrite string_length_app, HA. simpl; lia.
        - exact H0.
        - exact Exl.
        - exact Hrest.
        - simpl in Hfuel. lia. }
      intros r L' (-> & ->). split.
      * unfold push_back. now rewrite Hdone.
      * simpl. f_equal. f_equal. lia.
Qed.

Lemma next_token_literal (s : string) :
  all_chars string_char s = true ->
  (Z.of_nat (String.length (escape s)) < 2 ^ 31)%Z ->
  next_token (literal_of s) (enough_fuel (literal_of s)) Lexer.init
  = Ok (Token.mk STRING (VString s) 1 1) (at_terminator (literal_of s)).
Proof.
  intros Hs Hsize. unfold literal_of. rewrite (sanitize_escape s Hsize).
  change (DQ ++ escape s ++ DQ) with (String DQUOTE (escape s ++ DQ)).
  set (src := String DQUOTE (escape s ++ DQ)).
  assert (Hlen : String.length src = S (String.length (escape s) + 1)).
  { unfold src. simpl. rewrite string_length_app. reflexivity. }
  apply returns_eq. unfold enough_fuel. cbn [next_token].
  rstep. eapply returns_of_eq;
    [apply (skip_whitespace_stays _ _ _ DQUOTE); reflexivity |].
  rstep. rstep. rstep. rpeek c Hc; [unfold posL; simpl; lia|].
  change (Some DQUOTE = Some c) in Hc. inversion Hc; subst c; clear Hc.
  decide_cases. unfold string_lit. rstep.
  eapply returns_weaken.
  { apply (string_lit_loop src Scanner.init s EmptyString DQ DQUOTE 0); try reflexivity.
    - exact Hs.
    - rewrite Hlen; lia. }
  intros r L' (-> & ->). cbv beta iota.
  assert (Hq : Scanner.deref src (String.length (escape s) + 1) = Some DQUOTE).
  { unfold src. change (String DQUOTE (escape s ++ DQ)) with (String DQUOTE (escape s) ++ DQ).
    replace (String.length (escape s) + 1)
      with (String.length (String DQUOTE (escape s)) + 0) by (simpl; lia).
    apply deref_app_right. reflexivity. }
  rstep. radvance c Hc; [at_pos; rewrite Hlen; lia|].
  at_pos_in Hc. cbn [Nat.add] in Hc. same_char Hq Hc c.
  rstep. rstep. rstep. split; [reflexivity|].
  rewrite (moved_first_line DQUOTE _ _ eq_refl). unfold at_terminator. rewrite Hlen.
  reflexivity.
Qed.

(** ** The three kinds of one-token sources *)

(** X1. Every identifier-shaped source (a letter or underscore, then
    letters, digits and underscores) is lexed as one token: the keyword
    token when it is one of the five keyword spellings, the IDENTIFIER
    token that carries the text otherwise. *)
Theorem lex_word :
  forall (c0 : ascii) (rest : string),
    is_id_start c0 = true -> all_chars is_id_end rest = true ->
    let text := String c0 rest in
    lex text = Ok [word_token text] (at_terminator text)
    /\ (word_token text = Token.mk IDENTIFIER (VString text) 1 1
        <-> ~ In text ["else"; "if"; "print"; "putc"; "while"])
    /\ (text = "else" -> word_token text = Token.mk KEYWORD_ELSE (VInt 0) 1 1)
    /\ (text = "if" -> word_token text = Token.mk KEYWORD_IF (VInt 0) 1 1)
    /\ (text = "print" -> word_token text = Token.mk KEYWORD_PRINT (VInt 0) 1 1)
    /\ (text = "putc" -> word_token text = Token.mk KEYWORD_PUTC (VInt 0) 1 1)
    /\ (text = "while" -> word_token text = Token.mk KEYWORD_WHILE (VInt 0) 1 1).
Proof.
  intros c0 rest Hstart Hrest text. split; [|split].
  - apply lex_single.
    + exists c0. split; [reflexivity|].
      destruct (id_start_class c0 Hstart) as (_ & _ & _ & _ & Hnul).
      now apply Ascii.eqb_neq.
    + now apply next_token_word.
    + reflexivity.
  - generalize text; clear; intros text.
    unfold word_token, keywords_find, keywords. cbn [find fst snd In].
    repeat match goal with
      | |- context [String.eqb ?a text] =>
          destruct (String.eqb_spec a text)
      end; split; intros H; try discriminate H; try tauto;
      try (exfalso; apply H; tauto).
  - repeat split; intros ->; reflexivity.
Qed.

Lemma lex_word_witness :
  lex "while" = Ok [word_token "while"] (at_terminator "while")
  /\ lex "whilst" = Ok [Token.mk IDENTIFIER (VString "whilst") 1 1] (at_terminator "whilst").
Proof.
  split.
  - apply (lex_word "w" "hile"); reflexivity.
  - apply (lex_word "w" "hilst"); reflexivity.
Defined.

(** X2. Every source that is one run of decimal digits is lexed as one
    token.  Up to [LONG_MAX] it is the INTEGER token whose value is the
    base-10 value of the digits wrapped to 32 bits, which is the value
    itself up to [INT_MAX]; above [LONG_MAX] it is the ERROR token
    "Number exceeds maximum value" that quotes the digits. *)
Theorem lex_digits :
  forall (c0 : ascii) (rest : string),
    is_digit c0 = true -> all_chars is_digit rest = true ->
    let text := String c0 rest in
    let v := decimal_value 0 text in
    ((v <= LONG_MAX)%Z ->
     lex text = Ok [Token.mk INTEGER (VInt (wrap_int v)) 1 1] (at_terminator text))
    /\ ((v <= INT_MAX)%Z -> wrap_int v = v)
    /\ ((LONG_MAX < v)%Z -> (Z.of_nat (String.length text) + 1 < 2 ^ 31)%Z ->
        lex text
        = Ok [diagnostic_at_terminator "Number exceeds maximum value" text]
             (at_terminator text)).
Proof.
  intros c0 rest Hdig Hrest text v.
  assert (Hfirst : exists c, Scanner.deref text 0 = Some c /\ c <> NUL).
  { exists c0. split; [reflexivity|].
    destruct (digit_class c0 Hdig) as (_ & _ & _ & Hnul). now apply Ascii.eqb_neq. }
  destruct (next_token_digits c0 rest Hdig Hrest) as (Hsmall & Hbig).
  split; [|split].
  - intros Hv. apply lex_single; [exact Hfirst | now apply Hsmall | reflexivity].
  - intros Hv. assert (0 <= v)%Z by (apply decimal_value_nonneg; lia).
    unfold wrap_int, INT_MAX in *. rewrite Z.mod_small by lia. lia.
  - intros Hv Hlen. apply lex_single; [exact Hfirst | now apply Hbig | reflexivity].
Qed.

Lemma lex_digits_witness :
  lex "0042" = Ok [Token.mk INTEGER (VInt 42) 1 1] (at_terminator "0042")
  /\ lex "99999999999999999999"
     = Ok [diagnostic_at_terminator "Number exceeds maximum value" "99999999999999999999"]
          (at_terminator "99999999999999999999").
Proof.
  split.
  - apply (proj1 (lex_digits "0" "042" eq_refl eq_refl)). vm_compute. discriminate.
  - apply (proj2 (proj2 (lex_digits "9" "9999999999999999999" eq_refl eq_refl))).
    + vm_compute. reflexivity.
    + vm_compute. reflexivity.
Defined.

(** X3. The string literal that [sanitize] writes for a text without
    double quote and NUL, whose escaped form (every newline and every
    backslash counted twice) is shorter than 2^31 characters, is lexed
    back to the one STRING token that carries that text, and the
    rendered line shows the literal as it was written. *)
Theorem string_literal_round_trip :
  forall s : string,
    all_chars string_char s = true ->
    (Z.of_nat (String.length (escape s)) < 2 ^ 31)%Z ->
    lex (literal_of s)
    = Ok [Token.mk STRING (VString s) 1 1] (at_terminator (literal_of s))
    /\ lex_and_list (literal_of s)
       = Some (table_header ++ " 1    1   String            " ++ literal_of s ++ NL).
Proof.
  intros s Hs Hsize.
  assert (E : lex (literal_of s)
              = Ok [Token.mk STRING (VString s) 1 1] (at_terminator (literal_of s))).
  { apply lex_single.
    - exists DQUOTE. split; [reflexivity | discriminate].
    - now apply next_token_literal.
    - reflexivity. }
  split; [exact E|].
  unfold lex_and_list. rewrite E. f_equal.
  unfold list_tokens, literal_of. cbn [fold_left]. f_equal.
  unfold Token_to_string. cbn [Token.name Token.line Token.column Token.value TokenVal_to_string].
  generalize (sanitize s); intros z.
  change (setw2 1) with " 1".
  rewrite !string_app_assoc. reflexivity.
Qed.

Lemma string_literal_round_trip_witness :
  lex (literal_of a_newline_b)
  = Ok [Token.mk STRING (VString a_newline_b) 1 1] (at_terminator (literal_of a_newline_b))
  /\ lex_and_list (literal_of a_newline_b)
     = Some (table_header ++ " 1    1   String            "
                          ++ literal_of a_newline_b ++ NL).
Proof.
  apply (string_literal_round_trip a_newline_b).
  - reflexivity.
  - vm_compute. reflexivity.
Defined.

(** ** What every token looks like *)

Lemma ensures_bind_any {A B} (m : M A) (k : A -> M B) (Q : B -> Lexer.t -> Prop) :
  (forall a, ensures (k a) Q) -> ensures (bind m k) Q.
Proof.
  intros Hk L b L' H. unfold bind in H.
  destruct (m L) as [a L1| |]; try discriminate H. exact (Hk a L1 b L' H).
Qed.

Lemma ensures_bind_with {A B} (m : M A) (k : A -> M B)
      (R : A -> Lexer.t -> Prop) (Q : B -> Lexer.t -> Prop) :
  ensures m R ->
  (forall a L1 b L', R a L1 -> k a L1 = Ok b L' -> Q b L') ->
  ensures (bind m k) Q.
Proof.
  intros Hm Hk L b L' H. unfold bind in H.
  destruct (m L) as [a L1| |] eqn:E; try discriminate H.
  exact (Hk a L1 b L' (Hm L a L1 E) H).
Qed.

Lemma ensures_token (name : TokenName) (value : TokenVal) :
  value_fits name value = true ->
  ensures (pre <- get_pre_state ;;
           ret (Token.mk name value (Scanner.line pre) (Scanner.col pre)))
          built_at.
Proof.
  intros Hfit L t L' H. unfold bind, get_pre_state, ret in H.
  inversion H; subst; clear H. repeat split. exact Hfit.
Qed.

Lemma ensures_while {A R} (body : A -> M (flow A R)) (Q : R -> Lexer.t -> Prop) :
  (forall a, ensures (body a)
               (fun f L' => match f with Return r => Q r L' | _ => True end)) ->
  forall fuel a,
    ensures (while fuel body a)
      (fun r L' => match r with inr t => Q t L' | inl _ => True end).
Proof.
  intros Hbody; induction fuel as [|fuel IH]; intros a L r L' H; [discriminate H|].
  cbn [while] in H. unfold bind in H.
  destruct (body a L) as [f L1| |] eqn:E; try discriminate H.
  specialize (Hbody a L f L1 E).
  destruct f as [a'|a'|t].
  - exact (IH a' L1 r L' H).
  - unfold ret in H; inversion H; subst; exact I.
  - unfold ret in H; inversion H; subst; exact Hbody.
Qed.

Lemma ensures_ret_return {A R} (Q : R -> Lexer.t -> Prop) (m : M R) :
  ensures m Q ->
  ensures (t <- m ;; ret (Return (A := A) t))
    (fun f L' => match f with Return r => Q r L' | _ => True end).
Proof.
  intros Hm. eapply ensures_bind_with; [exact Hm|].
  intros t L1 f L' HQ H. unfold ret in H; inversion H; subst; exact HQ.
Qed.

Lemma ensures_flow_other {A R} (a : flow A R) (Q : R -> Lexer.t -> Prop) :
  match a with Return _ => False | _ => True end ->
  ensures (ret a) (fun f L' => match f with Return r => Q r L' | _ => True end).
Proof.
  intros Ha L f L' H. unfold ret in H; inversion H; subst.
  destruct f; [exact I | exact I | contradiction].
Qed.

Section Built.

Variable src : string.

Lemma error_built (msg : string) : ensures (error src msg) built_at.
Proof.
  unfold error. do 4 (apply ensures_bind_any; intros ?).
  now apply ensures_token.
Qed.

Lemma simple_token_built (name : TokenName) :
  value_fits name (VInt 0) = true -> ensures (simple_token name) built_at.
Proof. intros H; unfold simple_token. now apply ensures_token. Qed.

Lemma simply_built (name : TokenName) :
  value_fits name (VInt 0) = true -> ensures (simply src name) built_at.
Proof.
  intros H; unfold simply. apply ensures_bind_any; intros _.
  now apply simple_token_built.
Qed.

Lemma error_unrecognized_built : ensures (error_unrecognized src) built_at.
Proof. unfold error_unrecognized. apply ensures_bind_any; intros c. apply error_built. Qed.

Lemma error_unknown_escape_built : ensures (error_unknown_escape src) built_at.
Proof. unfold error_unknown_escape. apply ensures_bind_any; intros c. apply error_built. Qed.

Lemma expect_built (expected : ascii) (name : TokenName) :
  value_fits name (VInt 0) = true -> ensures (expect src expected name) built_at.
Proof.
  intros H; unfold expect. apply ensures_bind_any; intros c.
  destruct (c == expected); [now apply simply_built | apply error_unrecognized_built].
Qed.

Lemma follow_built (expected : ascii) (ifyes ifno : TokenName) :
  value_fits ifyes (VInt 0) = true -> value_fits ifno (VInt 0) = true ->
  ensures (follow src expected ifyes ifno) built_at.
Proof.
  intros Hy Hn; unfold follow. apply ensures_bind_any; intros c.
  destruct (c == expected); [now apply simply_built | now apply simple_token_built].
Qed.

Lemma wrap_int_range (z : Z) : (- 2 ^ 31 <= wrap_int z < 2 ^ 31)%Z.
Proof.
  unfold wrap_int. pose proof (Z.mod_pos_bound (z + 2 ^ 31) (2 ^ 32) ltac:(lia)). lia.
Qed.

Lemma int_of_char_range (c : ascii) : (- 2 ^ 31 <= int_of_char c < 2 ^ 31)%Z.
Proof.
  unfold int_of_char. pose proof (nat_ascii_bounded c).
  destruct (Z.ltb_spec (Z.of_nat (nat_of_ascii c)) 128); lia.
Qed.

Lemma int_fits (n : Z) : (- 2 ^ 31 <= n < 2 ^ 31)%Z -> value_fits INTEGER (VInt n) = true.
Proof.
  intros H; unfold value_fits. apply andb_true_iff; split;
    [apply Z.leb_le | apply Z.ltb_lt]; lia.
Qed.

Lemma char_lit_built : ensures (char_lit src) built_at.
Proof.
  unfold char_lit.
  assert (Hfinish : forall n, (- 2 ^ 31 <= n < 2 ^ 31)%Z ->
            ensures
              (q <- s_next src ;;
               if negb (q == QUOTE) then error src "Multi-character constant"
               else s_advance src ;;
                    pre <- get_pre_state ;;
                    ret (Token.mk INTEGER (VInt n) (Scanner.line pre) (Scanner.col pre)))
              built_at).
  { intros n Hn. apply ensures_bind_any; intros q.
    destruct (negb (q == QUOTE)); [apply error_built|].
    apply ensures_bind_any; intros _. apply ensures_token. now apply int_fits. }
  apply ensures_bind_any; intros c.
  destruct (c == QUOTE); [apply error_built|].
  destruct (c == BACKSLASH); [|apply Hfinish, int_of_char_range].
  apply ensures_bind_any; intros e.
  destruct (e == "n"%char); [apply Hfinish, int_of_char_range|].
  destruct (e == BACKSLASH); [apply Hfinish, int_of_char_range|].
  apply error_unknown_escape_built.
Qed.

Lemma string_lit_built (fuel : nat) : ensures (string_lit src fuel) built_at.
Proof.
  unfold string_lit. eapply ensures_bind_with.
  - apply (ensures_while _ built_at). intros text.
    apply ensures_bind_any; intros c.
    destruct (negb (c == DQUOTE)); [|now apply ensures_flow_other].
    apply ensures_bind_any; intros p.
    destruct (p == BACKSLASH).
    + apply ensures_bind_any; intros e.
      destruct (e == "n"%char); [now apply ensures_flow_other|].
      destruct (e == BACKSLASH); [now apply ensures_flow_other|].
      apply (ensures_ret_return (A := string)), error_unknown_escape_built.
    + destruct (p == LF);
        [apply (ensures_ret_return (A := string)), error_built|].
      destruct (p == NUL);
        [apply (ensures_ret_return (A := string)), error_built|].
      apply ensures_bind_any; intros p'. now apply ensures_flow_other.
  - intros [text|t] L1 b L' HR H.
    + assert (Hafter : ensures
                (s_advance src ;;
                 pre <- get_pre_state ;;
                 ret (Token.mk STRING (VString text) (Scanner.line pre) (Scanner.col pre)))
                built_at).
      { apply ensures_bind_any; intros _. now apply ensures_token. }
      exact (Hafter L1 b L' H).
    + unfold ret in H; inversion H; subst; exact HR.
Qed.

Lemma keywords_find_fits (text : string) (kw : TokenName) :
  keywords_find text = Some kw -> value_fits kw (VInt 0) = true.
Proof.
  unfold keywords_find, keywords; cbn [find fst snd].
  repeat (match goal with
          | |- context [String.eqb ?a ?b] => destruct (String.eqb a b)
          end; [intros E; inversion E; reflexivity|]).
  discriminate.
Qed.

Lemma identifier_built (fuel : nat) : ensures (identifier src fuel) built_at.
Proof.
  unfold identifier. apply ensures_bind_any; intros c0.
  apply ensures_bind_any; intros r. cbv zeta.
  intros L t L' H. unfold bind, get_pre_state in H.
  destruct (keywords_find _) as [kw|] eqn:E; unfold ret in H; inversion H; subst; clear H;
    repeat split. now apply (keywords_find_fits _ _ E).
Qed.

Lemma integer_lit_built (fuel : nat) : ensures (integer_lit src fuel) built_at.
Proof.
  unfold integer_lit. apply ensures_bind_any; intros c0.
  apply ensures_bind_any; intros r. cbv zeta.
  apply ensures_bind_any; intros c.
  destruct (is_id_start c); [apply error_built|].
  destruct (stol _) as [v| |]; [| apply error_built | apply error_built].
  apply ensures_token, int_fits, wrap_int_range.
Qed.

Lemma divide_or_comment_built (fuel : nat) (rec : M Token.t) :
  ensures rec built_at -> ensures (divide_or_comment src fuel rec) built_at.
Proof.
  intros Hrec; unfold divide_or_comment. apply ensures_bind_any; intros c.
  destruct (negb (c == "*"%char)); [now apply simple_token_built|].
  eapply ensures_bind_with.
  - apply (ensures_while _ built_at). intros u.
    apply ensures_bind_any; intros c1.
    destruct (negb (c1 == NUL)); [|now apply ensures_flow_other].
    apply ensures_bind_any; intros p.
    destruct (p == "*"%char); [|now apply ensures_flow_other].
    apply ensures_bind_any; intros q.
    destruct (q == "/"%char); [|now apply ensures_flow_other].
    apply ensures_bind_any; intros _.
    apply (ensures_ret_return (A := unit)), Hrec.
  - intros [u|t] L1 b L' HR H.
    + exact (error_built _ L1 b L' H).
    + unfold ret in H; inversion H; subst; exact HR.
Qed.

Lemma next_token_built (fuel : nat) : ensures (next_token src fuel) built_at.
Proof.
  induction fuel as [|fuel IH]; [intros L t L' H; discriminate H|].
  cbn [next_token]. apply ensures_bind_any; intros _.
  apply ensures_bind_any; intros _. apply ensures_bind_any; intros c.
  repeat match goal with
    | |- ensures (if Ascii.eqb c ?x then _ else _) _ => destruct (Ascii.eqb c x)
    | |- ensures (simply _ _) _ => now apply simply_built
    | |- ensures (expect _ _ _) _ => now apply expect_built
    | |- ensures (follow _ _ _ _) _ => now apply follow_built
    end.
  - now apply divide_or_comment_built.
  - apply char_lit_built.
  - apply string_lit_built.
  - now apply simple_token_built.
  - destruct (is_id_start c); [apply identifier_built|].
    destruct (is_digit c); [apply integer_lit_built | apply error_unrecognized_built].
Qed.

Lemma collect_tokens_built (fuel : nat) :
  ensures (collect_tokens src fuel)
    (fun tokens _ => Forall (fun t => value_fits (Token.name t) (Token.value t) = true)
                            tokens).
Proof.
  unfold collect_tokens.
  assert (Hloop : forall fuel' tokens,
            Forall (fun t => value_fits (Token.name t) (Token.value t) = true) tokens ->
            ensures
              (while (R := unit) fuel'
                 (fun tokens : list Token.t =>
                    more <- has_more src ;;
                    if more then
                      t <- next_token src fuel ;;
                      ret (Continue (tokens ++ [t])%list)
                    else ret (Break tokens))
                 tokens)
              (fun r _ =>
                 match r with
                 | inl tokens =>
                     Forall (fun t => value_fits (Token.name t) (Token.value t) = true)
                            tokens
                 | inr _ => True
                 end)).
  { induction fuel' as [|fuel' IH]; intros tokens Hall L r L' H; [discriminate H|].
    cbn [while] in H. unfold bind at 1 in H. unfold bind at 1 in H.
    destruct (has_more src L) as [more L1| |]; try discriminate H.
    destruct more.
    - unfold bind at 1 in H.
      destruct (next_token src fuel L1) as [t L2| |] eqn:E; try discriminate H.
      unfold ret at 1 in H. apply (IH (tokens ++ [t])%list) in H; [exact H|].
      apply Forall_app; split; [exact Hall|]. constructor; [|constructor].
      apply (next_token_built fuel L1 t L2 E).
    - unfold ret in H. inversion H; subst. exact Hall. }
  eapply ensures_bind_with; [apply (Hloop fuel []); constructor|].
  intros [tokens|u] L1 b L' HR H; unfold ret in H; inversion H; subst;
    [exact HR | constructor].
Qed.

End Built.

(** X4. Every token that [next_token] returns, from any state of any
    source, carries a value that fits its name (an [int] within range
    for INTEGER, a text for STRING, IDENTIFIER and ERROR, [0]
    otherwise) and the position saved in [pre_state]; so no token is
    OP_NEGATE, and every token that the loop of [main] collects is of
    that kind. *)
Theorem tokens_fit_their_names :
  (forall (src : string) (fuel : nat) (L L' : Lexer.t) (t : Token.t),
     next_token src fuel L = Ok t L' ->
     built_at t L' /\ Token.name t <> OP_NEGATE)
  /\ (forall (src : string) (tokens : list Token.t) (L : Lexer.t),
        lex src = Ok tokens L ->
        Forall (fun t => value_fits (Token.name t) (Token.value t) = true
                         /\ Token.name t <> OP_NEGATE) tokens).
Proof.
  assert (Hneg : forall t, value_fits (Token.name t) (Token.value t) = true ->
            Token.name t <> OP_NEGATE).
  { intros t Hfit E. rewrite E in Hfit. destruct (Token.value t); discriminate Hfit. }
  split.
  - intros src fuel L L' t H. pose proof (next_token_built src fuel L t L' H) as Hb.
    split; [exact Hb | apply Hneg, Hb].
  - intros src tokens L H. unfold lex in H.
    pose proof (collect_tokens_built src _ _ _ _ H) as Hall.
    eapply Forall_impl; [|exact Hall]. intros t Hfit. split; [exact Hfit | now apply Hneg].
Qed.

Lemma tokens_fit_their_names_witness :
  Forall (fun t => value_fits (Token.name t) (Token.value t) = true
                   /\ Token.name t <> OP_NEGATE)
    [ Token.mk INTEGER (VInt 1) 1 1;
      Token.mk OP_ADD (VInt 0) 1 3;
      Token.mk INTEGER (VInt 2) 1 5;
      Token.mk SEMICOLON (VInt 0) 1 6 ].
Proof.
  apply (proj2 tokens_fit_their_names "1 + 2;" _
           {| Lexer.s := {| Scanner.pos := 6; Scanner.line := 1; Scanner.col := 7 |};
              Lexer.pre_state := {| Scanner.pos := 5; Scanner.line := 1; Scanner.col := 6 |} |}).
  reflexivity.
Defined.


(** ** Sources without character literals and comments *)

Lemma all_chars_get (test : ascii -> bool) (str : string) (p : nat) (c : ascii) :
  all_chars test str = true -> String.get p str = Some c -> test c = true.
Proof.
  revert p; induction str as [|x str IH]; intros p Hall Hget; [discriminate Hget|].
  cbn [all_chars] in Hall. apply andb_true_iff in Hall as (Hx & Hall).
  destruct p as [|p]; simpl in Hget.
  - inversion Hget; subst; exact Hx.
  - exact (IH p Hall Hget).
Qed.

Lemma no_comment_get (str : string) (p : nat) :
  no_comment str = true ->
  String.get p str = Some "/"%char -> String.get (S p) str = Some "*"%char -> False.
Proof.
  revert p; induction str as [|a str IH]; intros p Hno H1 H2; [discriminate H1|].
  cbn [no_comment] in Hno. destruct str as [|b str]; [destruct p; discriminate H2|].
  apply andb_true_iff in Hno as (Hab & Hno).
  destruct p as [|p].
  - simpl in H1, H2. inversion H1; inversion H2; subst. discriminate Hab.
  - exact (IH p Hno H1 H2).
Qed.

Section Safe.

Variable src : string.
Hypothesis Hquote : all_chars not_quote src = true.
Hypothesis Hcomment : no_comment src = true.
Hypothesis Hsize : (Z.of_nat (String.length src) + 2 < 2 ^ 31)%Z.

Abbreviation len := (String.length src).
Abbreviation deref := (Scanner.deref src).

Lemma deref_get (p : nat) (c : ascii) :
  deref p = Some c -> c <> NUL -> String.get p src = Some c.
Proof.
  unfold Scanner.deref. destruct (String.get p src) as [x|]; [auto|].
  destruct (p =? len); intros H; inversion H; subst; congruence.
Qed.

Lemma never_quote (p : nat) : deref p <> Some QUOTE.
Proof.
  intros H. apply deref_get in H; [|discriminate].
  apply (all_chars_get _ _ _ _ Hquote) in H. discriminate H.
Qed.

Lemma never_comment (p : nat) :
  deref p = Some "/"%char -> deref (S p) <> Some "*"%char.
Proof.
  intros H1 H2. apply deref_get in H1; [|discriminate]. apply deref_get in H2; [|discriminate].
  exact (no_comment_get _ _ Hcomment H1 H2).
Qed.

Lemma tracked_moved (L : Lexer.t) (c : ascii) :
  tracked src L -> deref (posL L) = Some c -> c <> NUL -> tracked src (moved L c).
Proof.
  intros (Hin & Hcol) Hc Hnul. pose proof (deref_not_nul _ _ _ Hc Hnul) as Hlt.
  split; [rewrite posL_moved; lia|]. rewrite posL_moved.
  unfold moved; destruct (Ascii.eqb c LF); cbn [Lexer.s Scanner.col]; [lia|].
  rewrite wrap_int_small; lia.
Qed.

Lemma on_token_line_moved (L : Lexer.t) (c : ascii) :
  on_token_line src L -> deref (posL L) = Some c -> c <> NUL -> c <> LF ->
  on_token_line src (moved L c).
Proof.
  intros (Htr & Hge & Hpre & Hcol) Hc Hnul Hlf.
  split; [now apply tracked_moved|]. rewrite posL_moved, pre_state_moved.
  split; [lia | split; [exact Hpre|]].
  destruct Htr as (Hin & Hc1). pose proof (deref_not_nul _ _ _ Hc Hnul) as Hlt.
  unfold moved. apply Ascii.eqb_neq in Hlf. rewrite Hlf. cbn [Lexer.s Scanner.col].
  rewrite wrap_int_small by lia. rewrite Hcol. lia.
Qed.

Lemma on_token_line_saved (L : Lexer.t) :
  tracked src L ->
  on_token_line src {| Lexer.s := Lexer.s L; Lexer.pre_state := Lexer.s L |}.
Proof.
  intros (Hin & Hcol). unfold on_token_line, tracked, posL; cbn [Lexer.s Lexer.pre_state].
  unfold posL in *. repeat split; try lia.
Qed.

Lemma returns_excerpt (L : Lexer.t) (Q : string -> Lexer.t -> Prop) :
  on_token_line src L -> (forall code, Q code L) -> returns (excerpt src) L Q.
Proof.
  intros ((Hin & Hc1) & Hge & Hpre & Hcol) HQ.
  unfold excerpt, returns, bind, get_s, get_pre_state.
  set (d := Z.of_nat (posL L - Scanner.pos (Lexer.pre_state L))) in *.
  assert (Hcount : ((Scanner.col (Lexer.s L) mod SIZE_MOD
                     - Scanner.col (Lexer.pre_state L) mod SIZE_MOD) mod SIZE_MOD)%Z = d).
  { unfold SIZE_MOD. rewrite (Z.mod_small (Scanner.col (Lexer.s L))) by lia.
    rewrite (Z.mod_small (Scanner.col (Lexer.pre_state L))) by lia.
    rewrite Z.mod_small by lia. lia. }
  rewrite Hcount.
  destruct (Z.ltb_spec string_max_size d) as [Hbig|_];
    [unfold string_max_size in Hbig; lia|].
  unfold buffer. rewrite string_length_app.
  match goal with |- context [Z.ltb ?a ?b] => destruct (Z.ltb_spec a b) as [Hout|_] end;
    [simpl in Hout; unfold d in Hout; lia|].
  apply HQ.
Qed.

Lemma returns_error (msg : string) (L : Lexer.t) :
  on_token_line src L ->
  returns (error src msg) L
    (fun _ L' =>
       tracked src L' /\ posL L <= posL L'
       /\ (forall c, deref (posL L) = Some c -> c <> NUL -> posL L < posL L')).
Proof.
  intros HT. assert (Htr : tracked src L) by apply HT.
  unfold error. rstep. apply returns_excerpt; [exact HT|]. intros code.
  rstep. rstep. rstep. rpeek c Hc; [apply Htr|].
  rstep. destruct (negb (c == NUL)) eqn:E.
  - apply negb_true_iff, Ascii.eqb_neq in E.
    radvance c1 Hc1; [apply Htr|]. same_char Hc Hc1 c1.
    rstep. rstep. rstep. rewrite posL_moved.
    split; [now apply tracked_moved | split; [lia | intros; lia]].
  - apply negb_false_iff, Ascii.eqb_eq in E; subst c.
    rstep. rstep. rstep. rstep.
    split; [exact Htr | split; [lia|]]. intros c Hc' Hn. congruence.
Qed.

(** The cursor has moved on from the offset [p0] where the token began. *)
Let past (p0 : nat) (t : Token.t) (L' : Lexer.t) : Prop :=
  tracked src L' /\ p0 < posL L'.

Lemma safe_error (msg : string) (p0 : nat) (L : Lexer.t) :
  on_token_line src L -> p0 < posL L -> returns (error src msg) L (past p0).
Proof.
  intros HT Hlt. eapply returns_weaken; [now apply returns_error|].
  intros t L' (Htr & Hge & _). split; [exact Htr | lia].
Qed.

Lemma safe_simple_token (name : TokenName) (p0 : nat) (L : Lexer.t) :
  tracked src L -> p0 < posL L -> returns (simple_token name) L (past p0).
Proof. intros Htr Hlt. unfold simple_token. rstep. rstep. rstep. now split. Qed.

Lemma safe_simply (name : TokenName) (L : Lexer.t) (c : ascii) :
  tracked src L -> deref (posL L) = Some c -> c <> NUL ->
  returns (simply src name) L (past (posL L)).
Proof.
  intros Htr Hc Hnul. unfold simply. rstep. radvance c1 Hc1; [apply Htr|].
  same_char Hc Hc1 c1. apply safe_simple_token; [now apply tracked_moved|].
  rewrite posL_moved; lia.
Qed.

Lemma safe_error_unrecognized (p0 : nat) (L : Lexer.t) :
  on_token_line src L -> p0 < posL L ->
  returns (error_unrecognized src) L (past p0).
Proof.
  intros HT Hlt. unfold error_unrecognized. rstep. rpeek c Hc; [apply HT|].
  now apply safe_error.
Qed.

Lemma safe_expect (expected : ascii) (name : TokenName) (L : Lexer.t) (c : ascii) :
  on_token_line src L -> deref (posL L) = Some c -> c <> NUL -> c <> LF ->
  expected <> NUL ->
  returns (expect src expected name) L (past (posL L)).
Proof.
  intros HT Hc Hnul Hlf He. unfold expect. rstep.
  rnext c1 d Hc1 Hd; [eapply deref_not_nul; eassumption|].
  same_char Hc Hc1 c1.
  assert (HT' : on_token_line src (moved L c)) by now apply on_token_line_moved.
  rewrite <- (posL_moved L c) in Hd.
  destruct (Ascii.eqb_spec d expected) as [->|_].
  - eapply returns_weaken; [apply (safe_simply name _ expected); [apply HT' | exact Hd | exact He]|].
    intros t L' (Htr & Hlt). rewrite posL_moved in Hlt. split; [exact Htr | lia].
  - apply safe_error_unrecognized; [exact HT' | rewrite posL_moved; lia].
Qed.

Lemma safe_follow (expected : ascii) (ifyes ifno : TokenName) (L : Lexer.t) (c : ascii) :
  on_token_line src L -> deref (posL L) = Some c -> c <> NUL -> c <> LF ->
  expected <> NUL ->
  returns (follow src expected ifyes ifno) L (past (posL L)).
Proof.
  intros HT Hc Hnul Hlf He. unfold follow. rstep.
  rnext c1 d Hc1 Hd; [eapply deref_not_nul; eassumption|].
  same_char Hc Hc1 c1.
  assert (HT' : on_token_line src (moved L c)) by now apply on_token_line_moved.
  rewrite <- (posL_moved L c) in Hd.
  destruct (Ascii.eqb_spec d expected) as [->|_].
  - eapply returns_weaken; [apply (safe_simply ifyes _ expected); [apply HT' | exact Hd | exact He]|].
    intros t L' (Htr & Hlt). rewrite posL_moved in Hlt. split; [exact Htr | lia].
  - apply safe_simple_token; [apply HT' | rewrite posL_moved; lia].
Qed.

Lemma safe_divide (fuel : nat) (rec : M Token.t) (L : Lexer.t) :
  on_token_line src L -> deref (posL L) = Some "/"%char ->
  returns (divide_or_comment src fuel rec) L (past (posL L)).
Proof.
  intros HT Hc. unfold divide_or_comment. rstep.
  rnext c1 d Hc1 Hd; [eapply deref_not_nul; [eassumption | discriminate]|].
  same_char Hc Hc1 c1.
  assert (HT' : on_token_line src (moved L "/"%char))
    by (apply on_token_line_moved; [assumption | assumption | discriminate | discriminate]).
  destruct (Ascii.eqb_spec d "*"%char) as [->|_];
    [exfalso; exact (never_comment _ Hc Hd)|].
  cbn [negb]. apply safe_simple_token; [apply HT' | rewrite posL_moved; lia].
Qed.

Lemma safe_error_unknown_escape (p0 : nat) (L : Lexer.t) :
  on_token_line src L -> p0 < posL L ->
  returns (error_unknown_escape src) L (past p0).
Proof.
  intros HT Hlt. unfold error_unknown_escape. rstep. rpeek c Hc; [apply HT|].
  now apply safe_error.
Qed.

Lemma safe_string_lit (fuel : nat) (L : Lexer.t) :
  on_token_line src L -> deref (posL L) = Some DQUOTE ->
  len + 2 <= fuel + posL L ->
  returns (string_lit src fuel) L (past (posL L)).
Proof.
  intros HT Hc Hfuel. set (p0 := posL L). unfold string_lit. rstep.
  eapply returns_weaken.
  { eapply (returns_while src) with
      (I := fun (_ : string) L1 =>
              on_token_line src L1 /\ p0 <= posL L1
              /\ exists c, deref (posL L1) = Some c /\ c <> NUL /\ c <> LF)
      (Q := fun (r : string + Token.t) L1 =>
              match r with
              | inl _ => tracked src L1 /\ p0 < posL L1
                         /\ deref (posL L1) = Some DQUOTE
              | inr t => past p0 t L1
              end); [| | | exact Hfuel].
    - intros text L1 (((Hin & _) & _) & _). lia.
    - intros text L1 (HT1 & Hge & c & Hc1 & Hnul & Hlf).
      rstep. rnext c1 d Hc1' Hd; [eapply deref_not_nul; eassumption|].
      same_char Hc1 Hc1' c1.
      assert (HT' : on_token_line src (moved L1 c)) by now apply on_token_line_moved.
      assert (Hpos : posL (moved L1 c) = S (posL L1)) by apply posL_moved.
      rewrite <- Hpos in Hd.
      destruct (Ascii.eqb_spec d DQUOTE) as [->|Hdq]; cbn [negb].
      + rstep. split; [apply HT' | split; [lia | exact Hd]].
      + rstep. rpeek p Hp; [apply HT'|]. same_char Hd Hp p.
        destruct (Ascii.eqb_spec d BACKSLASH) as [->|Hbs].
        * rstep. rnext c2 e Hc2 He; [eapply deref_not_nul; [eassumption | discriminate]|].
          same_char Hd Hc2 c2.
          assert (HT2 : on_token_line src (moved (moved L1 c) BACKSLASH))
            by (apply on_token_line_moved;
                [assumption | assumption | discriminate | discriminate]).
          assert (Hpos2 : posL (moved (moved L1 c) BACKSLASH) = S (S (posL L1)))
            by (rewrite posL_moved; lia).
          rewrite Hpos in He. rewrite <- Hpos2 in He.
          destruct (Ascii.eqb_spec e "n"%char) as [->|_];
            [| destruct (Ascii.eqb_spec e BACKSLASH) as [->|_]].
          -- rstep. split; [|lia]. split; [exact HT2 | split; [lia|]].
             exists "n"%char; repeat split; [exact He | discriminate | discriminate].
          -- rstep. split; [|lia]. split; [exact HT2 | split; [lia|]].
             exists BACKSLASH; repeat split; [exact He | discriminate | discriminate].
          -- rstep. eapply returns_weaken;
               [apply (safe_error_unknown_escape p0); [exact HT2 | lia]|].
             intros t L2 Hpast. rstep. exact Hpast.
        * destruct (Ascii.eqb_spec d LF) as [->|Hdlf].
          { rstep. eapply returns_weaken; [apply (safe_error _ p0); [exact HT' | lia]|].
            intros t L2 Hpast. rstep. exact Hpast. }
          destruct (Ascii.eqb_spec d NUL) as [->|Hdn].
          { rstep. eapply returns_weaken; [apply (safe_error _ p0); [exact HT' | lia]|].
            intros t L2 Hpast. rstep. exact Hpast. }
          rstep. rpeek p Hp; [apply HT'|]. rstep.
          split; [|lia]. split; [exact HT' | split; [lia|]].
          exists d; repeat split; assumption.
    - split; [exact HT | split; [lia|]].
      exists DQUOTE; repeat split; [exact Hc | discriminate | discriminate]. }
  intros [text|t] L1; cbv beta iota.
  - intros (Htr & Hlt & Hq). rstep. radvance c Hc'; [apply Htr|]. same_char Hq Hc' c.
    rstep. rstep. rstep. split; [apply tracked_moved; [assumption | assumption | discriminate]|].
    rewrite posL_moved. unfold p0 in Hlt. lia.
  - intros Hpast. rstep. exact Hpast.
Qed.

Lemma safe_take_while (accept : ascii -> bool) (fuel : nat) (text0 : string)
      (L : Lexer.t) (c : ascii) (Q : string + unit -> Lexer.t -> Prop) :
  (forall d, accept d = true -> d <> NUL /\ d <> LF) ->
  on_token_line src L -> deref (posL L) = Some c -> c <> NUL -> c <> LF ->
  len + 2 <= fuel + posL L ->
  (forall text L1, on_token_line src L1 -> posL L < posL L1 -> Q (inl text) L1) ->
  returns
    (while (R := unit) fuel
       (fun text : string =>
          c <- s_next src ;;
          if accept c then p <- s_peek src ;; ret (Continue (push_back text p))
          else ret (Break text))
       text0) L Q.
Proof.
  intros Hacc HT Hc Hnul Hlf Hfuel HQ.
  eapply (returns_while src) with
    (I := fun (_ : string) L1 =>
            on_token_line src L1 /\ posL L <= posL L1
            /\ exists c, deref (posL L1) = Some c /\ c <> NUL /\ c <> LF);
    [| | | exact Hfuel].
  - intros text L1 (((Hin & _) & _) & _). lia.
  - intros text L1 (HT1 & Hge & c1 & Hc1 & Hnul1 & Hlf1).
    rstep. rnext c2 d Hc2 Hd; [eapply deref_not_nul; eassumption|].
    same_char Hc1 Hc2 c2.
    assert (HT' : on_token_line src (moved L1 c1)) by now apply on_token_line_moved.
    assert (Hpos : posL (moved L1 c1) = S (posL L1)) by apply posL_moved.
    rewrite <- Hpos in Hd.
    destruct (accept d) eqn:Ed.
    + rstep. rpeek p Hp; [apply HT'|]. rstep. split; [|lia].
      split; [exact HT' | split; [lia|]].
      destruct (Hacc d Ed) as (Hdn & Hdl). exists d; repeat split; assumption.
    + rstep. apply HQ; [exact HT' | lia].
  - split; [exact HT | split; [lia|]]. exists c; repeat split; assumption.
Qed.

Lemma id_end_class (d : ascii) : is_id_end d = true -> d <> NUL /\ d <> LF.
Proof. intros H; split; intros ->; discriminate H. Qed.

Lemma digit_not_blank (d : ascii) : is_digit d = true -> d <> NUL /\ d <> LF.
Proof. intros H; split; intros ->; discriminate H. Qed.

Lemma safe_identifier (fuel : nat) (L : Lexer.t) (c : ascii) :
  on_token_line src L -> deref (posL L) = Some c -> c <> NUL -> c <> LF ->
  len + 2 <= fuel + posL L ->
  returns (identifier src fuel) L (past (posL L)).
Proof.
  intros HT Hc Hnul Hlf Hfuel. unfold identifier.
  rstep. rpeek c0 Hc0; [apply HT|]. rstep.
  apply (safe_take_while is_id_end fuel _ L c); try assumption; [exact id_end_class|].
  intros text L1 HT1 Hlt. rstep. rstep.
  destruct (keywords_find text); rstep; (split; [apply HT1 | exact Hlt]).
Qed.

Lemma safe_integer_lit (fuel : nat) (L : Lexer.t) (c : ascii) :
  on_token_line src L -> deref (posL L) = Some c -> c <> NUL -> c <> LF ->
  len + 2 <= fuel + posL L ->
  returns (integer_lit src fuel) L (past (posL L)).
Proof.
  intros HT Hc Hnul Hlf Hfuel. unfold integer_lit.
  rstep. rpeek c0 Hc0; [apply HT|]. rstep.
  apply (safe_take_while is_digit fuel _ L c); try assumption; [exact digit_not_blank|].
  intros text L1 HT1 Hlt. rstep. rpeek c1 Hc1; [apply HT1|].
  destruct (is_id_start c1); [now apply safe_error|].
  destruct (stol text) as [v| |]; [| now apply safe_error | now apply safe_error].
  rstep. rstep. rstep. split; [apply HT1 | exact Hlt].
Qed.

Lemma safe_skip_whitespace (fuel : nat) (L : Lexer.t) :
  tracked src L -> len + 2 <= fuel + posL L ->
  returns (skip_whitespace src fuel) L
    (fun _ L' => tracked src L' /\ posL L <= posL L').
Proof.
  intros Htr Hfuel. unfold skip_whitespace. rstep.
  eapply returns_weaken.
  { eapply (returns_while src) with
      (I := fun (_ : unit) L1 => tracked src L1 /\ posL L <= posL L1)
      (Q := fun (_ : unit + unit) L1 => tracked src L1 /\ posL L <= posL L1);
      [| | | exact Hfuel].
    - intros u L1 ((Hin & _) & _). lia.
    - intros u L1 (Htr1 & Hge). rstep. rpeek c Hc; [apply Htr1|].
      destruct (isspace c) eqn:Esp.
      + rstep. radvance c1 Hc1; [apply Htr1|]. same_char Hc Hc1 c1.
        rstep. split; [|rewrite posL_moved; lia].
        split; [|rewrite posL_moved; lia].
        apply tracked_moved; [assumption | assumption |]. intros ->. discriminate Esp.
      + rstep. split; assumption.
    - split; [exact Htr | lia]. }
  intros r L1 H. rstep. exact H.
Qed.

Lemma safe_next_token (fuel : nat) (L : Lexer.t) :
  tracked src L -> len + 2 <= fuel + posL L ->
  returns (next_token src fuel) L
    (fun _ L' =>
       tracked src L' /\ posL L <= posL L'
       /\ (posL L' = posL L -> deref (posL L) = Some NUL)).
Proof.
  intros Htr Hfuel. destruct fuel as [|fuel]; [destruct Htr; lia|].
  cbn [next_token]. rstep.
  eapply returns_weaken; [now apply safe_skip_whitespace|].
  intros _ L1 (Htr1 & Hge). cbv beta. rstep. rstep.
  assert (HT := on_token_line_saved L1 Htr1).
  set (L2 := {| Lexer.s := Lexer.s L1; Lexer.pre_state := Lexer.s L1 |}) in *.
  assert (Hpos2 : posL L2 = posL L1) by reflexivity.
  rstep. rpeek c Hc; [apply HT|].
  assert (Hdone : forall m : M Token.t,
            returns m L2 (past (posL L2)) ->
            returns m L2
              (fun _ L' =>
                 tracked src L' /\ posL L <= posL L'
                 /\ (posL L' = posL L -> deref (posL L) = Some NUL))).
  { intros m Hm. eapply returns_weaken; [exact Hm|].
    intros t L' (Htr' & Hlt). rewrite Hpos2 in Hlt.
    split; [exact Htr' | split; [lia | intros E; lia]]. }
  repeat match goal with
    | |- returns (if Ascii.eqb c ?x then _ else _) _ _ =>
        destruct (Ascii.eqb_spec c x) as [E|?];
        [ subst c;
          first
            [ apply Hdone, (safe_simply _ _ _ (proj1 HT) Hc); discriminate
            | apply Hdone, (safe_expect _ _ _ _ HT Hc); discriminate
            | apply Hdone, (safe_follow _ _ _ _ _ HT Hc); discriminate
            | apply Hdone, (safe_divide _ _ _ HT Hc)
            | exfalso; exact (never_quote _ Hc)
            | apply Hdone, (safe_string_lit _ _ HT Hc); rewrite Hpos2; lia
            | idtac ]
        | ]
    end.
  - (* the terminator *)
    unfold simple_token. rstep. rstep. rstep.
    split; [apply HT | rewrite Hpos2; split; [lia|]].
    intros E. rewrite <- E. exact Hc.
  - destruct (is_id_start c) eqn:Eid.
    + apply Hdone, (safe_identifier _ _ c); try assumption; [|rewrite Hpos2; lia].
      intros ->; discriminate Eid.
    + destruct (is_digit c) eqn:Edig.
      * apply Hdone, (safe_integer_lit _ _ c); try assumption; [|rewrite Hpos2; lia].
        intros ->; discriminate Edig.
      * unfold error_unrecognized. rstep. rpeek c1 Hc1; [apply HT|].
        eapply returns_weaken; [apply returns_error; exact HT|].
        intros t L' (Htr' & Hge' & Hadv). specialize (Hadv c Hc ltac:(assumption)).
        rewrite Hpos2 in *. split; [exact Htr' | split; [lia | intros; lia]].
Qed.

Lemma safe_collect_tokens (fuel : nat) (L : Lexer.t) :
  tracked src L -> len + 2 <= fuel + posL L ->
  returns (collect_tokens src fuel) L
    (fun tokens L' =>
       Scanner.peek src (Lexer.s L') = Some NUL
       /\ posL L + List.length tokens <= posL L' <= len).
Proof.
  intros Htr Hfuel. unfold collect_tokens. rstep.
  eapply returns_weaken.
  { eapply (returns_while src) with
      (I := fun (tokens : list Token.t) L1 =>
              tracked src L1 /\ posL L + List.length tokens <= posL L1)
      (Q := fun (r : list Token.t + unit) L1 =>
              Scanner.peek src (Lexer.s L1) = Some NUL
              /\ posL L + List.length (match r with inl tokens => tokens | inr _ => [] end)
                 <= posL L1 <= len);
      [| | | exact Hfuel].
    - intros tokens L1 ((Hin & _) & _). lia.
    - intros tokens L1 (Htr1 & Hge). unfold has_more.
      rstep. rstep. rpeek c Hc; [apply Htr1|]. rstep. cbv beta.
      destruct (Ascii.eqb_spec c NUL) as [->|Hnul]; cbn [negb].
      + rstep. split; [exact Hc | split; [exact Hge | apply Htr1]].
      + rstep. eapply returns_weaken; [apply safe_next_token; [exact Htr1 | lia]|].
        intros t L2 (Htr2 & Hge2 & Hsame). rstep.
        assert (posL L2 <> posL L1) by (intros E; specialize (Hsame E); congruence).
        rewrite length_app. cbn [List.length].
        split; [split; [exact Htr2 | lia] | lia].
    - split; [exact Htr | cbn [List.length]; lia]. }
  intros r L1 H. rstep. exact H.
Qed.

End Safe.

(** The cursor is on a NUL inside the buffer of a source that holds
    none: it is on the terminator. *)
Lemma terminator_reached (src : string) (p : nat) :
  all_chars not_nul src = true ->
  Scanner.deref src p = Some NUL -> p = String.length src.
Proof.
  intros Hall H. unfold Scanner.deref in H.
  destruct (String.get p src) as [x|] eqn:Hget.
  - inversion H; subst x. apply (all_chars_get _ _ _ _ Hall) in Hget. discriminate Hget.
  - destruct (Nat.eqb_spec p (String.length src)) as [E|_]; [exact E | discriminate H].
Qed.

(** X5. On a source without NUL, without single quote, without [/]
    followed by [*], and shorter than [INT_MAX - 1] characters, the loop
    of [main] comes to its end: no read goes outside the buffer and no
    excerpt length is out of range; the whole source is scanned, the
    cursor being left at the offset of the terminating NUL, and there
    are at most as many tokens as characters. *)
Theorem lex_returns_without_quote_and_comment :
  forall src : string,
    all_chars not_nul src = true ->
    all_chars not_quote src = true ->
    no_comment src = true ->
    (Z.of_nat (String.length src) + 2 < 2 ^ 31)%Z ->
    exists (tokens : list Token.t) (L : Lexer.t),
      lex src = Ok tokens L
      /\ posL L = String.length src
      /\ Scanner.peek src (Lexer.s L) = Some NUL
      /\ List.length tokens <= String.length src.
Proof.
  intros src Hnul Hq Hc Hsz.
  assert (Htr : tracked src Lexer.init).
  { unfold tracked, posL; simpl. lia. }
  pose proof (safe_collect_tokens src Hq Hc Hsz (enough_fuel src) Lexer.init Htr) as H.
  apply returns_ok in H; [|unfold enough_fuel, posL; simpl; lia].
  destruct H as (tokens & L & E & HQ & Hn). exists tokens, L.
  split; [exact E | split; [|split; [exact HQ|]]].
  - apply (terminator_reached src _ Hnul). exact HQ.
  - change (posL Lexer.init) with 0 in Hn. lia.
Qed.

Lemma lex_returns_without_quote_and_comment_witness :
  exists (tokens : list Token.t) (L : Lexer.t),
    lex "while (n < 10) n = n / 2;" = Ok tokens L
    /\ posL L = 25
    /\ Scanner.peek "while (n < 10) n = n / 2;" (Lexer.s L) = Some NUL
    /\ List.length tokens <= 25.
Proof.
  apply (lex_returns_without_quote_and_comment "while (n < 10) n = n / 2;");
    vm_compute; reflexivity.
Defined.

(** ** Escapes *)

Lemma escape_no_newline (s : string) : all_chars not_newline (escape s) = true.
Proof.
  induction s as [|c s IH]; [reflexivity|]. cbn [escape].
  destruct (Ascii.eqb_spec c LF) as [->|Hlf]; [exact IH|].
  destruct (Ascii.eqb_spec c BACKSLASH) as [->|Hbs]; [exact IH|].
  cbn [all_chars]. rewrite IH. unfold not_newline.
  apply Ascii.eqb_neq in Hlf. rewrite Hlf. reflexivity.
Qed.

Lemma escape_injective (s1 s2 : string) : escape s1 = escape s2 -> s1 = s2.
Proof.
  revert s2; induction s1 as [|a s1 IH]; intros [|b s2]; cbn [escape].
  - reflexivity.
  - destruct (Ascii.eqb b LF); [|destruct (Ascii.eqb b BACKSLASH)]; discriminate.
  - destruct (Ascii.eqb a LF); [|destruct (Ascii.eqb a BACKSLASH)]; discriminate.
  - destruct (Ascii.eqb_spec a LF) as [->|Ha1];
      [|destruct (Ascii.eqb_spec a BACKSLASH) as [->|Ha2]];
      (destruct (Ascii.eqb_spec b LF) as [->|Hb1];
       [|destruct (Ascii.eqb_spec b BACKSLASH) as [->|Hb2]]);
      intros H; inversion H; subst; try congruence; f_equal; now apply IH.
Qed.

(** X6. For a text whose escaped form (every newline and every
    backslash counted twice) is shorter than 2^31 characters, so that
    the [int] index of [sanitize] does not wrap, the text that
    [sanitize] returns holds no newline: the STRING token of such a
    text is printed on one line. *)
Theorem sanitize_has_no_newline :
  forall s : string,
    (Z.of_nat (String.length (escape s)) < 2 ^ 31)%Z ->
    all_chars not_newline (sanitize s) = true.
Proof. intros s Hsize. rewrite (sanitize_escape s Hsize). apply escape_no_newline. Qed.

Lemma sanitize_has_no_newline_witness :
  all_chars not_newline (sanitize a_newline_b) = true.
Proof. apply (sanitize_has_no_newline a_newline_b). vm_compute. reflexivity. Defined.

(** X7. For a concatenation whose escaped form is shorter than 2^31
    characters, [sanitize] of the concatenation is the concatenation of
    the sanitized parts. *)
Theorem sanitize_of_concatenation :
  forall a b : string,
    (Z.of_nat (String.length (escape (a ++ b))) < 2 ^ 31)%Z ->
    sanitize (a ++ b) = sanitize a ++ sanitize b.
Proof.
  intros a b Hsize. rewrite (sanitize_escape (a ++ b) Hsize).
  rewrite escape_app, string_length_app in Hsize.
  rewrite !sanitize_escape by lia. apply escape_app.
Qed.

Lemma sanitize_of_concatenation_witness :
  sanitize (a_newline_b ++ string1 BACKSLASH)
  = sanitize a_newline_b ++ sanitize (string1 BACKSLASH).
Proof.
  apply (sanitize_of_concatenation a_newline_b (string1 BACKSLASH)).
  vm_compute. reflexivity.
Defined.

(** X8. Among the texts whose escaped form is shorter than 2^31
    characters, [sanitize] keeps different texts apart: the literal
    printed for a STRING token determines its text. *)
Theorem sanitize_keeps_texts_apart :
  forall s1 s2 : string,
    (Z.of_nat (String.length (escape s1)) < 2 ^ 31)%Z ->
    (Z.of_nat (String.length (escape s2)) < 2 ^ 31)%Z ->
    s1 <> s2 -> sanitize s1 <> sanitize s2.
Proof.
  intros s1 s2 Hsize1 Hsize2 Hne E. apply Hne.
  rewrite (sanitize_escape s1 Hsize1), (sanitize_escape s2 Hsize2) in E.
  now apply escape_injective.
Qed.

Lemma sanitize_keeps_texts_apart_witness :
  sanitize a_newline_b
  <> sanitize (String "a" (String BACKSLASH (String "n" (String "b" EmptyString)))).
Proof.
  apply (sanitize_keeps_texts_apart a_newline_b).
  - vm_compute. reflexivity.
  - vm_compute. reflexivity.
  - discriminate.
Defined.

(** ** The table of names *)

(** X9. [to_string (Token)] looks up [to_cstring] only for names that
    the table of 27 entries holds, and prints the entry after the
    position. *)
Theorem to_string_reads_inside_the_table :
  forall t : Token.t,
    printed_by_table (Token.name t) = true ->
    exists label : string,
      to_cstring (Token.name t) = Some label
      /\ Token_to_string t
         = (setw2 (Token.line t) ++ "   " ++ setw2 (Token.column t) ++ "   ")
             ++ label ++ NL.
Proof.
  intros [name value line column]; cbn [Token.name Token.line Token.column].
  destruct name; intros H; try discriminate H;
    (eexists; split; [reflexivity|]);
    unfold Token_to_string; cbn [Token.name Token.line Token.column to_cstring];
    reflexivity.
Qed.

Lemma to_string_reads_inside_the_table_witness :
  exists label : string,
    to_cstring OP_NEGATE = Some label
    /\ Token_to_string (Token.mk OP_NEGATE (VInt 0) 3 14)
       = (setw2 3 ++ "   " ++ setw2 14 ++ "   ") ++ label ++ NL.
Proof.
  apply (to_string_reads_inside_the_table (Token.mk OP_NEGATE (VInt 0) 3 14)).
  reflexivity.
Defined.

(** ** Character literals *)

(** X10. The character literal of any character but the single quote,
    written with the escapes of [sanitize], is lexed to the one
    INTEGER token that carries the value of that [char]. *)
Theorem char_literal_round_trip :
  forall c : ascii,
    c <> QUOTE ->
    lex (char_literal_of c)
    = Ok [Token.mk INTEGER (VInt (int_of_char c)) 1 1]
         (first_line_state (String.length (char_literal_of c))).
Proof.
  intros c Hc.
  destruct c as [[] [] [] [] [] [] [] []];
    try (exfalso; apply Hc; reflexivity); vm_compute; reflexivity.
Qed.

Lemma char_literal_round_trip_witness :
  lex (char_literal_of LF)
  = Ok [Token.mk INTEGER (VInt 10) 1 1] (first_line_state 4)
  /\ lex (char_literal_of "255"%char)
     = Ok [Token.mk INTEGER (VInt (-1)) 1 1] (first_line_state 3).
Proof.
  split.
  - apply (char_literal_round_trip LF). discriminate.
  - apply (char_literal_round_trip "255"%char). discriminate.
Defined.

(** ** Operators and characters that begin no token *)

(** [error] with the cursor [String.length code] characters into the
    first line of a token that began at (1,1). *)
Lemma error_on_first_line (code rest msg : string) :
  (Z.of_nat (String.length code) + 1 < 2 ^ 31)%Z ->
  error (code ++ rest) msg (first_line_state (String.length code))
  = Ok (diagnostic msg code)
       (match rest with
        | EmptyString => first_line_state (String.length code)
        | String c _ =>
            if Ascii.eqb c NUL then first_line_state (String.length code)
            else moved (first_line_state (String.length code)) c
        end).
Proof.
  intros Hlen. unfold error, excerpt, bind, get_s, get_pre_state, ret.
  cbn [first_line_state Lexer.s Lexer.pre_state on_first_line Scanner.col Scanner.pos
       Scanner.line Scanner.init].
  rewrite (col_after_small _ Hlen).
  assert (Hcount : (((Z.of_nat (String.length code) + 1) mod SIZE_MOD - 1 mod SIZE_MOD)
                    mod SIZE_MOD)%Z = Z.of_nat (String.length code)).
  { unfold SIZE_MOD. rewrite (Z.mod_small (Z.of_nat (String.length code) + 1)) by lia.
    rewrite (Z.mod_small 1) by lia. rewrite Z.mod_small by lia. lia. }
  rewrite Hcount.
  destruct (Z.ltb_spec string_max_size (Z.of_nat (String.length code))) as [Hbig|_];
    [unfold string_max_size in Hbig; lia|].
  unfold buffer. rewrite !string_length_app.
  match goal with |- context [Z.ltb ?a ?b] => destruct (Z.ltb_spec a b) as [Hout|_] end;
    [lia|].
  rewrite Nat2Z.id, string_app_assoc, substring_app_prefix.
  unfold s_peek, s_advance, Scanner.advance, Scanner.peek.
  cbn [first_line_state Lexer.s Lexer.pre_state on_first_line Scanner.col Scanner.pos
       Scanner.line Scanner.init].
  destruct rest as [|c rest].
  - rewrite string_app_nil_r, deref_at_len. change (Ascii.eqb NUL NUL) with true.
    cbn [negb]. rewrite ?(col_after_small _ Hlen). reflexivity.
  - rewrite deref_app_here.
    destruct (Ascii.eqb c NUL); cbn [negb]; rewrite ?(col_after_small _ Hlen);
      [reflexivity|].
    cbn [first_line_state Lexer.s Lexer.pre_state on_first_line Scanner.col Scanner.pos
         Scanner.line Scanner.init].
    rewrite deref_app_here.
    unfold moved, diagnostic.
    cbn [first_line_state Lexer.s Lexer.pre_state on_first_line Scanner.col Scanner.pos
         Scanner.line Scanner.init].
    rewrite ?(col_after_small _ Hlen). destruct (Ascii.eqb c LF); reflexivity.
Qed.

(** Enters the [switch] of [next_token] called at the beginning of a
    source whose first character [c0] is no white space. *)
Ltac enter_switch c0 Hspace :=
  unfold enough_fuel; cbn [next_token]; rstep;
  eapply returns_of_eq;
  [ apply (skip_whitespace_stays _ _ _ c0); [reflexivity | exact Hspace] | ];
  rstep; rstep; rstep;
  let c := fresh "c" in
  let Hc := fresh "Hc" in
  rpeek c Hc; [unfold posL; simpl; lia|];
  change (Some c0 = Some c) in Hc; inversion Hc; subst c; clear Hc.

Lemma unrecognized_class (c : ascii) :
  unrecognized c = true ->
  isspace c = false /\ is_id_start c = false /\ is_digit c = false
  /\ Ascii.eqb c LF = false /\ Ascii.eqb c NUL = false.
Proof.
  destruct c as [[] [] [] [] [] [] [] []]; vm_compute; intros H;
    try discriminate H; repeat split.
Qed.

(** X11. A character that is no white space, no [case] label, no
    letter, underscore or digit gives the ERROR token that quotes it,
    at the position of the character and with an empty excerpt; the
    call consumes that one character. *)
Theorem unrecognized_character_is_consumed :
  forall (c : ascii) (rest : string),
    unrecognized c = true ->
    next_token (String c rest) (enough_fuel (String c rest)) Lexer.init
    = Ok (diagnostic ("Unrecognized character '" ++ string1 c ++ "'") EmptyString)
         (first_line_state 1).
Proof.
  intros c rest Hc.
  destruct (unrecognized_class c Hc) as (Hsp & Hid & Hdig & Hlf & Hnul).
  apply Ascii.eqb_neq in Hnul.
  apply returns_eq. enter_switch c Hsp. skip_cases Hc. rewrite Hid, Hdig.
  unfold error_unrecognized. rstep. rpeek c1 Hc1; [unfold posL; simpl; lia|].
  change (Some c = Some c1) in Hc1. inversion Hc1; subst c1; clear Hc1.
  eapply returns_of_eq.
  { apply (error_on_first_line EmptyString (String c rest)). simpl; lia. }
  destruct (Ascii.eqb_spec c NUL) as [E|_]; [congruence|]. split; [reflexivity|].
  unfold moved. rewrite Hlf. reflexivity.
Qed.

Lemma unrecognized_character_is_consumed_witness :
  next_token "#include" (enough_fuel "#include") Lexer.init
  = Ok (diagnostic "Unrecognized character '#'" EmptyString) (first_line_state 1).
Proof. apply (unrecognized_character_is_consumed "#" "include"). reflexivity. Defined.

(** ** Runs written as equations *)

Lemma bind_eq {A B : Type} (m : M A) (k : A -> M B) (L L1 : Lexer.t) (a : A) :
  m L = Ok a L1 -> bind m k L = k a L1.
Proof. intros H. unfold bind. rewrite H. reflexivity. Qed.

Lemma advance_moved (src : string) (L : Lexer.t) (c : ascii) :
  Scanner.deref src (posL L) = Some c ->
  Scanner.advance src (Lexer.s L) = Some (Lexer.s (moved L c)).
Proof.
  intros H. unfold Scanner.advance. unfold posL in H. rewrite H.
  unfold moved. cbn [Lexer.s]. now destruct (Ascii.eqb c LF).
Qed.

Lemma s_peek_eq (src : string) (L : Lexer.t) (c : ascii) :
  Scanner.deref src (posL L) = Some c -> s_peek src L = Ok c L.
Proof. intros H. unfold s_peek, Scanner.peek. unfold posL in H. now rewrite H. Qed.

Lemma s_advance_eq (src : string) (L : Lexer.t) (c : ascii) :
  Scanner.deref src (posL L) = Some c -> s_advance src L = Ok tt (moved L c).
Proof.
  intros H. unfold s_advance. rewrite (advance_moved _ _ _ H). reflexivity.
Qed.

Lemma s_next_eq (src : string) (L : Lexer.t) (c d : ascii) :
  Scanner.deref src (posL L) = Some c -> Scanner.deref src (S (posL L)) = Some d ->
  s_next src L = Ok d (moved L c).
Proof.
  intros Hc Hd. unfold s_next. rewrite (bind_eq _ _ _ _ _ (s_advance_eq _ _ _ Hc)).
  apply s_peek_eq. now rewrite posL_moved.
Qed.

Lemma state_eta (L : Lexer.t) : state_at (Lexer.s L) (Lexer.pre_state L) = L.
Proof. now destruct L. Qed.

Lemma save_pre_state_eq (L : Lexer.t) :
  save_pre_state L = Ok tt (state_at (Lexer.s L) (Lexer.s L)).
Proof. reflexivity. Qed.

(** Decides the tests of the [switch] for the given character. *)
Ltac decide_char c :=
  repeat match goal with
    | |- context [Ascii.eqb c ?x] =>
        first [ change (Ascii.eqb c x) with false | change (Ascii.eqb c x) with true ];
        cbv iota
    end.

Lemma deref_second (c : ascii) (rest : string) :
  Scanner.deref (String c rest) 1
  = Some (match rest with EmptyString => NUL | String d _ => d end).
Proof. exact (deref_app_next EmptyString c rest). Qed.

(** X12. [<], [>], [=] and [!] take a following [=] with them.  From
    any state whose cursor is on one of them, at any offset of any
    source, [next_token] returns the two-character operator when the
    next character is [=], with the cursor behind both, and the
    one-character operator otherwise, with the cursor behind the one
    character; the token carries the line and column of its first
    character, which the call has saved. *)
Theorem comparison_takes_a_following_equals_sign :
  forall (c : ascii) (ifyes ifno : TokenName) (a rest : string) (fuel : nat)
         (L : Lexer.t),
    In (c, ifyes, ifno) comparison_tokens ->
    posL L = String.length a ->
    next_token (a ++ String c rest) (S fuel) L
    = if next_is "="%char rest
      then Ok (Token.mk ifyes (VInt 0) (Scanner.line (Lexer.s L)) (Scanner.col (Lexer.s L)))
              (moved (moved (state_at (Lexer.s L) (Lexer.s L)) c) "="%char)
      else Ok (Token.mk ifno (VInt 0) (Scanner.line (Lexer.s L)) (Scanner.col (Lexer.s L)))
              (moved (state_at (Lexer.s L) (Lexer.s L)) c).
Proof.
  intros c ifyes ifno a rest fuel L HIn Hp.
  set (src := a ++ String c rest).
  set (L0 := state_at (Lexer.s L) (Lexer.s L)).
  assert (Hc : Scanner.deref src (posL L) = Some c)
    by (rewrite Hp; apply deref_app_here).
  assert (Hc0 : Scanner.deref src (posL L0) = Some c) by exact Hc.
  assert (Hd : Scanner.deref src (S (posL L0))
               = Some (match rest with EmptyString => NUL | String d _ => d end)).
  { change (posL L0) with (posL L). rewrite Hp. apply deref_app_next. }
  assert (Hfollow :
            follow src "="%char ifyes ifno L0
            = if next_is "="%char rest
              then Ok (Token.mk ifyes (VInt 0)
                         (Scanner.line (Lexer.s L)) (Scanner.col (Lexer.s L)))
                      (moved (moved L0 c) "="%char)
              else Ok (Token.mk ifno (VInt 0)
                         (Scanner.line (Lexer.s L)) (Scanner.col (Lexer.s L)))
                      (moved L0 c)).
  { unfold follow. rewrite (bind_eq _ _ _ _ _ (s_next_eq src L0 _ _ Hc0 Hd)).
    destruct rest as [|d rest]; cbn [next_is]; [reflexivity|].
    destruct (Ascii.eqb_spec d "="%char) as [->|Hne]; [|reflexivity].
    unfold simply.
    assert (He : Scanner.deref src (posL (moved L0 c)) = Some "="%char)
      by (rewrite posL_moved; exact Hd).
    rewrite (bind_eq _ _ _ _ _ (s_advance_eq src (moved L0 c) _ He)).
    reflexivity. }
  cbn [comparison_tokens In] in HIn.
  destruct HIn as [E|[E|[E|[E|[]]]]]; inversion E; subst c ifyes ifno; clear E;
    cbn [next_token];
    rewrite (bind_eq _ _ _ _ _ (skip_whitespace_stays src _ L _ Hc (eq_refl false)));
    rewrite (bind_eq _ _ _ _ _ (save_pre_state_eq L));
    fold L0;
    rewrite (bind_eq _ _ _ _ _ (s_peek_eq src L0 _ Hc0));
    match type of Hc with _ = Some ?c0 => decide_char c0 end;
    exact Hfollow.
Qed.

Lemma comparison_takes_a_following_equals_sign_witness :
  next_token "a <= 3" 1
    (state_at {| Scanner.pos := 2; Scanner.line := 1; Scanner.col := 3 |} Scanner.init)
  = Ok (Token.mk OP_LESSEQUAL (VInt 0) 1 3)
       (state_at {| Scanner.pos := 4; Scanner.line := 1; Scanner.col := 5 |}
                 {| Scanner.pos := 2; Scanner.line := 1; Scanner.col := 3 |})
  /\ next_token "!x" (enough_fuel "!x") Lexer.init
     = Ok (Token.mk OP_NOT (VInt 0) 1 1) (first_line_state 1).
Proof.
  split.
  - apply (comparison_takes_a_following_equals_sign "<" OP_LESSEQUAL OP_LESS "a " "= 3" 0
             (state_at {| Scanner.pos := 2; Scanner.line := 1; Scanner.col := 3 |}
                Scanner.init)).
    + simpl. left. reflexivity.
    + reflexivity.
  - apply (comparison_takes_a_following_equals_sign "!" OP_NOTEQUAL OP_NOT "" "x" 3
             Lexer.init).
    + simpl. do 3 right. left. reflexivity.
    + reflexivity.
Defined.

(** X13. [&] and [|] are tokens only when doubled.  Followed by any
    other character (but the terminator), they give the ERROR token
    that quotes that character, with the operator as the excerpt, and
    the call consumes the character it complains about. *)
Theorem single_ampersand_or_bar_is_an_error :
  forall (c : ascii) (name : TokenName) (d : ascii) (rest : string),
    In (c, name) doubled_tokens ->
    d <> NUL ->
    next_token (String c (String d rest)) (enough_fuel (String c (String d rest)))
      Lexer.init
    = if Ascii.eqb d c
      then Ok (Token.mk name (VInt 0) 1 1) (first_line_state 2)
      else Ok (diagnostic ("Unrecognized character '" ++ string1 d ++ "'") (string1 c))
              (moved (first_line_state 1) d).
Proof.
  intros c name d rest HIn Hd.
  assert (Hexpect : forall c0 : ascii,
            Ascii.eqb c0 LF = false ->
            expect (String c0 (String d rest)) c0 name Lexer.init
            = if Ascii.eqb d c0
              then Ok (Token.mk name (VInt 0) 1 1) (first_line_state 2)
              else Ok (diagnostic ("Unrecognized character '" ++ string1 d ++ "'")
                         (string1 c0))
                      (moved (first_line_state 1) d)).
  { intros c0 Hlf.
    assert (E : forall (t : Token.t) (L' : Lexer.t),
              returns (expect (String c0 (String d rest)) c0 name) Lexer.init
                (fun b L1 => b = t /\ L1 = L') ->
              expect (String c0 (String d rest)) c0 name Lexer.init = Ok t L')
      by (intros t L'; apply returns_eq).
    destruct (Ascii.eqb_spec d c0) as [->|Hne]; apply E; unfold expect; rstep;
      (rnext c1 e Hc1 He; [unfold posL; simpl; lia|]);
      change (Some c0 = Some c1) in Hc1; inversion Hc1; subst c1; clear Hc1;
      change (posL Lexer.init) with 0 in He; rewrite deref_second in He;
      inversion He; subst e; clear He;
      change (moved Lexer.init c0) with (moved (first_line_state 0) c0);
      unfold first_line_state at 1; rewrite (moved_first_line c0 0 _ Hlf).
    - rewrite Ascii.eqb_refl.
      unfold simply. rstep. radvance c1 Hc1; [unfold posL; simpl; lia|].
      change (Scanner.deref (String c0 (String c0 rest)) 1 = Some c1) in Hc1.
      rewrite deref_second in Hc1. inversion Hc1; subst c1; clear Hc1.
      rewrite (moved_first_line c0 1 _ Hlf).
      unfold simple_token. rstep. rstep. rstep. split; reflexivity.
    - apply Ascii.eqb_neq in Hne. rewrite Hne.
      unfold error_unrecognized. rstep. rpeek c1 Hc1; [unfold posL; simpl; lia|].
      change (Scanner.deref (String c0 (String d rest)) 1 = Some c1) in Hc1.
      rewrite deref_second in Hc1. inversion Hc1; subst c1; clear Hc1.
      eapply returns_of_eq.
      { apply (error_on_first_line (string1 c0) (String d rest)). simpl; lia. }
      apply Ascii.eqb_neq in Hd. rewrite Hd. split; reflexivity. }
  cbn [doubled_tokens In] in HIn.
  destruct HIn as [E|[E|[]]]; inversion E; subst c name; clear E;
    match goal with
    | |- next_token (String ?c0 _) _ _ = _ =>
        specialize (Hexpect c0 eq_refl); destruct (Ascii.eqb d c0);
        apply returns_eq; enter_switch c0 (eq_refl false); decide_cases;
        (eapply returns_of_eq; [exact Hexpect | split; reflexivity])
    end.
Qed.

Lemma single_ampersand_or_bar_is_an_error_witness :
  next_token "||" (enough_fuel "||") Lexer.init
  = Ok (Token.mk OP_OR (VInt 0) 1 1) (first_line_state 2)
  /\ next_token "&x" (enough_fuel "&x") Lexer.init
     = Ok (diagnostic "Unrecognized character 'x'" "&") (first_line_state 2).
Proof.
  split.
  - apply (single_ampersand_or_bar_is_an_error "|" OP_OR "|" EmptyString).
    + simpl. right. left. reflexivity.
    + discriminate.
  - apply (single_ampersand_or_bar_is_an_error "&" OP_AND "x" EmptyString).
    + simpl. left. reflexivity.
    + discriminate.
Defined.

(** ** Lines and columns *)

Lemma app_cons_assoc (a : string) (c : ascii) (s : string) :
  a ++ String c s = (a ++ string1 c) ++ s.
Proof. rewrite string_app_assoc. reflexivity. Qed.

Lemma length_snoc (a : string) (c : ascii) :
  String.length (a ++ string1 c) = S (String.length a).
Proof. rewrite string_length_app. simpl. lia. Qed.

Lemma advance_at (a : string) (c : ascii) (s : string) (sc : Scanner.t) :
  Scanner.pos sc = String.length a ->
  Scanner.advance (a ++ String c s) sc
  = Some (if Ascii.eqb c LF
          then {| Scanner.pos := S (String.length a);
                  Scanner.line := wrap_int (Scanner.line sc + 1);
                  Scanner.col := 1 |}
          else {| Scanner.pos := S (String.length a);
                  Scanner.line := Scanner.line sc;
                  Scanner.col := wrap_int (Scanner.col sc + 1) |}).
Proof.
  intros Hp. unfold Scanner.advance. rewrite Hp, deref_app_here. reflexivity.
Qed.

Lemma advance_n_add (src : string) (n m : nat) (sc : Scanner.t) :
  advance_n src (n + m) sc
  = match advance_n src n sc with
    | Some sc' => advance_n src m sc'
    | None => None
    end.
Proof.
  revert sc; induction n as [|n IH]; intros sc; cbn [advance_n Nat.add]; [reflexivity|].
  destruct (Scanner.advance src sc) as [sc'|]; [apply IH | reflexivity].
Qed.

Lemma newlines_le (text : string) : newlines text <= String.length text.
Proof.
  induction text as [|c text IH]; cbn [newlines String.length]; [lia|].
  destruct (Ascii.eqb c LF); lia.
Qed.

(** Over any text the line goes up by the number of its newlines. *)
Lemma advance_n_lines (text : string) :
  forall (a rest : string) (sc : Scanner.t),
    Scanner.pos sc = String.length a ->
    (- 2 ^ 31 <= Scanner.line sc)%Z ->
    (Scanner.line sc + Z.of_nat (String.length text) < 2 ^ 31)%Z ->
    exists col' : Z,
      advance_n (a ++ text ++ rest) (String.length text) sc
      = Some {| Scanner.pos := String.length a + String.length text;
                Scanner.line := Scanner.line sc + Z.of_nat (newlines text);
                Scanner.col := col' |}.
Proof.
  induction text as [|c text IH]; intros a rest sc Hp Hlo Hhi.
  - exists (Scanner.col sc). cbn [advance_n String.length newlines].
    destruct sc as [p l k]; cbn in *. subst p. do 2 f_equal; lia.
  - cbn [String.length advance_n append newlines]. rewrite (advance_at _ _ _ _ Hp).
    cbn [String.length] in Hhi.
    pose proof (newlines_le text) as Hn.
    rewrite app_cons_assoc.
    destruct (Ascii.eqb c LF).
    + edestruct (IH (a ++ string1 c) rest) as (col' & E); [| | | rewrite E].
      * cbn [Scanner.pos]. now rewrite length_snoc.
      * cbn [Scanner.line]. rewrite wrap_int_small; lia.
      * cbn [Scanner.line]. rewrite wrap_int_small; lia.
      * exists col'. cbn [Scanner.line]. rewrite length_snoc, wrap_int_small by lia.
        do 2 f_equal; lia.
    + edestruct (IH (a ++ string1 c) rest) as (col' & E); [| | | rewrite E].
      * cbn [Scanner.pos]. now rewrite length_snoc.
      * cbn [Scanner.line]. lia.
      * cbn [Scanner.line]. lia.
      * exists col'. cbn [Scanner.line]. rewrite length_snoc.
        do 2 f_equal; lia.
Qed.

(** Over a text without newline the column goes up by its length. *)
Lemma advance_n_columns (text : string) :
  forall (a rest : string) (sc : Scanner.t),
    Scanner.pos sc = String.length a ->
    all_chars not_newline text = true ->
    (- 2 ^ 31 <= Scanner.col sc)%Z ->
    (Scanner.col sc + Z.of_nat (String.length text) < 2 ^ 31)%Z ->
    advance_n (a ++ text ++ rest) (String.length text) sc
    = Some {| Scanner.pos := String.length a + String.length text;
              Scanner.line := Scanner.line sc;
              Scanner.col := Scanner.col sc + Z.of_nat (String.length text) |}.
Proof.
  induction text as [|c text IH]; intros a rest sc Hp Hall Hlo Hhi.
  - cbn [advance_n String.length].
    destruct sc as [p l k]; cbn in *. subst p. do 2 f_equal; lia.
  - cbn [String.length advance_n append]. rewrite (advance_at _ _ _ _ Hp).
    cbn [String.length] in Hhi. cbn [all_chars] in Hall.
    apply andb_true_iff in Hall as (Hc & Hall). unfold not_newline in Hc.
    apply negb_true_iff in Hc. rewrite Hc.
    rewrite app_cons_assoc, IH.
    + cbn [Scanner.line Scanner.col]. rewrite length_snoc, wrap_int_small by lia.
      do 2 f_equal; lia.
    + cbn [Scanner.pos]. now rewrite length_snoc.
    + exact Hall.
    + cbn [Scanner.col]. rewrite wrap_int_small; lia.
    + cbn [Scanner.col]. rewrite wrap_int_small; lia.
Qed.

(** X14. What [advance] keeps in [line] and [col]: after as many calls
    as there are characters before a place of the source, [line] is
    one more than the number of newlines before the place and [col] is
    one more than the number of characters between the beginning of
    its line and the place. *)
Theorem scanner_counts_lines_and_columns :
  forall before current rest : string,
    ends_a_line before ->
    all_chars not_newline current = true ->
    (Z.of_nat (String.length (before ++ current)) + 1 < 2 ^ 31)%Z ->
    advance_n (before ++ current ++ rest) (String.length (before ++ current))
      Scanner.init
    = Some {| Scanner.pos := String.length (before ++ current);
              Scanner.line := 1 + Z.of_nat (newlines before);
              Scanner.col := 1 + Z.of_nat (String.length current) |}.
Proof.
  intros before current rest Hbefore Hcur Hlen.
  rewrite string_length_app in *.
  destruct Hbefore as [->|(b & ->)].
  - pose proof (advance_n_columns current EmptyString rest Scanner.init eq_refl Hcur) as E.
    cbn [String.length Nat.add newlines append Scanner.col Scanner.line Scanner.init] in *.
    rewrite E by lia. reflexivity.
  - unfold NL in *. rewrite advance_n_add. rewrite length_snoc in *.
    replace (S (String.length b)) with (String.length b + 1) by lia.
    rewrite advance_n_add.
    rewrite !string_app_assoc.
    destruct (advance_n_lines b EmptyString (string1 LF ++ current ++ rest) Scanner.init)
      as (col' & E); [reflexivity | cbn; lia | cbn [Scanner.line Scanner.init]; lia |].
    cbn [append] in E. cbn [append]. rewrite E. cbn [advance_n String.length Nat.add].
    rewrite (advance_at b LF (current ++ rest)) by reflexivity.
    change (Ascii.eqb LF LF) with true. cbv iota. cbn [Scanner.line Scanner.init].
    pose proof (newlines_le b) as Hn.
    change (b ++ string1 LF ++ current ++ rest) with (b ++ String LF (current ++ rest)).
    rewrite app_cons_assoc.
    rewrite advance_n_columns;
      [| cbn [Scanner.pos]; now rewrite length_snoc | exact Hcur
       | cbn [Scanner.col]; lia | cbn [Scanner.col]; lia ].
    cbn [Scanner.line Scanner.col]. rewrite length_snoc, newlines_app.
    change (newlines (string1 LF)) with 1.
    rewrite wrap_int_small by lia. do 2 f_equal; lia.
Qed.

Lemma scanner_counts_lines_and_columns_witness :
  advance_n ("if (a)" ++ NL ++ "  b = 1;") 11 Scanner.init
  = Some {| Scanner.pos := 11; Scanner.line := 2; Scanner.col := 5 |}.
Proof.
  apply (scanner_counts_lines_and_columns
           (String "i" (String "f" (String " " (String "(" (String "a" (String ")" NL))))))
           "  b " "= 1;").
  - right. exists "if (a)". reflexivity.
  - reflexivity.
  - vm_compute. reflexivity.
Defined.

(** ** White space *)

Lemma advance_n_pos (src : string) (n : nat) :
  forall sc sc' : Scanner.t,
    advance_n src n sc = Some sc' -> Scanner.pos sc' = Scanner.pos sc + n.
Proof.
  induction n as [|n IH]; intros sc sc' H; cbn [advance_n] in H.
  - inversion H; subst; lia.
  - unfold Scanner.advance in H. destruct (Scanner.deref src (Scanner.pos sc)); [|discriminate H].
    apply IH in H. rewrite H. destruct (Ascii.eqb a LF); cbn [Scanner.pos]; lia.
Qed.

(** The character under the cursor at the end of [a], in a source that
    goes on with [rest]. *)
Lemma deref_app_end (a rest : string) :
  Scanner.deref (a ++ rest) (String.length a)
  = Some (match rest with EmptyString => NUL | String c _ => c end).
Proof.
  destruct rest as [|c rest]; [|apply deref_app_here].
  rewrite string_app_nil_r. apply deref_at_len.
Qed.

Lemma skip_whitespace_step (src : string) (fuel : nat) (L : Lexer.t) (c : ascii) :
  Scanner.deref src (posL L) = Some c -> isspace c = true ->
  skip_whitespace src (S fuel) L = skip_whitespace src fuel (moved L c).
Proof.
  intros Hc Hsp. unfold skip_whitespace. cbn [while].
  unfold bind at 1. unfold bind at 1. unfold bind at 1.
  rewrite (s_peek_eq _ _ _ Hc), Hsp.
  unfold bind at 1. rewrite (s_advance_eq _ _ _ Hc). reflexivity.
Qed.

Lemma skip_whitespace_over (rest : string) :
  begins_with isspace rest = false ->
  forall (blanks a : string) (fuel : nat) (L : Lexer.t),
    posL L = String.length a ->
    all_chars isspace blanks = true ->
    String.length blanks < fuel ->
    exists sc : Scanner.t,
      advance_n (a ++ blanks ++ rest) (String.length blanks) (Lexer.s L) = Some sc
      /\ skip_whitespace (a ++ blanks ++ rest) fuel L
         = Ok tt (state_at sc (Lexer.pre_state L)).
Proof.
  intros Hrest; induction blanks as [|c blanks IH]; intros a fuel L Hp Hall Hfuel;
    (destruct fuel as [|fuel]; [cbn [String.length] in Hfuel; lia|]).
  - exists (Lexer.s L). split; [reflexivity|]. rewrite state_eta. cbn [append].
    eapply skip_whitespace_stays; [rewrite Hp; apply deref_app_end|].
    destruct rest as [|x rest]; [reflexivity | exact Hrest].
  - cbn [all_chars] in Hall. apply andb_true_iff in Hall as (Hc & Hall).
    cbn [String.length] in Hfuel. cbn [append String.length advance_n].
    assert (Hd : Scanner.deref (a ++ String c (blanks ++ rest)) (posL L) = Some c)
      by (rewrite Hp; apply deref_app_here).
    rewrite (advance_moved _ _ _ Hd), (skip_whitespace_step _ _ _ _ Hd Hc).
    rewrite app_cons_assoc.
    destruct (IH (a ++ string1 c) fuel (moved L c)) as (sc & E1 & E2);
      [rewrite posL_moved, length_snoc; lia | exact Hall | lia |].
    exists sc. split; [exact E1 | exact E2].
Qed.

(** X15. White space before a token only moves the scanner: the call
    of [next_token] in front of it returns what the call behind it
    returns. *)
Theorem white_space_is_skipped :
  forall (a blanks rest : string) (fuel : nat) (L : Lexer.t),
    posL L = String.length a ->
    all_chars isspace blanks = true ->
    begins_with isspace rest = false ->
    String.length blanks < fuel ->
    exists sc : Scanner.t,
      advance_n (a ++ blanks ++ rest) (String.length blanks) (Lexer.s L) = Some sc
      /\ next_token (a ++ blanks ++ rest) fuel L
         = next_token (a ++ blanks ++ rest) fuel (state_at sc (Lexer.pre_state L)).
Proof.
  intros a blanks rest fuel L Hp Hall Hrest Hfuel.
  destruct (skip_whitespace_over rest Hrest blanks a fuel L Hp Hall Hfuel) as (sc & E1 & E2).
  exists sc. split; [exact E1|].
  destruct fuel as [|fuel]; [lia|]. cbn [next_token].
  rewrite (bind_eq _ _ _ _ _ E2).
  assert (E3 : skip_whitespace (a ++ blanks ++ rest) (S fuel)
                 (state_at sc (Lexer.pre_state L))
               = Ok tt (state_at sc (Lexer.pre_state L))).
  { eapply skip_whitespace_stays.
    - unfold posL, state_at; cbn [Lexer.s]. rewrite (advance_n_pos _ _ _ _ E1).
      unfold posL in Hp. rewrite Hp, <- string_length_app, <- string_app_assoc.
      apply deref_app_end.
    - destruct rest as [|x rest]; [reflexivity | exact Hrest]. }
  rewrite (bind_eq _ _ _ _ _ E3). reflexivity.
Qed.

Lemma white_space_is_skipped_witness :
  exists sc : Scanner.t,
    advance_n ("x;" ++ (" " ++ NL ++ "  ") ++ "y") 4
      {| Scanner.pos := 2; Scanner.line := 1; Scanner.col := 3 |} = Some sc
    /\ next_token ("x;" ++ (" " ++ NL ++ "  ") ++ "y") 5
         (state_at {| Scanner.pos := 2; Scanner.line := 1; Scanner.col := 3 |} Scanner.init)
       = next_token ("x;" ++ (" " ++ NL ++ "  ") ++ "y") 5 (state_at sc Scanner.init).
Proof.
  apply (white_space_is_skipped "x;" (" " ++ NL ++ "  ") "y" 5
           (state_at {| Scanner.pos := 2; Scanner.line := 1; Scanner.col := 3 |}
              Scanner.init)).
  - reflexivity.
  - reflexivity.
  - reflexivity.
  - simpl. lia.
Defined.

(** X16. A source of white space only gives the one END_OF_INPUT token,
    at the line and column the scanner has reached at the end of the
    source. *)
Theorem blank_source_gives_end_of_input :
  forall src : string,
    src <> EmptyString ->
    all_chars isspace src = true ->
    exists sc : Scanner.t,
      advance_n src (String.length src) Scanner.init = Some sc
      /\ lex src
         = Ok [Token.mk END_OF_INPUT (VInt 0) (Scanner.line sc) (Scanner.col sc)]
              (state_at sc sc).
Proof.
  intros src Hne Hall.
  destruct (skip_whitespace_over EmptyString eq_refl src EmptyString
              (enough_fuel src) Lexer.init eq_refl Hall) as (sc & E1 & E2);
    [unfold enough_fuel; lia|].
  cbn [append] in E1, E2. rewrite string_app_nil_r in E1, E2.
  change (Lexer.s Lexer.init) with Scanner.init in E1.
  exists sc. split; [exact E1|].
  assert (Hpos : Scanner.pos sc = String.length src)
    by (rewrite (advance_n_pos _ _ _ _ E1); reflexivity).
  apply lex_single.
  - destruct src as [|c src]; [congruence|]. exists c. split; [reflexivity|].
    cbn [all_chars] in Hall. apply andb_true_iff in Hall as (Hc & _).
    intros ->. discriminate Hc.
  - unfold enough_fuel in *. cbn [next_token].
    rewrite (bind_eq _ _ _ _ _ E2).
    unfold save_pre_state at 1. unfold bind at 1.
    cbn [state_at Lexer.s Lexer.pre_state].
    assert (Hd : Scanner.deref src (posL (state_at sc sc)) = Some NUL)
      by (unfold posL, state_at; cbn [Lexer.s]; rewrite Hpos; apply deref_at_len).
    fold (state_at sc sc).
    rewrite (bind_eq _ _ _ _ _ (s_peek_eq _ _ _ Hd)).
    reflexivity.
  - unfold posL, state_at; cbn [Lexer.s]. exact Hpos.
Qed.

Lemma blank_source_gives_end_of_input_witness :
  exists sc : Scanner.t,
    advance_n (" " ++ NL ++ NL ++ "  ") 5 Scanner.init = Some sc
    /\ lex (" " ++ NL ++ NL ++ "  ")
       = Ok [Token.mk END_OF_INPUT (VInt 0) (Scanner.line sc) (Scanner.col sc)]
            (state_at sc sc).
Proof.
  apply (blank_source_gives_end_of_input (" " ++ NL ++ NL ++ "  ")).
  - discriminate.
  - reflexivity.
Defined.

(** ** Comments *)

(** One turn of the loop of [divide_or_comment]. *)
Abbreviation comment_turn src rec :=
  (fun _ : unit =>
     c <- s_next src ;;
     if negb (c == NUL) then
       p <- s_peek src ;;
       if p == "*"%char then
         q <- s_next src ;;
         if q == "/"%char then
           s_advance src ;;
           t <- rec ;;
           ret (Return t)
         else ret (Continue tt)
       else ret (Continue tt)
     else ret (Break tt)).

Lemma deref_any (src : string) (p : nat) :
  p <= String.length src -> exists c, Scanner.deref src p = Some c.
Proof. apply deref_total. Qed.

(** The next character is neither [*] nor NUL: the turn steps onto
    it. *)
Lemma comment_turn_plain (src : string) (rec : M Token.t) (L : Lexer.t) (c x : ascii) :
  Scanner.deref src (posL L) = Some c -> Scanner.deref src (S (posL L)) = Some x ->
  inside_comment x = true ->
  comment_turn src rec tt L = Ok (Continue tt) (moved L c).
Proof.
  intros Hc Hx Hin. unfold inside_comment in Hin.
  apply andb_true_iff in Hin as (Hstar & Hnul).
  apply negb_true_iff in Hstar. cbv beta.
  rewrite (bind_eq _ _ _ _ _ (s_next_eq _ _ _ _ Hc Hx)), Hnul.
  assert (Hx' : Scanner.deref src (posL (moved L c)) = Some x) by now rewrite posL_moved.
  rewrite (bind_eq _ _ _ _ _ (s_peek_eq _ _ _ Hx')), Hstar. reflexivity.
Qed.

(** The next character is NUL: the loop ends on it. *)
Lemma comment_turn_end (src : string) (rec : M Token.t) (L : Lexer.t) (c : ascii) :
  Scanner.deref src (posL L) = Some c -> Scanner.deref src (S (posL L)) = Some NUL ->
  comment_turn src rec tt L = Ok (Break tt) (moved L c).
Proof.
  intros Hc Hx. cbv beta.
  rewrite (bind_eq _ _ _ _ _ (s_next_eq _ _ _ _ Hc Hx)). reflexivity.
Qed.

(** The next two characters are [*] and [/]: the turn steps behind
    them and makes the recursive call. *)
Lemma comment_turn_closing (src : string) (rec : M Token.t) (L : Lexer.t) (c : ascii) :
  Scanner.deref src (posL L) = Some c ->
  Scanner.deref src (S (posL L)) = Some "*"%char ->
  Scanner.deref src (S (S (posL L))) = Some "/"%char ->
  comment_turn src rec tt L
  = match rec (moved (moved (moved L c) "*"%char) "/"%char) with
    | Ok t L' => Ok (Return t) L'
    | Fault f L' => Fault f L'
    | OutOfFuel => OutOfFuel
    end.
Proof.
  intros Hc H1 H2. cbv beta.
  rewrite (bind_eq _ _ _ _ _ (s_next_eq _ _ _ _ Hc H1)).
  change (negb ("*"%char == NUL)) with true. cbv iota.
  assert (H1' : Scanner.deref src (posL (moved L c)) = Some "*"%char)
    by now rewrite posL_moved.
  assert (H2' : Scanner.deref src (S (posL (moved L c))) = Some "/"%char)
    by now rewrite posL_moved.
  rewrite (bind_eq _ _ _ _ _ (s_peek_eq _ _ _ H1')).
  change ("*"%char == "*"%char) with true. cbv iota.
  rewrite (bind_eq _ _ _ _ _ (s_next_eq _ _ _ _ H1' H2')).
  change ("/"%char == "/"%char) with true. cbv iota.
  assert (H2'' : Scanner.deref src (posL (moved (moved L c) "*"%char)) = Some "/"%char)
    by now rewrite posL_moved.
  rewrite (bind_eq _ _ _ _ _ (s_advance_eq _ _ _ H2'')).
  unfold bind, ret. reflexivity.
Qed.

(** The next two characters are [*] and something else than [/]: the
    turn steps onto the second and does not look at it again. *)
Lemma comment_turn_star (src : string) (rec : M Token.t) (L : Lexer.t) (c q : ascii) :
  Scanner.deref src (posL L) = Some c ->
  Scanner.deref src (S (posL L)) = Some "*"%char ->
  Scanner.deref src (S (S (posL L))) = Some q -> q <> "/"%char ->
  comment_turn src rec tt L = Ok (Continue tt) (moved (moved L c) "*"%char).
Proof.
  intros Hc H1 H2 Hq. cbv beta.
  rewrite (bind_eq _ _ _ _ _ (s_next_eq _ _ _ _ Hc H1)).
  change (negb ("*"%char == NUL)) with true. cbv iota.
  assert (H1' : Scanner.deref src (posL (moved L c)) = Some "*"%char)
    by now rewrite posL_moved.
  assert (H2' : Scanner.deref src (S (posL (moved L c))) = Some q)
    by now rewrite posL_moved.
  rewrite (bind_eq _ _ _ _ _ (s_peek_eq _ _ _ H1')).
  change ("*"%char == "*"%char) with true. cbv iota.
  rewrite (bind_eq _ _ _ _ _ (s_next_eq _ _ _ _ H1' H2')).
  apply Ascii.eqb_neq in Hq. rewrite Hq. reflexivity.
Qed.

Lemma while_continue {A R : Type} (body : A -> M (flow A R)) (fuel : nat) (a a' : A)
      (L L' : Lexer.t) :
  body a L = Ok (Continue a') L' ->
  while (S fuel) body a L = while fuel body a' L'.
Proof. intros H. cbn [while]. rewrite (bind_eq _ _ _ _ _ H). reflexivity. Qed.

Lemma while_break {A R : Type} (body : A -> M (flow A R)) (fuel : nat) (a a' : A)
      (L L' : Lexer.t) :
  body a L = Ok (Break a') L' ->
  while (S fuel) body a L = Ok (inl a') L'.
Proof. intros H. cbn [while]. rewrite (bind_eq _ _ _ _ _ H). reflexivity. Qed.

(** Over the characters of a comment that are neither [*] nor NUL the
    loop goes on, one character per turn. *)
Lemma comment_over_plain (rec : M Token.t) (tail : string) :
  forall (body a : string) (c : ascii) (L : Lexer.t) (n : nat),
    String.length a = S (posL L) ->
    Scanner.deref (a ++ body ++ tail) (posL L) = Some c ->
    all_chars inside_comment body = true ->
    exists L' : Lexer.t,
      advance_n (a ++ body ++ tail) (String.length body) (Lexer.s L) = Some (Lexer.s L')
      /\ Lexer.pre_state L' = Lexer.pre_state L
      /\ while (String.length body + n) (comment_turn (a ++ body ++ tail) rec) tt L
         = while n (comment_turn (a ++ body ++ tail) rec) tt L'.
Proof.
  induction body as [|x body IH]; intros a c L n Ha Hc Hall.
  - exists L. repeat split.
  - cbn [all_chars] in Hall. apply andb_true_iff in Hall as (Hx & Hall).
    cbn [String.length append Nat.add advance_n].
    assert (Hd : Scanner.deref (a ++ String x (body ++ tail)) (S (posL L)) = Some x)
      by (rewrite <- Ha; apply deref_app_here).
    cbn [append] in Hc.
    rewrite (advance_moved _ _ _ Hc).
    rewrite (while_continue _ _ _ _ _ _ (comment_turn_plain _ rec _ _ _ Hc Hd Hx)).
    rewrite app_cons_assoc in *.
    destruct (IH (a ++ string1 x) x (moved L c) n) as (L' & E1 & E2 & E3);
      [rewrite posL_moved, length_snoc; lia | rewrite posL_moved; exact Hd | exact Hall |].
    exists L'. repeat split; assumption.
Qed.

(** X17. A comment without [*] and NUL between its two marks is
    stepped over: the call of [next_token] on its first character
    returns what the recursive call behind the comment returns. *)
Theorem closed_comment_is_skipped :
  forall (a body rest : string) (fuel : nat) (L : Lexer.t),
    posL L = String.length a ->
    all_chars inside_comment body = true ->
    String.length body <= fuel ->
    exists sc : Scanner.t,
      advance_n (a ++ "/*" ++ body ++ "*/" ++ rest) (String.length body + 4) (Lexer.s L)
      = Some sc
      /\ next_token (a ++ "/*" ++ body ++ "*/" ++ rest) (S fuel) L
         = next_token (a ++ "/*" ++ body ++ "*/" ++ rest) fuel (state_at sc (Lexer.s L)).
Proof.
  intros a body rest fuel L Hp Hall Hfuel.
  assert (Hsrc : (a ++ "/*") ++ body ++ "*/" ++ rest = a ++ "/*" ++ body ++ "*/" ++ rest)
    by (rewrite string_app_assoc; reflexivity).
  assert (Hsrc' : ((a ++ "/*") ++ body) ++ "*/" ++ rest
                  = a ++ "/*" ++ body ++ "*/" ++ rest)
    by (rewrite <- Hsrc, string_app_assoc; reflexivity).
  set (src := a ++ "/*" ++ body ++ "*/" ++ rest) in *.
  set (rec := next_token src fuel).
  assert (H0 : Scanner.deref src (posL L) = Some "/"%char)
    by (rewrite Hp; exact (deref_app_here a "/" ("*" ++ body ++ "*/" ++ rest))).
  assert (H1 : Scanner.deref src (S (posL L)) = Some "*"%char)
    by (rewrite Hp; exact (deref_app_next a "/" ("*" ++ body ++ "*/" ++ rest))).
  set (L0 := state_at (Lexer.s L) (Lexer.s L)).
  assert (Hp0 : posL L0 = posL L) by reflexivity.
  set (L1 := moved L0 "/"%char).
  assert (Hp1 : posL L1 = S (String.length a))
    by (unfold L1; rewrite posL_moved, Hp0, Hp; reflexivity).
  destruct (comment_over_plain rec ("*/" ++ rest) body (a ++ "/*") "*"%char L1
              (S (fuel - String.length body))) as (L2 & E1 & E2 & E3).
  { rewrite string_length_app, Hp1. simpl. lia. }
  { rewrite Hsrc. rewrite Hp1, <- Hp. exact H1. }
  { exact Hall. }
  rewrite Hsrc in E1, E3.
  assert (Hp2 : S (posL L2) = String.length ((a ++ "/*") ++ body)).
  { unfold posL. rewrite (advance_n_pos _ _ _ _ E1). fold (posL L1). rewrite Hp1.
    rewrite !string_length_app. simpl. lia. }
  assert (Hlen : String.length src = String.length ((a ++ "/*") ++ body) + (2 + String.length rest)).
  { rewrite <- Hsrc'. rewrite (string_length_app _ ("*/" ++ rest)). reflexivity. }
  destruct (deref_any src (posL L2)) as (c2 & Hc2); [lia|].
  assert (Hstar : Scanner.deref src (S (posL L2)) = Some "*"%char).
  { rewrite Hp2. rewrite <- Hsrc'.
    exact (deref_app_here ((a ++ "/*") ++ body) "*" ("/" ++ rest)). }
  assert (Hslash : Scanner.deref src (S (S (posL L2))) = Some "/"%char).
  { rewrite Hp2. rewrite <- Hsrc'.
    exact (deref_app_next ((a ++ "/*") ++ body) "*" ("/" ++ rest)). }
  set (L5 := moved (moved (moved L2 c2) "*"%char) "/"%char).
  assert (Hpre : Lexer.pre_state L5 = Lexer.s L).
  { unfold L5. cbn [moved Lexer.pre_state]. rewrite E2. reflexivity. }
  exists (Lexer.s L5). split.
  - replace (String.length body + 4) with (1 + (String.length body + 3)) by lia.
    rewrite advance_n_add. cbn [advance_n]. rewrite (advance_moved _ _ _ H0).
    change (Lexer.s (moved L "/"%char)) with (Lexer.s L1).
    rewrite advance_n_add, E1. cbn [advance_n].
    rewrite (advance_moved _ _ _ Hc2).
    rewrite (advance_moved src (moved L2 c2) "*"%char) by (rewrite posL_moved; exact Hstar).
    rewrite (advance_moved src (moved (moved L2 c2) "*"%char) "/"%char)
      by (rewrite !posL_moved; exact Hslash).
    reflexivity.
  - rewrite <- Hpre, state_eta. cbn [next_token]. fold rec.
    rewrite (bind_eq _ _ _ _ _ (skip_whitespace_stays src fuel L "/"%char H0 eq_refl)).
    rewrite (bind_eq _ _ _ _ _ (save_pre_state_eq L)). fold L0.
    rewrite (bind_eq _ _ _ _ _ (s_peek_eq src L0 "/"%char H0)).
    decide_char "/"%char.
    unfold divide_or_comment.
    rewrite (bind_eq _ _ _ _ _ (s_next_eq src L0 "/"%char "*"%char H0 H1)). fold L1.
    change (negb ("*"%char == "*"%char)) with false. cbv iota.
    replace (S fuel) with (String.length body + S (fuel - String.length body)) by lia.
    unfold bind at 1. rewrite E3. cbn [while]. unfold bind at 1.
    rewrite (comment_turn_closing src rec L2 c2 Hc2 Hstar Hslash). fold L5.
    destruct (rec L5); reflexivity.
Qed.

Lemma closed_comment_is_skipped_witness :
  exists sc : Scanner.t,
    advance_n ("1" ++ "/*" ++ " one " ++ "*/" ++ "+2") 9
      {| Scanner.pos := 1; Scanner.line := 1; Scanner.col := 2 |} = Some sc
    /\ next_token ("1" ++ "/*" ++ " one " ++ "*/" ++ "+2") 6
         (state_at {| Scanner.pos := 1; Scanner.line := 1; Scanner.col := 2 |}
            Scanner.init)
       = next_token ("1" ++ "/*" ++ " one " ++ "*/" ++ "+2") 5
           (state_at sc {| Scanner.pos := 1; Scanner.line := 1; Scanner.col := 2 |}).
Proof.
  apply (closed_comment_is_skipped "1" " one " "+2" 5
           (state_at {| Scanner.pos := 1; Scanner.line := 1; Scanner.col := 2 |}
              Scanner.init)).
  - reflexivity.
  - reflexivity.
  - simpl. lia.
Defined.

Lemma some_inj {A : Type} (x y : A) : Some x = Some y -> x = y.
Proof. intros H. now inversion H. Qed.

Lemma all_chars_app (test : ascii -> bool) (a b : string) :
  all_chars test (a ++ b) = all_chars test a && all_chars test b.
Proof.
  induction a as [|c a IH]; cbn [all_chars append]; [reflexivity|].
  rewrite IH. apply andb_assoc.
Qed.

(** X18. Two stars before the slash do not close a comment: the test
    for the closing mark consumes the character after a [*], so the
    slash is never looked at after the second star, and a source that
    ends so gives the ERROR token for an unclosed comment.  The source
    is one line of fewer than [INT_MAX] characters. *)
Theorem comment_is_not_closed_by_two_stars :
  forall body : string,
    all_chars inside_comment body = true ->
    all_chars not_newline body = true ->
    (Z.of_nat (String.length body) + 6 < 2 ^ 31)%Z ->
    lex ("/*" ++ body ++ "**/")
    = Ok [diagnostic_at_terminator
            "End-of-file in comment. Closing comment characters not found."
            ("/*" ++ body ++ "**/")]
         (at_terminator ("/*" ++ body ++ "**/")).
Proof.
  intros body Hin Hnl Hsz.
  assert (Hsrc : ("/*" ++ body) ++ "**/" = "/*" ++ body ++ "**/")
    by (rewrite string_app_assoc; reflexivity).
  set (src := "/*" ++ body ++ "**/") in *.
  assert (Hlen : String.length src = String.length body + 5).
  { rewrite <- Hsrc, string_length_app. simpl. lia. }
  assert (Hk : String.length ("/*" ++ body) = S (S (String.length body))) by reflexivity.
  apply lex_single; [exists "/"%char; split; [reflexivity | discriminate] | | reflexivity].
  unfold enough_fuel. remember (S (String.length src)) as fuel eqn:Hfuel.
  cbn [next_token]. set (rec := next_token src fuel).
  assert (H0 : Scanner.deref src (posL Lexer.init) = Some "/"%char) by reflexivity.
  assert (H1 : Scanner.deref src (S (posL Lexer.init)) = Some "*"%char) by reflexivity.
  rewrite (bind_eq _ _ _ _ _ (skip_whitespace_stays src _ Lexer.init "/"%char H0 eq_refl)).
  rewrite (bind_eq _ _ _ _ _ (save_pre_state_eq Lexer.init)).
  change (state_at (Lexer.s Lexer.init) (Lexer.s Lexer.init)) with Lexer.init.
  rewrite (bind_eq _ _ _ _ _ (s_peek_eq src Lexer.init "/"%char H0)).
  decide_char "/"%char.
  unfold divide_or_comment.
  rewrite (bind_eq _ _ _ _ _ (s_next_eq src Lexer.init "/"%char "*"%char H0 H1)).
  change (negb ("*"%char == "*"%char)) with false. cbv iota.
  set (L1 := moved Lexer.init "/"%char).
  destruct (comment_over_plain rec "**/" body "/*" "*"%char L1 7) as (L2 & E1 & E2 & E3);
    [reflexivity | exact H1 | exact Hin |].
  fold src in E1, E3.
  assert (Hp2 : S (posL L2) = String.length ("/*" ++ body)).
  { unfold posL. rewrite (advance_n_pos _ _ _ _ E1). rewrite Hk. reflexivity. }
  destruct (deref_any src (posL L2)) as (c2 & Hc2); [lia|].
  assert (Hd : forall (j : nat) (c : ascii),
            String.get j "**/" = Some c ->
            Scanner.deref src (S (posL L2) + j) = Some c).
  { intros j c Hj. rewrite Hp2, <- Hsrc. now apply deref_app_right. }
  assert (Hs1 : Scanner.deref src (S (posL L2)) = Some "*"%char)
    by (rewrite <- (Nat.add_0_r (S (posL L2))); now apply Hd).
  assert (Hs2 : Scanner.deref src (S (S (posL L2))) = Some "*"%char)
    by (replace (S (S (posL L2))) with (S (posL L2) + 1) by lia; now apply Hd).
  assert (Hs3 : Scanner.deref src (S (S (S (posL L2)))) = Some "/"%char)
    by (replace (S (S (S (posL L2)))) with (S (posL L2) + 2) by lia; now apply Hd).
  assert (Hs4 : Scanner.deref src (S (S (S (S (posL L2))))) = Some NUL).
  { replace (S (S (S (S (posL L2))))) with (String.length src) by lia.
    apply deref_at_len. }
  set (L3 := moved (moved L2 c2) "*"%char).
  set (L4 := moved L3 "*"%char).
  set (L5 := moved L4 "/"%char).
  assert (Hp3 : posL L3 = S (S (posL L2))) by (unfold L3; now rewrite !posL_moved).
  assert (Hp4 : posL L4 = S (S (S (posL L2)))) by (unfold L4; now rewrite posL_moved, Hp3).
  assert (T1 : comment_turn src rec tt L2 = Ok (Continue tt) L3).
  { apply (comment_turn_star src rec L2 c2 "*"%char); [assumption.. | discriminate]. }
  assert (T2 : comment_turn src rec tt L3 = Ok (Continue tt) L4).
  { apply (comment_turn_plain src rec L3 "*"%char "/"%char);
      [rewrite Hp3; exact Hs2 | rewrite Hp3; exact Hs3 | reflexivity]. }
  assert (T3 : comment_turn src rec tt L4 = Ok (Break tt) L5).
  { apply (comment_turn_end src rec L4 "/"%char);
      [rewrite Hp4; exact Hs3 | rewrite Hp4; exact Hs4]. }
  assert (HL5 : L5 = at_terminator src).
  { rewrite <- (state_eta L5). unfold at_terminator.
    assert (Hpre : Lexer.pre_state L5 = Scanner.init).
    { unfold L5, L4, L3. cbn [moved Lexer.pre_state]. rewrite E2. reflexivity. }
    rewrite Hpre. unfold state_at. f_equal.
    assert (Hrun : advance_n src (String.length src) Scanner.init = Some (Lexer.s L5)).
    { rewrite Hlen.
      replace (String.length body + 5) with (1 + (String.length body + 4)) by lia.
      rewrite advance_n_add. cbn [advance_n].
      change Scanner.init with (Lexer.s Lexer.init) at 1.
      rewrite (advance_moved _ _ _ H0). fold L1.
      rewrite advance_n_add, E1. cbn [advance_n].
      rewrite (advance_moved _ _ _ Hc2).
      rewrite (advance_moved src (moved L2 c2) "*"%char) by (rewrite posL_moved; exact Hs1).
      fold L3. rewrite (advance_moved src L3 "*"%char) by (rewrite Hp3; exact Hs2).
      fold L4. rewrite (advance_moved src L4 "/"%char) by (rewrite Hp4; exact Hs3).
      reflexivity. }
    assert (Hall : all_chars not_newline src = true).
    { rewrite <- Hsrc, !all_chars_app. cbn [append all_chars]. rewrite Hnl. reflexivity. }
    pose proof (advance_n_columns src EmptyString EmptyString Scanner.init eq_refl Hall)
      as Hcols.
    cbn [append String.length Nat.add Scanner.col Scanner.line Scanner.init] in Hcols.
    rewrite string_app_nil_r, Hrun in Hcols.
    specialize (Hcols ltac:(lia) ltac:(lia)). apply some_inj in Hcols.
    rewrite Hcols. unfold on_first_line. rewrite col_after_small by lia. f_equal. lia. }
  replace (S fuel) with (String.length body + 7) by lia.
  unfold bind at 1. rewrite E3.
  rewrite (while_continue _ _ _ _ _ _ T1), (while_continue _ _ _ _ _ _ T2),
    (while_break _ _ _ _ _ _ T3).
  cbv iota beta. rewrite HL5. apply error_at_terminator. lia.
Qed.

Lemma comment_is_not_closed_by_two_stars_witness :
  lex ("/*" ++ " a doc comment " ++ "**/")
  = Ok [diagnostic_at_terminator
          "End-of-file in comment. Closing comment characters not found."
          ("/*" ++ " a doc comment " ++ "**/")]
       (at_terminator ("/*" ++ " a doc comment " ++ "**/")).
Proof.
  apply (comment_is_not_closed_by_two_stars " a doc comment ").
  - reflexivity.
  - reflexivity.
  - vm_compute. reflexivity.
Defined.

(** ** The longest run *)

(** The loop of [identifier] and of [integer_lit] on the first line:
    it collects the run of accepted characters and stops on the first
    character of [tail]. *)
Lemma take_while_over (accept : ascii -> bool) (tail : string) (pre : Scanner.t) :
  accept NUL = false -> accept LF = false -> begins_with accept tail = false ->
  forall (more a : string) (c : ascii) (acc : string) (k n : nat),
    String.length a = S k ->
    Scanner.deref (a ++ more ++ tail) k = Some c -> Ascii.eqb c LF = false ->
    all_chars accept more = true ->
    while (R := unit) (String.length more + S n)
      (fun text : string =>
         c <- s_next (a ++ more ++ tail) ;;
         if accept c then
           p <- s_peek (a ++ more ++ tail) ;; ret (Continue (push_back text p))
         else ret (Break text))
      acc (state_at (on_first_line k) pre)
    = Ok (inl (acc ++ more)) (state_at (on_first_line (S k + String.length more)) pre).
Proof.
  intros Hnul Hlf Htail; induction more as [|x more IH]; intros a c acc k n Ha Hc Hclf Hall.
  - cbn [String.length Nat.add append] in *. rewrite string_app_nil_r, Nat.add_0_r.
    apply while_break. cbv beta.
    assert (Hx : Scanner.deref (a ++ tail) (S (posL (state_at (on_first_line k) pre)))
                 = Some (match tail with EmptyString => NUL | String d _ => d end))
      by (change (posL (state_at (on_first_line k) pre)) with k; rewrite <- Ha;
          apply deref_app_end).
    rewrite (bind_eq _ _ _ _ _
               (s_next_eq _ (state_at (on_first_line k) pre) _ _ Hc Hx)).
    assert (E : accept (match tail with EmptyString => NUL | String d _ => d end) = false)
      by (destruct tail; [exact Hnul | exact Htail]).
    rewrite E. unfold state_at. rewrite (moved_first_line c k pre Hclf). reflexivity.
  - cbn [all_chars] in Hall. apply andb_true_iff in Hall as (Hx & Hall).
    cbn [String.length Nat.add append].
    assert (Hd : Scanner.deref (a ++ String x (more ++ tail))
                   (S (posL (state_at (on_first_line k) pre))) = Some x)
      by (change (posL (state_at (on_first_line k) pre)) with k; rewrite <- Ha;
          apply deref_app_here).
    cbn [append] in Hc.
    assert (Hxlf : Ascii.eqb x LF = false).
    { destruct (Ascii.eqb_spec x LF) as [->|]; [congruence | reflexivity]. }
    erewrite while_continue.
    2:{ cbv beta.
        rewrite (bind_eq _ _ _ _ _
                   (s_next_eq _ (state_at (on_first_line k) pre) _ _ Hc Hd)), Hx.
        unfold state_at. rewrite (moved_first_line c k pre Hclf).
        rewrite (bind_eq _ _ _ _ _
                   (s_peek_eq _ (state_at (on_first_line (S k)) pre) x Hd)).
        reflexivity. }
    rewrite app_cons_assoc.
    fold (state_at (on_first_line (S k)) pre).
    rewrite (IH (a ++ string1 x) x (push_back acc x) (S k) n);
      [| rewrite length_snoc; lia
       | rewrite <- app_cons_assoc, <- Ha; apply deref_app_here
       | exact Hxlf | exact Hall ].
    unfold push_back. rewrite string_app_assoc. do 2 f_equal.
    unfold state_at. do 2 f_equal. lia.
Qed.

(** Walks down the [switch] of [next_token] for a character that the
    class fact [H] tells from every [case] label. *)
Ltac skip_labels H :=
  repeat match goal with
    | |- (if Ascii.eqb ?c ?x then _ else _) _ = _ =>
        destruct (Ascii.eqb_spec c x) as [E|_];
        [ exfalso; rewrite E in H; vm_compute in H; discriminate H | ]
    end.

(** The call of [next_token] at the beginning of a source whose first
    character is no white space is at the [switch] on that character. *)
Ltac at_switch c0 H0 Hspace :=
  cbn [next_token];
  rewrite (bind_eq _ _ _ _ _ (skip_whitespace_stays _ _ Lexer.init c0 H0 Hspace));
  rewrite (bind_eq _ _ _ _ _ (save_pre_state_eq Lexer.init));
  change (state_at (Lexer.s Lexer.init) (Lexer.s Lexer.init)) with Lexer.init;
  rewrite (bind_eq _ _ _ _ _ (s_peek_eq _ Lexer.init c0 H0)).

(** X19. An identifier or keyword goes as far as letters, digits and
    underscores go: whatever follows, the token is the one of the
    longest run and the cursor is left on the first character behind
    it. *)
Theorem identifier_takes_the_longest_run :
  forall (c0 : ascii) (more tail : string),
    is_id_start c0 = true ->
    all_chars is_id_end more = true ->
    begins_with is_id_end tail = false ->
    next_token (String c0 more ++ tail) (enough_fuel (String c0 more ++ tail)) Lexer.init
    = Ok (word_token (String c0 more)) (first_line_state (S (String.length more))).
Proof.
  intros c0 more tail Hstart Hmore Htail.
  destruct (id_start_class c0 Hstart) as (Hsp & _ & _ & Hlf & _).
  cbn [append]. set (src := String c0 (more ++ tail)).
  assert (H0 : Scanner.deref src (posL Lexer.init) = Some c0) by reflexivity.
  unfold enough_fuel. remember (S (String.length src)) as fuel eqn:Ef.
  assert (Hfuel : S fuel = String.length more + S (S (S (String.length tail)))).
  { rewrite Ef. unfold src. cbn [String.length]. rewrite string_length_app. lia. }
  at_switch c0 H0 Hsp. skip_labels Hstart. rewrite Hstart.
  unfold identifier. rewrite (bind_eq _ _ _ _ _ (s_peek_eq _ Lexer.init c0 H0)).
  pose proof (take_while_over is_id_end tail Scanner.init eq_refl eq_refl Htail
                more (string1 c0) c0 (string1 c0) 0 (S (S (String.length tail)))
                eq_refl H0 Hlf Hmore) as Hloop.
  rewrite <- Hfuel in Hloop.
  change (string1 c0 ++ more ++ tail) with src in Hloop.
  change (state_at (on_first_line 0) Scanner.init) with Lexer.init in Hloop.
  rewrite (bind_eq _ _ _ _ _ Hloop).
  unfold bind, get_pre_state, word_token.
  change (string1 c0 ++ more) with (String c0 more).
  destruct (keywords_find (String c0 more)); reflexivity.
Qed.

Lemma identifier_takes_the_longest_run_witness :
  next_token "iffy<3" (enough_fuel "iffy<3") Lexer.init
  = Ok (Token.mk IDENTIFIER (VString "iffy") 1 1) (first_line_state 4)
  /\ next_token "if(x)" (enough_fuel "if(x)") Lexer.init
     = Ok (Token.mk KEYWORD_IF (VInt 0) 1 1) (first_line_state 2).
Proof.
  split.
  - apply (identifier_takes_the_longest_run "i" "ffy" "<3"); reflexivity.
  - apply (identifier_takes_the_longest_run "i" "f" "(x)"); reflexivity.
Defined.

(** X20. A run of digits with a letter or underscore right behind it
    is no number: the ERROR token quotes the digits, and the call
    consumes them and that one character.  The run begins the source
    and has fewer than [INT_MAX] digits. *)
Theorem number_before_a_letter_is_invalid :
  forall (c0 : ascii) (more : string) (c : ascii) (rest : string),
    is_digit c0 = true ->
    all_chars is_digit more = true ->
    is_id_start c = true ->
    (Z.of_nat (String.length more) + 2 < 2 ^ 31)%Z ->
    next_token (String c0 more ++ String c rest)
      (enough_fuel (String c0 more ++ String c rest)) Lexer.init
    = Ok (diagnostic
            "Invalid number. Starts like a number, but ends in non-numeric characters."
            (String c0 more))
         (first_line_state (S (S (String.length more)))).
Proof.
  intros c0 more c rest Hdig Hmore Hc Hsz.
  destruct (digit_class c0 Hdig) as (Hsp & Hid & Hlf & _).
  destruct (id_start_class c Hc) as (_ & Hcdig & _ & Hclf & Hcnul).
  cbn [append]. set (src := String c0 (more ++ String c rest)).
  assert (H0 : Scanner.deref src (posL Lexer.init) = Some c0) by reflexivity.
  unfold enough_fuel. remember (S (String.length src)) as fuel eqn:Ef.
  assert (Hfuel : S fuel
                  = String.length more + S (S (S (String.length (String c rest))))).
  { rewrite Ef. unfold src. cbn [String.length]. rewrite string_length_app.
    cbn [String.length]. lia. }
  at_switch c0 H0 Hsp. skip_labels Hdig. rewrite Hid, Hdig.
  unfold integer_lit. rewrite (bind_eq _ _ _ _ _ (s_peek_eq _ Lexer.init c0 H0)).
  pose proof (take_while_over is_digit (String c rest) Scanner.init eq_refl eq_refl Hcdig
                more (string1 c0) c0 (string1 c0) 0
                (S (S (String.length (String c rest))))
                eq_refl H0 Hlf Hmore) as Hloop.
  rewrite <- Hfuel in Hloop.
  change (string1 c0 ++ more ++ String c rest) with src in Hloop.
  change (state_at (on_first_line 0) Scanner.init) with Lexer.init in Hloop.
  rewrite (bind_eq _ _ _ _ _ Hloop). cbv beta iota zeta.
  assert (Hd : Scanner.deref src
                 (posL (state_at (on_first_line (1 + String.length more)) Scanner.init))
               = Some c).
  { change (posL (state_at (on_first_line (1 + String.length more)) Scanner.init))
      with (String.length (String c0 more)).
    unfold src. change (String c0 (more ++ String c rest))
      with (String c0 more ++ String c rest). apply deref_app_here. }
  rewrite (bind_eq _ _ _ _ _ (s_peek_eq _ _ c Hd)), Hc.
  change (state_at (on_first_line (1 + String.length more)) Scanner.init)
    with (first_line_state (String.length (String c0 more))).
  unfold src. change (String c0 (more ++ String c rest))
    with (String c0 more ++ String c rest).
  rewrite error_on_first_line by (cbn [String.length]; lia).
  rewrite Hcnul. unfold first_line_state.
  rewrite (moved_first_line c _ _ Hclf). reflexivity.
Qed.

Lemma number_before_a_letter_is_invalid_witness :
  next_token "123abc" (enough_fuel "123abc") Lexer.init
  = Ok (diagnostic
          "Invalid number. Starts like a number, but ends in non-numeric characters."
          "123")
       (first_line_state 4).
Proof.
  apply (number_before_a_letter_is_invalid "1" "23" "a" "bc").
  - reflexivity.
  - reflexivity.
  - reflexivity.
  - vm_compute. reflexivity.
Defined.

(** ** Literals that are not closed *)

Lemma while_return {A R : Type} (body : A -> M (flow A R)) (fuel : nat) (a : A) (r : R)
      (L L' : Lexer.t) :
  body a L = Ok (Return r) L' ->
  while (S fuel) body a L = Ok (inr r) L'.
Proof. intros H. cbn [while]. rewrite (bind_eq _ _ _ _ _ H). reflexivity. Qed.

(** One turn of the loop of [string_lit]. *)
Abbreviation string_turn src :=
  (fun text : string =>
     c <- s_next src ;;
     if negb (c == DQUOTE) then
       p <- s_peek src ;;
       if p == BACKSLASH then
         e <- s_next src ;;
         if e == "n"%char then ret (Continue (push_back text LF))
         else if e == BACKSLASH then ret (Continue (push_back text BACKSLASH))
         else t <- error_unknown_escape src ;; ret (Return t)
       else if p == LF then
         t <- error src ("End-of-line while scanning string literal."
                         ++ " Closing string character not found before end-of-line.") ;;
         ret (Return t)
       else if p == NUL then
         t <- error src ("End-of-file while scanning string literal."
                         ++ " Closing string character not found.") ;;
         ret (Return t)
       else
         p' <- s_peek src ;;
         ret (Continue (push_back text p'))
     else ret (Break text)).

Lemma plain_in_string_class (x : ascii) :
  plain_in_string x = true ->
  Ascii.eqb x DQUOTE = false /\ Ascii.eqb x BACKSLASH = false
  /\ Ascii.eqb x LF = false /\ Ascii.eqb x NUL = false.
Proof.
  unfold plain_in_string. intros H.
  apply andb_true_iff in H as (H & H4). apply andb_true_iff in H as (H & H3).
  apply andb_true_iff in H as (H1 & H2).
  repeat split; now apply negb_true_iff.
Qed.

(** Over characters that stand for themselves the loop of [string_lit]
    goes on, one character per turn, along the first line. *)
Lemma string_over_plain (tail : string) (pre : Scanner.t) :
  forall (more a : string) (c : ascii) (acc : string) (k n : nat),
    String.length a = S k ->
    Scanner.deref (a ++ more ++ tail) k = Some c -> Ascii.eqb c LF = false ->
    all_chars plain_in_string more = true ->
    exists c' : ascii,
      Scanner.deref (a ++ more ++ tail) (k + String.length more) = Some c'
      /\ Ascii.eqb c' LF = false
      /\ while (String.length more + n) (string_turn (a ++ more ++ tail)) acc
           (state_at (on_first_line k) pre)
         = while n (string_turn (a ++ more ++ tail)) (acc ++ more)
             (state_at (on_first_line (k + String.length more)) pre).
Proof.
  induction more as [|x more IH]; intros a c acc k n Ha Hc Hclf Hall.
  - exists c. cbn [String.length Nat.add]. rewrite Nat.add_0_r, string_app_nil_r.
    repeat split; assumption.
  - cbn [all_chars] in Hall. apply andb_true_iff in Hall as (Hx & Hall).
    destruct (plain_in_string_class x Hx) as (Hq & Hbs & Hxlf & Hnul).
    cbn [String.length Nat.add].
    change (a ++ String x more ++ tail) with (a ++ String x (more ++ tail)) in *.
    assert (Hd : Scanner.deref (a ++ String x (more ++ tail))
                   (S (posL (state_at (on_first_line k) pre))) = Some x)
      by (change (posL (state_at (on_first_line k) pre)) with k; rewrite <- Ha;
          apply deref_app_here).
    erewrite while_continue.
    2:{ cbv beta.
        rewrite (bind_eq _ _ _ _ _
                   (s_next_eq _ (state_at (on_first_line k) pre) _ _ Hc Hd)), Hq.
        cbn [negb]. unfold state_at. rewrite (moved_first_line c k pre Hclf).
        rewrite (bind_eq _ _ _ _ _
                   (s_peek_eq _ (state_at (on_first_line (S k)) pre) x Hd)).
        rewrite Hbs, Hxlf, Hnul.
        rewrite (bind_eq _ _ _ _ _
                   (s_peek_eq _ (state_at (on_first_line (S k)) pre) x Hd)).
        reflexivity. }
    rewrite app_cons_assoc.
    fold (state_at (on_first_line (S k)) pre).
    destruct (IH (a ++ string1 x) x (push_back acc x) (S k) n) as (c' & E1 & E2 & E3);
      [ rewrite length_snoc; lia
      | rewrite <- app_cons_assoc, <- Ha; apply deref_app_here
      | exact Hxlf | exact Hall |].
    exists c'. replace (k + S (String.length more)) with (S k + String.length more) by lia.
    split; [exact E1 | split; [exact E2|]].
    rewrite E3. unfold push_back. rewrite (string_app_assoc acc (string1 x) more).
    reflexivity.
Qed.

(** X21. The first call of [next_token] on a source that begins with a
    string literal which the end of the source or the end of the line
    cuts short, the text behind the opening quote being shorter than
    [INT_MAX - 1] characters and without double quote, backslash,
    newline and NUL: the call gives the ERROR token for that case at
    (1,1), with the literal so far as the excerpt; the newline is
    consumed by the call. *)
Theorem string_literal_without_closing_quote :
  forall text : string,
    all_chars plain_in_string text = true ->
    (Z.of_nat (String.length text) + 2 < 2 ^ 31)%Z ->
    next_token (DQ ++ text) (enough_fuel (DQ ++ text)) Lexer.init
    = Ok (diagnostic
            ("End-of-file while scanning string literal."
             ++ " Closing string character not found.")
            (DQ ++ text))
         (first_line_state (S (String.length text)))
    /\ forall rest : string,
         next_token (DQ ++ text ++ NL ++ rest) (enough_fuel (DQ ++ text ++ NL ++ rest))
           Lexer.init
         = Ok (diagnostic
                 ("End-of-line while scanning string literal."
                  ++ " Closing string character not found before end-of-line.")
                 (DQ ++ text))
              (moved (first_line_state (S (String.length text))) LF).
Proof.
  intros text Hall Hsz.
  assert (Hrun : forall (tail : string) (x : ascii) (t : Token.t) (L' : Lexer.t),
            Scanner.deref (DQ ++ text ++ tail) (S (String.length text)) = Some x ->
            (forall (acc : string) (c : ascii),
                Scanner.deref (DQ ++ text ++ tail) (String.length text) = Some c ->
                Ascii.eqb c LF = false ->
                string_turn (DQ ++ text ++ tail) acc
                  (state_at (on_first_line (String.length text)) Scanner.init)
                = Ok (Return t) L') ->
            next_token (DQ ++ text ++ tail) (enough_fuel (DQ ++ text ++ tail)) Lexer.init
            = Ok t L').
  { intros tail x t L' Hx Hturn.
    set (src := DQ ++ text ++ tail) in *.
    assert (H0 : Scanner.deref src (posL Lexer.init) = Some DQUOTE) by reflexivity.
    unfold enough_fuel. remember (S (String.length src)) as fuel eqn:Ef.
    assert (Hfuel : S fuel = String.length text + S (S (S (String.length tail)))).
    { rewrite Ef. unfold src.
      change (DQ ++ text ++ tail) with (String DQUOTE (text ++ tail)).
      cbn [String.length]. rewrite string_length_app. lia. }
    at_switch DQUOTE H0 (eq_refl false). decide_char DQUOTE.
    unfold string_lit. rewrite Hfuel.
    destruct (string_over_plain tail Scanner.init text DQ DQUOTE EmptyString 0
                (S (S (S (String.length tail)))) eq_refl H0 eq_refl Hall)
      as (c' & E1 & E2 & E3).
    fold src in E1, E3.
    change (state_at (on_first_line 0) Scanner.init) with Lexer.init in E3.
    unfold bind at 1. rewrite E3.
    change (EmptyString ++ text) with text.
    change (0 + String.length text) with (String.length text) in *.
    rewrite (while_return _ _ _ _ _ _ (Hturn text c' E1 E2)). reflexivity. }
  split.
  - specialize (Hrun EmptyString NUL). rewrite string_app_nil_r in Hrun. apply Hrun.
    + change (S (String.length text)) with (String.length (DQ ++ text)).
      apply deref_at_len.
    + intros acc c Hc Hclf. cbv beta.
      assert (Hx : Scanner.deref (DQ ++ text)
                     (S (posL (state_at (on_first_line (String.length text)) Scanner.init)))
                   = Some NUL)
        by (change (S (posL (state_at (on_first_line (String.length text)) Scanner.init)))
              with (String.length (DQ ++ text)); apply deref_at_len).
      rewrite (bind_eq _ _ _ _ _
                 (s_next_eq _ (state_at (on_first_line (String.length text)) Scanner.init)
                    _ _ Hc Hx)).
      change (negb (NUL == DQUOTE)) with true. cbv iota.
      unfold state_at. rewrite (moved_first_line c _ _ Hclf).
      rewrite (bind_eq _ _ _ _ _
                 (s_peek_eq _ (state_at (on_first_line (S (String.length text)))
                                 Scanner.init) NUL Hx)).
      decide_char NUL.
      change (state_at (on_first_line (S (String.length text))) Scanner.init)
        with (first_line_state (String.length (DQ ++ text))).
      pose proof (error_on_first_line (DQ ++ text) EmptyString
                    ("End-of-file while scanning string literal."
                     ++ " Closing string character not found.")) as Herr.
      rewrite string_app_nil_r in Herr.
      rewrite (bind_eq _ _ _ _ _ (Herr ltac:(change (DQ ++ text) with (String DQUOTE text);
                                        cbn [String.length]; lia))).
      unfold ret. f_equal.
  - intros rest. apply (Hrun (NL ++ rest) LF).
    + change (S (String.length text)) with (String.length (DQ ++ text)).
      rewrite <- string_app_assoc. apply deref_app_here.
    + intros acc c Hc Hclf. cbv beta.
      assert (Hx : Scanner.deref (DQ ++ text ++ NL ++ rest)
                     (S (posL (state_at (on_first_line (String.length text)) Scanner.init)))
                   = Some LF).
      { change (S (posL (state_at (on_first_line (String.length text)) Scanner.init)))
          with (String.length (DQ ++ text)).
        rewrite <- string_app_assoc. apply deref_app_here. }
      rewrite (bind_eq _ _ _ _ _
                 (s_next_eq _ (state_at (on_first_line (String.length text)) Scanner.init)
                    _ _ Hc Hx)).
      change (negb (LF == DQUOTE)) with true. cbv iota.
      unfold state_at. rewrite (moved_first_line c _ _ Hclf).
      rewrite (bind_eq _ _ _ _ _
                 (s_peek_eq _ (state_at (on_first_line (S (String.length text)))
                                 Scanner.init) LF Hx)).
      decide_char LF.
      change (state_at (on_first_line (S (String.length text))) Scanner.init)
        with (first_line_state (String.length (DQ ++ text))).
      pose proof (error_on_first_line (DQ ++ text) (NL ++ rest)
                    ("End-of-line while scanning string literal."
                     ++ " Closing string character not found before end-of-line.")) as Herr.
      rewrite string_app_assoc in Herr.
      rewrite (bind_eq _ _ _ _ _ (Herr ltac:(change (DQ ++ text) with (String DQUOTE text);
                                        cbn [String.length]; lia))).
      unfold ret. f_equal.
Qed.

Lemma string_literal_without_closing_quote_witness :
  next_token (DQ ++ "abc") (enough_fuel (DQ ++ "abc")) Lexer.init
  = Ok (diagnostic
          ("End-of-file while scanning string literal."
           ++ " Closing string character not found.")
          (DQ ++ "abc"))
       (first_line_state 4).
Proof.
  refine (proj1 (string_literal_without_closing_quote "abc" _ _)).
  - reflexivity.
  - vm_compute. reflexivity.
Defined.

(** ** Character constants that are none *)

Lemma moved_first_line_state (k : nat) (c : ascii) :
  Ascii.eqb c LF = false -> moved (first_line_state k) c = first_line_state (S k).
Proof. intros H. unfold first_line_state. now apply moved_first_line. Qed.

Lemma s_next_first_line (src : string) (k : nat) (c d : ascii) :
  Scanner.deref src k = Some c -> Scanner.deref src (S k) = Some d ->
  Ascii.eqb c LF = false ->
  s_next src (first_line_state k) = Ok d (first_line_state (S k)).
Proof.
  intros Hc Hd Hlf. rewrite <- (moved_first_line_state k c Hlf).
  now apply s_next_eq.
Qed.

(** X22. The three ERROR tokens of [char_lit]: for two single quotes
    with nothing between them, for a second character where the
    closing quote should be, and for an escape other than [\n] and
    [\\].  Each has the characters before the offending one as its
    excerpt, and the call consumes the offending character, which is
    not the terminating NUL.  The constant begins the source. *)
Theorem character_constant_errors :
  forall rest : string,
    next_token (String QUOTE (String QUOTE rest))
      (enough_fuel (String QUOTE (String QUOTE rest))) Lexer.init
    = Ok (diagnostic "Empty character constant" (string1 QUOTE)) (first_line_state 2)
    /\ (forall c d : ascii,
           c <> QUOTE -> c <> BACKSLASH -> c <> LF -> d <> QUOTE -> d <> NUL ->
           next_token (String QUOTE (String c (String d rest)))
             (enough_fuel (String QUOTE (String c (String d rest)))) Lexer.init
           = Ok (diagnostic "Multi-character constant" (String QUOTE (string1 c)))
                (moved (first_line_state 2) d))
    /\ (forall e : ascii,
           e <> "n"%char -> e <> BACKSLASH -> e <> NUL ->
           next_token (String QUOTE (String BACKSLASH (String e rest)))
             (enough_fuel (String QUOTE (String BACKSLASH (String e rest)))) Lexer.init
           = Ok (diagnostic ("Unknown escape sequence \" ++ string1 e)
                   (String QUOTE (string1 BACKSLASH)))
                (moved (first_line_state 2) e)).
Proof.
  intros rest. split; [|split].
  - set (src := String QUOTE (String QUOTE rest)).
    assert (H0 : Scanner.deref src (posL Lexer.init) = Some QUOTE) by reflexivity.
    unfold enough_fuel. at_switch QUOTE H0 (eq_refl false). decide_char QUOTE.
    unfold char_lit.
    rewrite (bind_eq _ _ _ _ _
               (s_next_first_line src 0 QUOTE QUOTE eq_refl eq_refl eq_refl)).
    decide_char QUOTE.
    rewrite (error_on_first_line (string1 QUOTE) (String QUOTE rest)) by (simpl; lia).
    reflexivity.
  - intros c d Hc1 Hc2 Hc3 Hd1 Hd2.
    apply Ascii.eqb_neq in Hc1, Hc2, Hc3, Hd1, Hd2.
    set (src := String QUOTE (String c (String d rest))).
    assert (H0 : Scanner.deref src (posL Lexer.init) = Some QUOTE) by reflexivity.
    unfold enough_fuel. at_switch QUOTE H0 (eq_refl false). decide_char QUOTE.
    unfold char_lit.
    rewrite (bind_eq _ _ _ _ _
               (s_next_first_line src 0 QUOTE c eq_refl eq_refl eq_refl)).
    rewrite Hc1, Hc2.
    rewrite (bind_eq _ _ _ _ _
               (s_next_first_line src 1 c d eq_refl eq_refl Hc3)).
    rewrite Hd1. cbn [negb].
    rewrite (error_on_first_line (String QUOTE (string1 c)) (String d rest))
      by (simpl; lia).
    rewrite Hd2. reflexivity.
  - intros e He1 He2 He3.
    apply Ascii.eqb_neq in He1, He2, He3.
    set (src := String QUOTE (String BACKSLASH (String e rest))).
    assert (H0 : Scanner.deref src (posL Lexer.init) = Some QUOTE) by reflexivity.
    unfold enough_fuel. at_switch QUOTE H0 (eq_refl false). decide_char QUOTE.
    unfold char_lit.
    rewrite (bind_eq _ _ _ _ _
               (s_next_first_line src 0 QUOTE BACKSLASH eq_refl eq_refl eq_refl)).
    decide_char BACKSLASH.
    rewrite (bind_eq _ _ _ _ _
               (s_next_first_line src 1 BACKSLASH e eq_refl eq_refl eq_refl)).
    rewrite He1, He2.
    unfold error_unknown_escape.
    rewrite (bind_eq _ _ _ _ _ (s_peek_eq src (first_line_state 2) e eq_refl)).
    rewrite (error_on_first_line (String QUOTE (string1 BACKSLASH)) (String e rest))
      by (simpl; lia).
    rewrite He3. reflexivity.
Qed.

Lemma character_constant_errors_witness :
  next_token "'ab'" (enough_fuel "'ab'") Lexer.init
  = Ok (diagnostic "Multi-character constant" "'a") (first_line_state 3)
  /\ next_token "'\t'" (enough_fuel "'\t'") Lexer.init
     = Ok (diagnostic "Unknown escape sequence \t" "'\") (first_line_state 3).
Proof.
  split.
  - refine (proj1 (proj2 (character_constant_errors "'")) "a"%char "b"%char _ _ _ _ _);
      discriminate.
  - refine (proj2 (proj2 (character_constant_errors "'")) "t"%char _ _ _);
      discriminate.
Defined.

(** ** Numerals *)

(** Evaluates the digit tests on the character at hand. *)
Ltac digit_at_hand :=
  repeat match goal with
    | |- context [isdigit ?c] =>
        let b := eval vm_compute in (isdigit c) in change (isdigit c) with b
    | |- context [digit_value ?c] =>
        let v := eval vm_compute in (digit_value c) in change (digit_value c) with v
    end.

(** The value that [stol] computes is the one of the decimal numeral,
    read with an accumulator as [Pos.of_uint_acc] does. *)
Lemma of_uint_acc_value (text : string) :
  forall (d : Decimal.uint) (p : positive),
    NilEmpty.uint_of_string text = Some d ->
    Z.pos (Pos.of_uint_acc d p) = decimal_value (Z.pos p) text.
Proof.
  induction text as [|c text IH]; intros d p H; cbn [NilEmpty.uint_of_string] in H.
  - inversion H; subst d. reflexivity.
  - destruct (NilEmpty.uint_of_string text) as [d'|]; [|discriminate H].
    destruct c as [[] [] [] [] [] [] [] []]; cbn in H; try discriminate H;
      inversion H; subst d; clear H;
      cbn [Pos.of_uint_acc decimal_value]; digit_at_hand; cbv iota;
      rewrite (IH d' _ eq_refl); f_equal; lia.
Qed.

Lemma of_uint_value (text : string) :
  forall d : Decimal.uint,
    NilEmpty.uint_of_string text = Some d ->
    Z.of_uint d = decimal_value 0 text.
Proof.
  induction text as [|c text IH]; intros d H; cbn [NilEmpty.uint_of_string] in H.
  - inversion H; subst d. reflexivity.
  - destruct (NilEmpty.uint_of_string text) as [d'|] eqn:E; [|discriminate H].
    destruct c as [[] [] [] [] [] [] [] []]; cbn in H; try discriminate H;
      inversion H; subst d; clear H;
      cbn [decimal_value]; digit_at_hand; cbv iota;
      first [ exact (IH d' eq_refl)
            | exact (of_uint_acc_value text d' _ E) ].
Qed.

Lemma digits_of_run (text : string) :
  all_chars is_digit text = true ->
  exists d : Decimal.uint, NilEmpty.uint_of_string text = Some d.
Proof.
  induction text as [|c text IH]; intros H; [exists Decimal.Nil; reflexivity|].
  cbn [all_chars] in H. apply andb_true_iff in H as (Hc & H).
  destruct (IH H) as (d & E). cbn [NilEmpty.uint_of_string]. rewrite E.
  destruct c as [[] [] [] [] [] [] [] []]; try discriminate Hc; eexists; reflexivity.
Qed.

(** [to_string] writes the value of a canonical numeral as the numeral
    itself. *)
Lemma canonical_numeral_printed (text : string) :
  canonical_numeral text = true ->
  string_of_Z (decimal_value 0 text) = text.
Proof.
  destruct text as [|c rest]; [discriminate|]. cbn [canonical_numeral].
  intros H. apply andb_true_iff in H as (H & Hcanon).
  apply andb_true_iff in H as (Hc & Hrest).
  assert (Hall : all_chars is_digit (String c rest) = true)
    by (cbn [all_chars]; now rewrite Hc, Hrest).
  destruct (digits_of_run _ Hall) as (d & E).
  rewrite <- (of_uint_value _ d E).
  unfold string_of_Z. change (Z.of_uint d) with (Z.of_int (Decimal.Pos d)).
  rewrite DecimalZ.to_of. cbn [Decimal.norm NilZero.string_of_int].
  assert (Hnorm : Decimal.unorm d = d /\ d <> Decimal.Nil).
  { cbn [NilEmpty.uint_of_string] in E.
    destruct (NilEmpty.uint_of_string rest) as [d'|] eqn:E'; [|discriminate E].
    apply orb_true_iff in Hcanon as [Hnz|Hlen].
    - destruct c as [[] [] [] [] [] [] [] []]; cbn in E; try discriminate E;
        try discriminate Hnz; inversion E; subst d; (split; [reflexivity | discriminate]).
    - apply Nat.eqb_eq in Hlen. destruct rest; [|discriminate Hlen].
      cbn in E'. inversion E'; subst d'.
      destruct c as [[] [] [] [] [] [] [] []]; cbn in E; try discriminate E;
        inversion E; subst d; (split; [reflexivity | discriminate]). }
  destruct Hnorm as (-> & Hnil).
  assert (Hsame : NilZero.string_of_uint d = NilEmpty.string_of_uint d)
    by (destruct d; [congruence | reflexivity ..]).
  rewrite Hsame. now apply NilEmpty.sus.
Qed.

Lemma decimal_value_zeros (zeros text : string) :
  all_chars is_zero zeros = true ->
  decimal_value 0 (zeros ++ text) = decimal_value 0 text.
Proof.
  induction zeros as [|z zeros IH]; intros H; [reflexivity|].
  cbn [all_chars] in H. apply andb_true_iff in H as (Hz & H).
  apply Ascii.eqb_eq in Hz; subst z. cbn [append decimal_value].
  digit_at_hand. cbv iota. exact (IH H).
Qed.

Lemma zeros_are_digits (zeros : string) :
  all_chars is_zero zeros = true -> all_chars is_digit zeros = true.
Proof.
  induction zeros as [|z zeros IH]; intros H; [reflexivity|].
  cbn [all_chars] in *. apply andb_true_iff in H as (Hz & H).
  apply Ascii.eqb_eq in Hz; subst z. now rewrite (IH H).
Qed.

(** X23. An integer literal is printed as the decimal numeral of its
    value: a numeral without leading zeros comes out of the lexer and
    the table as it was written, and leading zeros are dropped. *)
Theorem integer_literal_round_trip :
  forall zeros numeral : string,
    all_chars is_zero zeros = true ->
    canonical_numeral numeral = true ->
    (decimal_value 0 numeral <= INT_MAX)%Z ->
    lex_and_list (zeros ++ numeral)
    = Some (table_header ++ " 1    1   Integer           " ++ numeral ++ NL).
Proof.
  intros zeros numeral Hzeros Hcanon Hv.
  assert (Hdigits : all_chars is_digit numeral = true).
  { destruct numeral as [|c rest]; [discriminate|]. cbn [canonical_numeral] in Hcanon.
    apply andb_true_iff in Hcanon as (H & _). exact H. }
  assert (Hall : all_chars is_digit (zeros ++ numeral) = true)
    by (rewrite all_chars_app, (zeros_are_digits _ Hzeros), Hdigits; reflexivity).
  assert (Hval : decimal_value 0 (zeros ++ numeral) = decimal_value 0 numeral)
    by now apply decimal_value_zeros.
  assert (Hprint := canonical_numeral_printed numeral Hcanon).
  destruct (zeros ++ numeral) as [|c0 rest] eqn:Etext.
  { destruct zeros; [|discriminate Etext]. cbn in Etext. subst numeral. discriminate. }
  cbn [all_chars] in Hall. apply andb_true_iff in Hall as (Hc0 & Hrest).
  destruct (next_token_digits c0 rest Hc0 Hrest) as (Hsmall & _). cbv zeta in Hsmall.
  assert (Hnonneg : (0 <= decimal_value 0 (String c0 rest))%Z)
    by (apply decimal_value_nonneg; lia).
  assert (E : lex (String c0 rest)
              = Ok [Token.mk INTEGER (VInt (decimal_value 0 numeral)) 1 1]
                   (at_terminator (String c0 rest))).
  { apply lex_single.
    - exists c0. split; [reflexivity|].
      destruct (digit_class c0 Hc0) as (_ & _ & _ & Hnul). now apply Ascii.eqb_neq.
    - rewrite Hsmall by (unfold INT_MAX, LONG_MAX in *; lia).
      rewrite wrap_int_small by (unfold INT_MAX in *; lia).
      rewrite Hval. reflexivity.
    - reflexivity. }
  unfold lex_and_list. rewrite E. f_equal.
  unfold list_tokens. cbn [fold_left]. f_equal.
  unfold Token_to_string.
  cbn [Token.name Token.line Token.column Token.value TokenVal_to_string].
  rewrite Hprint. change (setw2 1) with " 1".
  rewrite !string_app_assoc. reflexivity.
Qed.

Lemma integer_literal_round_trip_witness :
  lex_and_list "007"
  = Some (table_header ++ " 1    1   Integer           " ++ "7" ++ NL)
  /\ lex_and_list "2147483647"
     = Some (table_header ++ " 1    1   Integer           " ++ "2147483647" ++ NL).
Proof.
  split.
  - apply (integer_literal_round_trip "00" "7").
    + reflexivity.
    + reflexivity.
    + vm_compute. discriminate.
  - apply (integer_literal_round_trip EmptyString "2147483647").
    + reflexivity.
    + reflexivity.
    + vm_compute. discriminate.
Defined.
